(** * Coupon service: code generation, campaign store and reservation protocol

    A shallow embedding of the Go coupon service
    ([internal/service/coupon_service.go], [internal/repository/*.go],
    [internal/model/campaign.go], [scripts/init.sql]) together with the
    properties its specification states about it.

    Conventions.
    - Go's fixed-width integers are integers of [Z] with the wrap-around
      written out ([wrap64], [to_byte]).
    - A [[]byte] or [[16]byte] is a [list Z] of values in [0, 256).
    - A [rune] is its Unicode code point.
    - Timestamps are integers (an abstract, totally ordered clock).
    - Every storage call can fail; what one request meets (the failing
      calls, the readings of the clock, the choice of the storage where a
      query leaves one) is given by a record ([CreateEnv], [GetEnv],
      [IssueEnv]), so that the error paths of the code are modelled and
      not assumed away. *)

From Stdlib Require Import ZArith List Lia Bool String Ascii.
From Stdlib Require Import Permutation Sorted.
Import ListNotations.

Local Open Scope Z_scope.

(* ===================================================================== *)
(** ** Fixed-width integers and byte strings *)
(* ===================================================================== *)

Module Wire.

(** [uint64(x)]: the value of [x] as an unsigned 64-bit integer. *)
Definition wrap64 (x : Z) : Z := x mod 2 ^ 64.

(** [byte(x)] / [uint8(x)]: truncation to the low 8 bits. *)
Definition to_byte (x : Z) : Z := x mod 2 ^ 8.

(** [binary.BigEndian.PutUint64(b, v)]: the 8 bytes written, most
    significant first. *)
Definition PutUint64 (v : Z) : list Z :=
  [ to_byte (Z.shiftr v 56); to_byte (Z.shiftr v 48);
    to_byte (Z.shiftr v 40); to_byte (Z.shiftr v 32);
    to_byte (Z.shiftr v 24); to_byte (Z.shiftr v 16);
    to_byte (Z.shiftr v 8);  to_byte v ].

(** [binary.BigEndian.Uint64(b)]: reads [b[0..8)]. *)
Definition Uint64 (b : list Z) : Z :=
  Z.lor (nth 7 b 0)
   (Z.lor (Z.shiftl (nth 6 b 0) 8)
    (Z.lor (Z.shiftl (nth 5 b 0) 16)
     (Z.lor (Z.shiftl (nth 4 b 0) 24)
      (Z.lor (Z.shiftl (nth 3 b 0) 32)
       (Z.lor (Z.shiftl (nth 2 b 0) 40)
        (Z.lor (Z.shiftl (nth 1 b 0) 48)
               (Z.shiftl (nth 0 b 0) 56))))))).

End Wire.

(* ===================================================================== *)
(** ** The block cipher of [crypto/aes] (FIPS-197)

    [aes.NewCipher(key)] followed by one [block.Encrypt(dst, src)].  The
    state is kept in the byte order of the input block: byte [r + 4c] is
    row [r] of column [c]. *)
(* ===================================================================== *)

Module AES.

Definition sbox : list Z :=
  [ 99; 124; 119; 123; 242; 107; 111; 197; 48; 1; 103; 43; 254; 215; 171; 118;
    202; 130; 201; 125; 250; 89; 71; 240; 173; 212; 162; 175; 156; 164; 114; 192;
    183; 253; 147; 38; 54; 63; 247; 204; 52; 165; 229; 241; 113; 216; 49; 21;
    4; 199; 35; 195; 24; 150; 5; 154; 7; 18; 128; 226; 235; 39; 178; 117;
    9; 131; 44; 26; 27; 110; 90; 160; 82; 59; 214; 179; 41; 227; 47; 132;
    83; 209; 0; 237; 32; 252; 177; 91; 106; 203; 190; 57; 74; 76; 88; 207;
    208; 239; 170; 251; 67; 77; 51; 133; 69; 249; 2; 127; 80; 60; 159; 168;
    81; 163; 64; 143; 146; 157; 56; 245; 188; 182; 218; 33; 16; 255; 243; 210;
    205; 12; 19; 236; 95; 151; 68; 23; 196; 167; 126; 61; 100; 93; 25; 115;
    96; 129; 79; 220; 34; 42; 144; 136; 70; 238; 184; 20; 222; 94; 11; 219;
    224; 50; 58; 10; 73; 6; 36; 92; 194; 211; 172; 98; 145; 149; 228; 121;
    231; 200; 55; 109; 141; 213; 78; 169; 108; 86; 244; 234; 101; 122; 174; 8;
    186; 120; 37; 46; 28; 166; 180; 198; 232; 221; 116; 31; 75; 189; 139; 138;
    112; 62; 181; 102; 72; 3; 246; 14; 97; 53; 87; 185; 134; 193; 29; 158;
    225; 248; 152; 17; 105; 217; 142; 148; 155; 30; 135; 233; 206; 85; 40; 223;
    140; 161; 137; 13; 191; 230; 66; 104; 65; 153; 45; 15; 176; 84; 187; 22 ].

Definition sub (b : Z) : Z := nth (Z.to_nat b) sbox 0.

(** Multiplication by [x] in GF(2^8) modulo [x^8 + x^4 + x^3 + x + 1]. *)
Definition xtime (b : Z) : Z :=
  if Z.testbit b 7 then Z.lxor (Wire.to_byte (2 * b)) 27 else 2 * b.

Definition mul3 (b : Z) : Z := Z.lxor (xtime b) b.

Definition xor_bytes (a b : list Z) : list Z :=
  map (fun p => Z.lxor (fst p) (snd p)) (combine a b).

Definition at_ (s : list Z) (i : nat) : Z := nth i s 0.

Definition sub_bytes (s : list Z) : list Z := map sub s.

Definition shift_rows (s : list Z) : list Z :=
  map (fun i => at_ s (i mod 4 + 4 * ((i / 4 + i mod 4) mod 4)))%nat (seq 0 16).

Definition mix_column (a0 a1 a2 a3 : Z) : list Z :=
  [ Z.lxor (Z.lxor (xtime a0) (mul3 a1)) (Z.lxor a2 a3);
    Z.lxor (Z.lxor a0 (xtime a1)) (Z.lxor (mul3 a2) a3);
    Z.lxor (Z.lxor a0 a1) (Z.lxor (xtime a2) (mul3 a3));
    Z.lxor (Z.lxor (mul3 a0) a1) (Z.lxor a2 (xtime a3)) ].

Definition mix_columns (s : list Z) : list Z :=
  flat_map (fun c => mix_column (at_ s (4 * c)) (at_ s (4 * c + 1))
                                (at_ s (4 * c + 2)) (at_ s (4 * c + 3)))%nat
           (seq 0 4).

(** Round constants: [rcon j] is [x^(j-1)], for [j >= 1]. *)
Fixpoint rcon (j : nat) : Z :=
  match j with
  | O => 0
  | S O => 1
  | S j' => xtime (rcon j')
  end.

Definition rot_word (w : list Z) : list Z :=
  match w with
  | a :: r => r ++ [a]
  | [] => []
  end.

(** Key expansion over 4-byte words.  [ws] holds the words [0 .. i-1];
    [n] more words are appended. *)
Fixpoint expand (Nk : nat) (n : nat) (i : nat) (ws : list (list Z))
  : list (list Z) :=
  match n with
  | O => ws
  | S n' =>
      let prev := nth (i - 1) ws [] in
      let temp :=
        if (i mod Nk =? 0)%nat then
          xor_bytes (map sub (rot_word prev)) [rcon (i / Nk); 0; 0; 0]
        else if ((6 <? Nk) && (i mod Nk =? 4))%nat then map sub prev
        else prev in
      expand Nk n' (S i) (ws ++ [xor_bytes (nth (i - Nk) ws []) temp])
  end.

Fixpoint words (k : list Z) (n : nat) : list (list Z) :=
  match n with
  | O => []
  | S n' => firstn 4 k :: words (skipn 4 k) n'
  end.

(** The expanded key, as [4 * (Nr + 1)] words, with [Nk = len(key) / 4]
    and [Nr = Nk + 6]. *)
Definition key_schedule (key : list Z) : list (list Z) :=
  let Nk := (List.length key / 4)%nat in
  expand Nk (4 * (Nk + 7) - Nk) Nk (words key Nk).

Definition round_key (ks : list (list Z)) (r : nat) : list Z :=
  List.concat (firstn 4 (skipn (4 * r) ks)).

Fixpoint rounds (ks : list (list Z)) (n : nat) (r : nat) (s : list Z)
  : list Z :=
  match n with
  | O => s
  | S n' =>
      rounds ks n' (S r)
        (xor_bytes (mix_columns (shift_rows (sub_bytes s))) (round_key ks r))
  end.

(** [block.Encrypt]: one block, no chaining. *)
Definition encrypt_block (key : list Z) (src : list Z) : list Z :=
  let ks := key_schedule key in
  let Nr := (List.length key / 4 + 6)%nat in
  let s := rounds ks (Nr - 1) 1 (xor_bytes src (round_key ks 0)) in
  xor_bytes (shift_rows (sub_bytes s)) (round_key ks Nr).

(** [aes.NewCipher]: a [KeySizeError] unless the key has 16, 24 or 32
    bytes; otherwise the block's [Encrypt]. *)
Definition NewCipher (key : list Z) : option (list Z -> list Z) :=
  let n := List.length key in
  if ((n =? 16) || (n =? 24) || (n =? 32))%nat
  then Some (encrypt_block key)
  else None.

End AES.

(* ===================================================================== *)
(** ** Results of Go calls *)
(* ===================================================================== *)

(** A Go call returns a value, returns a non-nil [error], or panics. *)
Inductive Res (E A : Type) : Type :=
| Ok (a : A)
| Error (e : E)
| Panic.
Arguments Ok {E A} a.
Arguments Error {E A} e.
Arguments Panic {E A}.

Definition bind {E A B} (m : Res E A) (k : A -> Res E B) : Res E B :=
  match m with
  | Ok a => k a
  | Error e => Error e
  | Panic => Panic
  end.

Notation "x <- m ;; k" := (bind m (fun x => k))
  (at level 61, m at next level, right associativity).

(** [xs[i]]: an index out of range is a run-time panic. *)
Definition index {E A} (xs : list A) (i : Z) : Res E A :=
  if i <? 0 then Panic
  else match nth_error xs (Z.to_nat i) with
       | Some a => Ok a
       | None => Panic
       end.

(** [xs[i] = v] on a slice; out of range is a run-time panic. *)
Definition store {E A} (xs : list A) (i : Z) (v : A) : Res E (list A) :=
  if (i <? 0) || (Z.of_nat (List.length xs) <=? i) then Panic
  else Ok (firstn (Z.to_nat i) xs ++ v :: skipn (S (Z.to_nat i)) xs).

(** [for i := lo; i < lo + n; i++ { body }] over a state [S]. *)
Fixpoint for_up {E S} (n : nat) (i : Z) (body : Z -> S -> Res E S) (s : S)
  : Res E S :=
  match n with
  | O => Ok s
  | S n' => s' <- body i s ;; for_up n' (i + 1) body s'
  end.

(** [for i := hi; i > hi - n; i-- { body }] over a state [S]. *)
Fixpoint for_down {E S} (n : nat) (i : Z) (body : Z -> S -> Res E S) (s : S)
  : Res E S :=
  match n with
  | O => Ok s
  | S n' => s' <- body i s ;; for_down n' (i - 1) body s'
  end.

(* ===================================================================== *)
(** ** Go strings: UTF-8 *)
(* ===================================================================== *)

Module Utf8.

(** [utf8.EncodeRune]; an invalid rune is encoded as U+FFFD. *)
Definition encode_rune (r : Z) : list Z :=
  let r := if (r <? 0) || (1114111 <? r) || ((55296 <=? r) && (r <=? 57343))
           then 65533 else r in
  if r <? 128 then [r]
  else if r <? 2048 then
    [Z.lor 192 (Z.shiftr r 6); Z.lor 128 (Z.land r 63)]
  else if r <? 65536 then
    [Z.lor 224 (Z.shiftr r 12);
     Z.lor 128 (Z.land (Z.shiftr r 6) 63);
     Z.lor 128 (Z.land r 63)]
  else
    [Z.lor 240 (Z.shiftr r 18);
     Z.lor 128 (Z.land (Z.shiftr r 12) 63);
     Z.lor 128 (Z.land (Z.shiftr r 6) 63);
     Z.lor 128 (Z.land r 63)].

Fixpoint of_bytes (bs : list Z) : string :=
  match bs with
  | [] => EmptyString
  | b :: r => String (ascii_of_N (Z.to_N b)) (of_bytes r)
  end.

Fixpoint to_bytes (s : string) : list Z :=
  match s with
  | EmptyString => []
  | String a r => Z.of_N (N_of_ascii a) :: to_bytes r
  end.

(** [string(rs)] for [rs []rune]. *)
Definition of_runes (rs : list Z) : string :=
  of_bytes (flat_map encode_rune rs).

(** [utf8.RuneCountInString] on well-formed UTF-8: the bytes that are not
    continuation bytes [10xxxxxx]. *)
Definition rune_count (s : string) : nat :=
  List.length (filter (fun b => negb (Z.shiftr b 6 =? 2)) (to_bytes s)).

End Utf8.

(* ===================================================================== *)
(** ** CodeGenerator ([coupon_service.go], lines 96-165) *)
(* ===================================================================== *)

Module CodeGen.
Import Wire.

(** [[]rune("0123456789")] *)
Definition digits : list Z := [48; 49; 50; 51; 52; 53; 54; 55; 56; 57].

(** The 28 Hangul syllables of [hanguls], as code points. *)
Definition hanguls : list Z :=
  [44032; 45208; 45796; 46972; 47560; 48148; 49324; 50500; 51088; 52264;
   52852; 53440; 54028; 54616; 44144; 45320; 45908; 47084; 47672; 48260;
   49436; 50612; 51200; 52376; 52964; 53552; 54140; 54728].

(** [pool := append(digits, hanguls...)] *)
Definition pool : list Z := digits ++ hanguls.

(** [base := uint64(len(pool))] *)
Definition base : Z := Z.of_nat (List.length pool).

(** [campaignIDToSequence]: [uint64(campaignID)]. *)
Definition campaignIDToSequence (campaignID : Z) : Z := wrap64 campaignID.

(** [createUniqueSequence]: [(campaignSeq << 32) | couponIndex] on
    [uint64]. *)
Definition createUniqueSequence (campaignID couponIndex : Z) : Z :=
  let campaignSeq := campaignIDToSequence campaignID in
  Z.lor (wrap64 (Z.shiftl campaignSeq 32)) couponIndex.

(** [generateCampaignKey]:
    [key[i] = byte((hash >> (i % 8)) ^ uint64(i*7))] for [i] in [0, 16). *)
Definition generateCampaignKey {E} (campaignID : Z) : Res E (list Z) :=
  let key := repeat 0 16 in
  let hash := campaignIDToSequence campaignID in
  for_up 16 0
    (fun i key =>
       store key i (to_byte (Z.lxor (Z.shiftr hash (i mod 8)) (wrap64 (i * 7)))))
    key.

(** The error of [generateSecureCoupon]. *)
Inductive GenError : Type :=
| AesCipherError.   (* "failed to create AES cipher: ..." *)

(** [generateSecureCoupon(campaignID, couponIndex)]. *)
Definition generateSecureCoupon (campaignID couponIndex : Z)
  : Res GenError string :=
  let seq := createUniqueSequence campaignID couponIndex in
  key <- generateCampaignKey campaignID ;;
  match AES.NewCipher key with
  | None => Error AesCipherError
  | Some encrypt =>
      (* plain: upper 64 bits 0, lower 64 bits = seq *)
      let plain := repeat 0 8 ++ PutUint64 seq in
      let cipher := encrypt plain in
      c0 <- index cipher 0 ;;
      digit <- index digits (c0 mod 10) ;;
      c1 <- index cipher 1 ;;
      hang <- index hanguls (c1 mod to_byte (Z.of_nat (List.length hanguls))) ;;
      let v := Uint64 (skipn 8 cipher) in
      st <- for_down 8 7
              (fun i st =>
                 let '(body, v) := st in
                 r <- index pool (v mod base) ;;
                 body' <- store body i r ;;
                 Ok (body', v / base))
              (repeat 0 8, v) ;;
      Ok (Utf8.of_runes ([digit; hang] ++ fst st))
  end.

End CodeGen.

(* ===================================================================== *)
(** ** Data model ([internal/model/campaign.go], [scripts/init.sql]) *)
(* ===================================================================== *)

(** A row of [campaigns]. *)
Module Campaign.
Record t : Type := mk {
  ID : Z;                 (* id BIGSERIAL PRIMARY KEY *)
  AvailableCoupons : Z;   (* available_coupons INTEGER NOT NULL; Go int32 *)
  StartDate : Z;          (* start_date *)
  CreatedAt : Z;          (* created_at *)
  UpdatedAt : Z           (* updated_at *)
}.
End Campaign.

(** [status]: the code writes ['available'] and ['issued'] only. *)
Inductive Status : Type := Available | Issued.

Definition status_eqb (a b : Status) : bool :=
  match a, b with
  | Available, Available | Issued, Issued => true
  | _, _ => false
  end.

(** A row of [coupons].  [issued_at] is a nullable column. *)
Module Coupon.
Record t : Type := mk {
  Code : string;          (* code VARCHAR(10) PRIMARY KEY *)
  CampaignID : Z;         (* campaign_id BIGINT NOT NULL REFERENCES campaigns *)
  Status : Status;        (* status VARCHAR(20) DEFAULT 'available' *)
  IssuedAt : option Z;    (* issued_at TIMESTAMPTZ DEFAULT NOW() *)
  CreatedAt : Z           (* created_at TIMESTAMPTZ DEFAULT NOW() *)
}.
End Coupon.

(** The stored state: the two tables and the sequence behind
    [campaigns.id].  A sequence is not transactional: a value drawn by
    [nextval] is not given back by a rollback. *)
Record DB : Type := mkDB {
  campaigns : list Campaign.t;
  coupons : list Coupon.t;
  campaigns_id_seq : Z
}.

Definition empty_db : DB := mkDB [] [] 1.

(** Rollback of a transaction that started on [db] and reached [tx]. *)
Definition rollback (db tx : DB) : DB :=
  mkDB (campaigns db) (coupons db) (campaigns_id_seq tx).

(* ===================================================================== *)
(** ** Repositories ([campaign_repository.go], [coupon_repository.go]) *)
(* ===================================================================== *)

Module Repo.

(** The errors the repositories return, by message. *)
Inductive RepoError : Type :=
| ErrCampaignNotFound      (* "campaign not found" *)
| ErrNoAvailableCoupons    (* "no available coupons" *)
| ErrNotFoundOrIssued      (* "coupon not found or already issued" *)
| ErrStorage.              (* a wrapped error of the storage layer *)

(** [CampaignRepository.CreateCampaign]: [INSERT INTO campaigns ...
    RETURNING id]; [now] is [time.Now()].  Returns the row with its
    assigned identifier. *)
Definition CreateCampaign (fails : bool) (now : Z) (tx : DB)
    (availableCoupons startDate : Z) : Res RepoError (DB * Campaign.t) :=
  if fails then Error ErrStorage
  else
    let id := campaigns_id_seq tx in
    let row := Campaign.mk id availableCoupons startDate now now in
    Ok (mkDB (campaigns tx ++ [row]) (coupons tx) (id + 1), row).

(** [CampaignRepository.GetCampaign]: [SELECT ... WHERE id = $1]. *)
Definition GetCampaign (fails : bool) (db : DB) (id : Z)
  : Res RepoError Campaign.t :=
  if fails then Error ErrStorage
  else match find (fun c => Campaign.ID c =? id) (campaigns db) with
       | Some c => Ok c
       | None => Error ErrCampaignNotFound
       end.

(** [ORDER BY issued_at ASC]: NULL sorts last. *)
Definition issued_le (a b : option Z) : bool :=
  match a, b with
  | Some x, Some y => x <=? y
  | _, None => true
  | None, Some _ => false
  end.

Fixpoint insert_by_issued_at (r : Coupon.t) (l : list Coupon.t)
  : list Coupon.t :=
  match l with
  | [] => [r]
  | x :: rest =>
      if issued_le (Coupon.IssuedAt r) (Coupon.IssuedAt x) then r :: l
      else x :: insert_by_issued_at r rest
  end.

(** The rows in ascending order of [issued_at].  The query has no second
    sort key; rows with equal [issued_at] are listed here in the order of
    the table. *)
Definition order_by_issued_at (l : list Coupon.t) : list Coupon.t :=
  fold_right insert_by_issued_at [] l.

(** The rows of [WHERE campaign_id = $1 AND status = 'issued']. *)
Definition issued_rows (db : DB) (campaignID : Z) : list Coupon.t :=
  filter (fun r => (Coupon.CampaignID r =? campaignID)
                   && status_eqb (Coupon.Status r) Issued) (coupons db).

(** [CampaignRepository.GetCampaignWithCoupons]. *)
Definition GetCampaignWithCoupons (get_fails select_fails : bool) (db : DB)
    (campaignID : Z) : Res RepoError (Campaign.t * list string) :=
  campaign <- GetCampaign get_fails db campaignID ;;
  if select_fails then Error ErrStorage
  else Ok (campaign,
           map Coupon.Code (order_by_issued_at (issued_rows db campaignID))).

(** The rows [SELECT ... WHERE campaign_id = $1 AND status = 'available'
    ... FOR UPDATE SKIP LOCKED] may return: available, of the campaign, and
    not locked by another transaction. *)
Definition candidates (locked : string -> bool) (db : DB) (campaignID : Z)
  : list Coupon.t :=
  filter (fun r => (Coupon.CampaignID r =? campaignID)
                   && status_eqb (Coupon.Status r) Available
                   && negb (locked (Coupon.Code r))) (coupons db).

(** The rows [ORDER BY created_at ASC] may put first: those with the
    least [created_at]. *)
Definition least (rows : list Coupon.t) : list Coupon.t :=
  filter (fun r => forallb (fun r' => Coupon.CreatedAt r <=? Coupon.CreatedAt r')
                           rows)
         rows.

(** [ORDER BY created_at ASC LIMIT 1]: a row with the least [created_at].
    The query has no second sort key: among rows with equal [created_at]
    the storage returns any one, and [tie] is its choice. *)
Definition oldest (tie : nat) (rows : list Coupon.t) : option Coupon.t :=
  nth_error (least rows) (tie mod List.length (least rows)).

(** [CouponRepository.ReserveAvailableCoupon]. *)
Definition ReserveAvailableCoupon (fails : bool) (tie : nat)
    (locked : string -> bool) (tx : DB) (campaignID : Z)
  : Res RepoError string :=
  if fails then Error ErrStorage
  else match oldest tie (candidates locked tx campaignID) with
       | Some r => Ok (Coupon.Code r)
       | None => Error ErrNoAvailableCoupons
       end.

(** [UPDATE coupons SET status = 'issued', issued_at = $1
     WHERE code = $2 AND status = 'available']. *)
Definition mark_row (now : Z) (couponCode : string) (r : Coupon.t)
  : Coupon.t :=
  if String.eqb (Coupon.Code r) couponCode
     && status_eqb (Coupon.Status r) Available
  then Coupon.mk (Coupon.Code r) (Coupon.CampaignID r) Issued (Some now)
                 (Coupon.CreatedAt r)
  else r.

Definition rows_affected (couponCode : string) (rows : list Coupon.t) : nat :=
  List.length (filter (fun r => String.eqb (Coupon.Code r) couponCode
                         && status_eqb (Coupon.Status r) Available) rows).

(** [CouponRepository.MarkCouponAsIssued]; [now] is [time.Now()]. *)
Definition MarkCouponAsIssued (exec_fails rows_affected_fails : bool)
    (now : Z) (tx : DB) (couponCode : string) : Res RepoError DB :=
  if exec_fails then Error ErrStorage
  else if rows_affected_fails then Error ErrStorage
  else if (rows_affected couponCode (coupons tx) =? 0)%nat
  then Error ErrNotFoundOrIssued
  else Ok (mkDB (campaigns tx) (map (mark_row now couponCode) (coupons tx))
                (campaigns_id_seq tx)).

(** The first [n] characters of a byte string, and the bytes after
    them. *)
Fixpoint split_runes (n : nat) (bs : list Z) : list Z * list Z :=
  match bs with
  | [] => ([], [])
  | b :: rest =>
      if negb (Z.shiftr b 6 =? 2)          (* [b] starts a character *)
      then match n with
           | O => ([], bs)
           | S n' => let (h, t) := split_runes n' rest in (b :: h, t)
           end
      else let (h, t) := split_runes n rest in (b :: h, t)
  end.

(** What the column [code VARCHAR(10)] stores for [code]: the code when it
    has at most ten characters; its first ten characters when all the
    others are spaces; otherwise the statement fails. *)
Definition varchar10 (code : string) : option string :=
  if (Utf8.rune_count code <=? 10)%nat then Some code
  else
    let (h, t) := split_runes 10 (Utf8.to_bytes code) in
    if forallb (Z.eqb 32) t then Some (Utf8.of_bytes h) else None.

(** The row the table stores for [r]. *)
Definition stored (r : Coupon.t) : option Coupon.t :=
  match varchar10 (Coupon.Code r) with
  | Some code =>
      Some (Coupon.mk code (Coupon.CampaignID r) (Coupon.Status r)
              (Coupon.IssuedAt r) (Coupon.CreatedAt r))
  | None => None
  end.

(** The constraints of [coupons] a stored row must meet: the primary key
    on [code] and the reference to [campaigns]. *)
Definition row_accepted (tx : DB) (r : Coupon.t) : bool :=
  negb (existsb (fun x => String.eqb (Coupon.Code x) (Coupon.Code r))
                (coupons tx))
  && existsb (fun c => Campaign.ID c =? Coupon.CampaignID r) (campaigns tx).

(** The rows of one [INSERT], in order; the statement fails as a whole
    when a row is refused. *)
Fixpoint insert_rows (tx : DB) (rows : list Coupon.t) : option DB :=
  match rows with
  | [] => Some tx
  | r :: rest =>
      match stored r with
      | Some r' =>
          if row_accepted tx r'
          then insert_rows (mkDB (campaigns tx) (coupons tx ++ [r'])
                                 (campaigns_id_seq tx)) rest
          else None
      | None => None
      end
  end.

(** The most parameters one statement takes: their number is a 16-bit
    field of the protocol. *)
Definition max_parameters : Z := 65535.

(** [CouponRepository.insertCouponBatch]: one [INSERT INTO coupons (code,
    campaign_id, status, created_at) VALUES ...] with four parameters for
    each code.  [issued_at] is not among the columns, so each row takes
    the default of the column, [NOW()], which is the time [tx_now] of the
    transaction. *)
Definition insertCouponBatch (fails : bool) (tx_now : Z) (tx : DB)
    (campaignID : Z) (codes : list string) (createdAt : Z)
  : Res RepoError DB :=
  if (List.length codes =? 0)%nat then Ok tx
  else if fails then Error ErrStorage
  else if max_parameters <? Z.of_nat (List.length codes) * 4
  then Error ErrStorage
  else
    let rows := map (fun code =>
                  Coupon.mk code campaignID Available (Some tx_now) createdAt)
                  codes in
    match insert_rows tx rows with
    | Some tx' => Ok tx'
    | None => Error ErrStorage
    end.

Definition batchSize : nat := 1000.

(** [CouponRepository.CreatePregeneratedCoupons]: [now] is read once; the
    loop [for i := 0; i < len(couponCodes); i += batchSize] runs once for
    each [k] below [ceil(len / batchSize)], with [i = k * batchSize]. *)
Definition CreatePregeneratedCoupons (fails : nat -> bool) (now tx_now : Z)
    (tx : DB) (campaignID : Z) (couponCodes : list string)
  : Res RepoError DB :=
  let len := List.length couponCodes in
  for_up ((len + batchSize - 1) / batchSize) 0
    (fun k tx =>
       let i := (Z.to_nat k * batchSize)%nat in
       let end_ := if (len <? i + batchSize)%nat then len
                   else (i + batchSize)%nat in
       let batch := firstn (end_ - i) (skipn i couponCodes) in
       insertCouponBatch (fails (Z.to_nat k)) tx_now tx campaignID batch now)
    tx.

End Repo.

(* ===================================================================== *)
(** ** CouponService ([coupon_service.go]) *)
(* ===================================================================== *)

Module Service.
Import Repo.

(** The error codes the handlers answer with. *)
Inductive Code : Type :=
| CodeInternal
| CodeNotFound             (* NotFoundError *)
| CodeFailedPrecondition   (* PreconditionError *)
| CodeResourceExhausted.   (* ExhaustionError *)

(** [couponv1.Campaign] *)
Record CampaignMsg : Type := mkCampaignMsg {
  Id : Z;
  AvailableCoupons : Z;
  StartDate : Z;
  IssuedCouponCodes : list string
}.

(** [couponv1.Coupon] *)
Record CouponMsg : Type := mkCouponMsg {
  Code_ : string;
  CampaignId : Z
}.

(** What one [CreateCampaign] request meets: which storage calls fail, the
    readings of [time.Now()] and the time of the transaction. *)
Record CreateEnv : Type := mkCreateEnv {
  create_begin_fails : bool;
  create_insert_fails : bool;
  create_batch_fails : nat -> bool;
  create_commit_fails : bool;
  now_campaign : Z;       (* time.Now() in CampaignRepository.CreateCampaign *)
  now_coupons : Z;        (* time.Now() in CreatePregeneratedCoupons *)
  create_tx_now : Z       (* NOW() of the transaction *)
}.

(** [make([]string, 0, n)]: a negative capacity is a run-time panic. *)
Definition make_slice {E} (n : Z) : Res E (list string) :=
  if n <? 0 then Panic else Ok [].

(** Lines 60-69: the loop that generates the codes. *)
Definition generate_codes (campaignID availableCoupons : Z)
  : Res Code (list string) :=
  couponCodes <- make_slice availableCoupons ;;
  for_up (Z.to_nat availableCoupons) 0
    (fun i couponCodes =>
       match CodeGen.generateSecureCoupon campaignID (Wire.wrap64 i) with
       | Ok code => Ok (couponCodes ++ [code])
       | Error _ => Error CodeInternal
       | Panic => Panic
       end)
    couponCodes.

(** The statements of [CreateCampaign] between the insertion of the
    campaign and the commit, on the transaction [tx]. *)
Definition create_pool (env : CreateEnv) (tx : DB) (campaign : Campaign.t)
  : Res Code DB :=
  couponCodes <- generate_codes (Campaign.ID campaign)
                   (Campaign.AvailableCoupons campaign) ;;
  match CreatePregeneratedCoupons (create_batch_fails env) (now_coupons env)
          (create_tx_now env) tx (Campaign.ID campaign) couponCodes with
  | Ok tx' => Ok tx'
  | Error _ => Error CodeInternal
  | Panic => Panic
  end.

(** [CouponServer.CreateCampaign].  The deferred [tx.Rollback()] runs on
    every return and on a panic; after a commit it has no effect. *)
Definition CreateCampaign (env : CreateEnv) (availableCoupons startDate : Z)
    (db : DB) : DB * Res Code CampaignMsg :=
  if create_begin_fails env then (db, Error CodeInternal)
  else
    match Repo.CreateCampaign (create_insert_fails env) (now_campaign env) db
            availableCoupons startDate with
    | Ok (tx, campaign) =>
        match create_pool env tx campaign with
        | Ok tx' =>
            if create_commit_fails env
            then (rollback db tx', Error CodeInternal)
            else (tx', Ok (mkCampaignMsg (Campaign.ID campaign)
                             (Campaign.AvailableCoupons campaign)
                             (Campaign.StartDate campaign) []))
        | Error e => (rollback db tx, Error e)
        | Panic => (rollback db tx, Panic)
        end
    | Error _ => (db, Error CodeInternal)
    | Panic => (db, Panic)
    end.

(** What one [GetCampaign] request meets. *)
Record GetEnv : Type := mkGetEnv {
  get_campaign_fails : bool;
  get_select_fails : bool
}.

(** [CouponServer.GetCampaign]; it reads and does not write. *)
Definition GetCampaign (env : GetEnv) (campaignId : Z) (db : DB)
  : Res Code CampaignMsg :=
  match GetCampaignWithCoupons (get_campaign_fails env) (get_select_fails env)
          db campaignId with
  | Ok (campaign, couponCodes) =>
      Ok (mkCampaignMsg (Campaign.ID campaign)
            (Campaign.AvailableCoupons campaign)
            (Campaign.StartDate campaign) couponCodes)
  | Error ErrCampaignNotFound => Error CodeNotFound
  | Error _ => Error CodeInternal
  | Panic => Panic
  end.

(** What one [IssueCoupon] request meets. *)
Record IssueEnv : Type := mkIssueEnv {
  issue_get_fails : bool;
  issue_begin_fails : bool;
  issue_reserve_fails : bool;
  issue_exec_fails : bool;
  issue_rows_affected_fails : bool;
  issue_commit_fails : bool;
  now_check : Z;          (* time.Now() of the start check *)
  now_mark : Z;           (* time.Now() in MarkCouponAsIssued *)
  issue_tie : nat         (* the choice of the reservation query among the
                             rows with the least created_at *)
}.

(** [CouponServer.IssueCoupon], with no other transaction in flight: no
    row is locked by another one.  Which of the rows with the least
    [created_at] the reservation returns is [issue_tie env]. *)
Definition IssueCoupon (env : IssueEnv) (campaignId : Z) (db : DB)
  : DB * Res Code CouponMsg :=
  match Repo.GetCampaign (issue_get_fails env) db campaignId with
  | Ok campaign =>
      if now_check env <? Campaign.StartDate campaign
      then (db, Error CodeFailedPrecondition)
      else if issue_begin_fails env then (db, Error CodeInternal)
      else
        match ReserveAvailableCoupon (issue_reserve_fails env)
                (issue_tie env) (fun _ => false) db campaignId with
        | Ok couponCode =>
            match MarkCouponAsIssued (issue_exec_fails env)
                    (issue_rows_affected_fails env) (now_mark env) db
                    couponCode with
            | Ok tx =>
                if issue_commit_fails env then (db, Error CodeInternal)
                else (tx, Ok (mkCouponMsg couponCode campaignId))
            | Error _ => (db, Error CodeInternal)
            | Panic => (db, Panic)
            end
        | Error ErrNoAvailableCoupons => (db, Error CodeResourceExhausted)
        | Error _ => (db, Error CodeInternal)
        | Panic => (db, Panic)
        end
  | Error ErrCampaignNotFound => (db, Error CodeNotFound)
  | Error _ => (db, Error CodeInternal)
  | Panic => (db, Panic)
  end.

(** The requests the service accepts. *)
Inductive Request : Type :=
| ReqCreate (env : CreateEnv) (availableCoupons startDate : Z)
| ReqGet (env : GetEnv) (campaignId : Z)
| ReqIssue (env : IssueEnv) (campaignId : Z).

Definition handle (r : Request) (db : DB) : DB :=
  match r with
  | ReqCreate env n d => fst (CreateCampaign env n d db)
  | ReqGet _ _ => db
  | ReqIssue env c => fst (IssueCoupon env c db)
  end.

(** The states the store reaches from the empty one. *)
Inductive reachable : DB -> Prop :=
| reach_empty : reachable empty_db
| reach_step : forall db r, reachable db -> reachable (handle r db).

End Service.

(* ===================================================================== *)
(** ** The generator as the specification words it (section 4.1)

    A second definition, written from the steps of the specification and
    not from the code, to compare the code with.  The alphabets are those
    of the code. *)
(* ===================================================================== *)

Module GenerateSpec.

Definition D : list Z := CodeGen.digits.
Definition S : list Z := CodeGen.hanguls.
Definition P : list Z := D ++ S.

(** Step 1: the 128-bit block, as a number: upper 64 bits 0, lower 64 bits
    [(campaignSequence << 32) | index]. *)
Definition block (campaignID index : Z) : Z :=
  let campaignSequence := campaignID mod 2 ^ 64 in
  0 * 2 ^ 64 + (Z.lor (campaignSequence * 2 ^ 32) index) mod 2 ^ 64.

(** The [n] bytes of an unsigned number, most significant first. *)
Definition be_bytes (n : nat) (x : Z) : list Z :=
  map (fun j => (x / 256 ^ (Z.of_nat n - 1 - Z.of_nat j)) mod 256) (seq 0 n).

(** Bytes read as an unsigned big-endian number. *)
Definition be_value (bs : list Z) : Z :=
  fold_left (fun acc b => acc * 256 + b) bs 0.

(** Step 5: [body[i]] is the digit of weight [38^(7-i)] of [v] in base
    38, as a symbol of [P]. *)
Definition body (v : Z) : list Z :=
  map (fun i => nth (Z.to_nat ((v / 38 ^ (7 - Z.of_nat i)) mod 38)) P 0)
      (seq 0 8).

(** Steps 1 and 3 to 6, for a keyed permutation [permute] of 16-byte
    blocks. *)
Definition generate (permute : list Z -> list Z) (campaignID index : Z)
  : list Z :=
  let output := permute (be_bytes 16 (block campaignID index)) in
  let leadingDigit := nth (Z.to_nat (nth 0 output 0 mod 10)) D 0 in
  let leadingSyllable := nth (Z.to_nat (nth 1 output 0 mod 28)) S 0 in
  let v := be_value (firstn 8 (skipn 8 output)) in
  [leadingDigit; leadingSyllable] ++ body v.

End GenerateSpec.

(* ===================================================================== *)
(** ** Notions used to state the properties of the generator *)
(* ===================================================================== *)

Module Shape.
Import Wire CodeGen.

Definition is_byte (b : Z) : Prop := 0 <= b < 256.
Definition bytes (l : list Z) : Prop := Forall is_byte l.
Definition word (w : list Z) : Prop := List.length w = 4%nat /\ bytes w.

(** The byte [generateCampaignKey] stores at position [i]. *)
Definition key_byte (campaignID : Z) (i : Z) : Z :=
  to_byte (Z.lxor (Z.shiftr (campaignIDToSequence campaignID) (i mod 8)) (i * 7)).

(** The key bytes and the output block of one call. *)
Definition key_of (c : Z) : list Z :=
  map (key_byte c) (map Z.of_nat (seq 0 16)).

Definition cipher_of (c i : Z) : list Z :=
  AES.encrypt_block (key_of c)
    (repeat 0 8 ++ PutUint64 (createUniqueSequence c i)).

(** The runes of a code, read off the output block [out]. *)
Definition runes_from (out : list Z) : list Z :=
  let v := Uint64 (skipn 8 out) in
  [ nth (Z.to_nat (nth 0 out 0 mod 10)) digits 0;
    nth (Z.to_nat (nth 1 out 0 mod 28)) hanguls 0;
    nth (Z.to_nat ((v / 38 / 38 / 38 / 38 / 38 / 38 / 38) mod 38)) pool 0;
    nth (Z.to_nat ((v / 38 / 38 / 38 / 38 / 38 / 38) mod 38)) pool 0;
    nth (Z.to_nat ((v / 38 / 38 / 38 / 38 / 38) mod 38)) pool 0;
    nth (Z.to_nat ((v / 38 / 38 / 38 / 38) mod 38)) pool 0;
    nth (Z.to_nat ((v / 38 / 38 / 38) mod 38)) pool 0;
    nth (Z.to_nat ((v / 38 / 38) mod 38)) pool 0;
    nth (Z.to_nat ((v / 38) mod 38)) pool 0;
    nth (Z.to_nat (v mod 38)) pool 0 ].

(** A byte that starts a rune: not a continuation byte [10xxxxxx]. *)
Definition leading (b : Z) : bool := negb (Z.shiftr b 6 =? 2).

(** The encoding of [r] is well formed and holds one rune. *)
Definition one_symbol (r : Z) : bool :=
  (List.length (filter leading (Utf8.encode_rune r)) =? 1)%nat
  && forallb (fun b => (0 <=? b) && (b <? 256)) (Utf8.encode_rune r).

(** No rune occurs twice in [l]. *)
Fixpoint distinct (l : list Z) : bool :=
  match l with
  | [] => true
  | x :: r => negb (existsb (Z.eqb x) r) && distinct r
  end.

End Shape.

(* ===================================================================== *)
(** ** Notions used to state the properties of the store *)
(* ===================================================================== *)

Module StoreView.
Import Repo Service.

(** The row [insertCouponBatch] writes for a code. *)
Definition new_row (campaignID tx_now createdAt : Z) (code : string)
  : Coupon.t :=
  Coupon.mk code campaignID Available (Some tx_now) createdAt.

(** The number of batches [CreatePregeneratedCoupons] makes of [n] codes. *)
Definition batches (n : Z) : nat :=
  ((Z.to_nat n + batchSize - 1) / batchSize)%nat.

(** No storage call of a [CreateCampaign] for [n] coupons fails. *)
Definition create_faultless (env : CreateEnv) (n : Z) : Prop :=
  create_begin_fails env = false /\ create_insert_fails env = false /\
  create_commit_fails env = false /\
  forall k, (k < batches n)%nat -> create_batch_fails env k = false.

(** The state a committed [CreateCampaign] leaves: one more campaign, with
    the identifier drawn from the sequence, and one coupon for each code. *)
Definition created (env : CreateEnv) (n d : Z) (db : DB)
    (codes : list string) : DB :=
  let id := campaigns_id_seq db in
  mkDB (campaigns db
          ++ [Campaign.mk id n d (now_campaign env) (now_campaign env)])
       (coupons db
          ++ map (new_row id (create_tx_now env) (now_coupons env)) codes)
       (id + 1).

(** The campaign with identifier [c], as [GetCampaign] finds it. *)
Definition lookup (db : DB) (c : Z) : option Campaign.t :=
  find (fun x => Campaign.ID x =? c) (campaigns db).

(** Ascending order of [issued_at] between two rows: the time of [a] is
    not after the time of [b]; a row without [issued_at] comes after every
    row with one. *)
Definition by_issued_at (a b : Coupon.t) : Prop :=
  match Coupon.IssuedAt a, Coupon.IssuedAt b with
  | Some ta, Some tb => ta <= tb
  | _, None => True
  | None, Some _ => False
  end.

(** The times of issuance of [rows], in their order; a row without one is
    left out. *)
Definition issue_times (rows : list Coupon.t) : list Z :=
  flat_map (fun r => match Coupon.IssuedAt r with
                     | Some t => [t]
                     | None => []
                     end) rows.

(** An environment in which no storage call fails. *)
Definition create_env (now_campaign now_coupons tx_now : Z) : CreateEnv :=
  mkCreateEnv false false (fun _ => false) false now_campaign now_coupons tx_now.

(** An environment in which no storage call fails and the reservation
    returns the first, in the order of the table, of the rows with the
    least [created_at]. *)
Definition issue_env (now_check now_mark : Z) : IssueEnv :=
  mkIssueEnv false false false false false false now_check now_mark 0.

(** What every request keeps: a coupon refers to a campaign identifier
    already drawn, the coupons of one campaign share [created_at], and
    [issued_at] is never NULL. *)
Definition invariant (db : DB) : Prop :=
  (forall r, In r (coupons db) ->
             Coupon.CampaignID r < campaigns_id_seq db) /\
  (forall r1 r2, In r1 (coupons db) -> In r2 (coupons db) ->
                 Coupon.CampaignID r1 = Coupon.CampaignID r2 ->
                 Coupon.CreatedAt r1 = Coupon.CreatedAt r2) /\
  (forall r, In r (coupons db) -> Coupon.IssuedAt r <> None).

(** The store after one campaign of three coupons is created in the empty
    store, with no storage fault. *)
Definition sample_db : DB :=
  handle (ReqCreate (create_env 10 11 12) 3 0) empty_db.

End StoreView.

(* ===================================================================== *)
(** ** What a code keeps of the output block *)
(* ===================================================================== *)

Module Residues.
Import Wire CodeGen Shape.

(** The three numbers [generateSecureCoupon] reads off the output block:
    byte 0 modulo 10, byte 1 modulo 28, and the eight body digits, that
    is, bytes 8..16 as a number modulo 38^8. *)
Definition residues (out : list Z) : Z * Z * Z :=
  (nth 0 out 0 mod 10, nth 1 out 0 mod 28, Uint64 (skipn 8 out) mod 38 ^ 8).

(** The [n] lowest base-38 digits of [v], lowest first: the values
    [v % base] of the loop [v /= base]. *)
Fixpoint low_digits (n : nat) (v : Z) : list Z :=
  match n with
  | O => []
  | S n' => v mod 38 :: low_digits n' (v / 38)
  end.

(** [a] is a prefix of [b]. *)
Fixpoint prefixb (a b : list Z) : bool :=
  match a, b with
  | [], _ => true
  | x :: a', y :: b' => (x =? y) && prefixb a' b'
  | _ :: _, [] => false
  end.

(** The encoding of no rune of [l] starts the encoding of another one. *)
Definition prefix_free (l : list Z) : bool :=
  forallb (fun r =>
             forallb (fun r' =>
                        (r =? r')
                        || negb (prefixb (Utf8.encode_rune r)
                                         (Utf8.encode_rune r')))
                     l)
          l.

End Residues.

(* ===================================================================== *)
(** ** Concurrent calls of [IssueCoupon]

    Each call runs the statements of [CouponServer.IssueCoupon] one at a
    time; the calls interleave in any order.  The store holds the
    committed rows.  A call that has selected a row [FOR UPDATE] holds the
    lock of that row until it commits or rolls back; [SKIP LOCKED] leaves
    the rows other calls hold out of the selection.  The [UPDATE] of a
    transaction becomes visible when it commits. *)
(* ===================================================================== *)

Module Burst.
Import Repo Service.

(** Where a call stands. *)
Inductive PC : Type :=
| AtStart                            (* before [GetCampaign] *)
| Checked (campaign : Campaign.t)    (* before the start check *)
| Started                            (* before [BeginTxx] *)
| InTx                               (* before [ReserveAvailableCoupon] *)
| Reserved (code : string)           (* before [MarkCouponAsIssued] *)
| Marked (code : string) (now : Z)   (* before [Commit] *)
| Done (r : Res Code CouponMsg).     (* returned *)

Record Caller : Type := mkCaller {
  req : Z;      (* req.Msg.CampaignId *)
  pc : PC
}.

Record State : Type := mkState {
  db : DB;                 (* the committed rows *)
  clock : Z;               (* what time.Now() reads *)
  callers : list Caller
}.

(** The row whose lock a call holds. *)
Definition holds (k : Caller) : list string :=
  match pc k with
  | Reserved code | Marked code _ => [code]
  | _ => []
  end.

Definition held (ks : list Caller) : list string := flat_map holds ks.

(** The calls other than call [t]. *)
Definition others (s : State) (t : nat) : list Caller :=
  firstn t (callers s) ++ skipn (S t) (callers s).

(** The row [code] is locked by a call other than [t]. *)
Definition locked (s : State) (t : nat) (code : string) : bool :=
  existsb (String.eqb code) (held (others s t)).

(** [pick] may be the row the reservation query returns: a candidate with
    the least [created_at]. *)
Definition may_select (cands : list Coupon.t) (pick : string) : bool :=
  existsb (fun r =>
             String.eqb (Coupon.Code r) pick
             && forallb (fun r' => Coupon.CreatedAt r <=? Coupon.CreatedAt r')
                        cands)
          cands.

(** The next statement of call [t], which stands at [pc k]; [pick] is the
    row the reservation query returns, if it returns one.  The result is
    the committed store and the next position of the call, or [None] when
    [pick] is not an answer the query can give. *)
Definition next (s : State) (t : nat) (k : Caller) (pick : option string)
  : option (DB * PC) :=
  match pc k with
  | AtStart =>
      match Repo.GetCampaign false (db s) (req k) with
      | Ok campaign => Some (db s, Checked campaign)
      | Error ErrCampaignNotFound => Some (db s, Done (Error CodeNotFound))
      | _ => Some (db s, Done (Error CodeInternal))
      end
  | Checked campaign =>
      if clock s <? Campaign.StartDate campaign
      then Some (db s, Done (Error CodeFailedPrecondition))
      else Some (db s, Started)
  | Started => Some (db s, InTx)
  | InTx =>
      let cands := candidates (locked s t) (db s) (req k) in
      match pick with
      | Some code =>
          if may_select cands code then Some (db s, Reserved code) else None
      | None =>
          match cands with
          | [] => Some (db s, Done (Error CodeResourceExhausted))
          | _ :: _ => None
          end
      end
  | Reserved code =>
      match MarkCouponAsIssued false false (clock s) (db s) code with
      | Ok _ => Some (db s, Marked code (clock s))
      | _ => Some (db s, Done (Error CodeInternal))
      end
  | Marked code now =>
      Some (mkDB (campaigns (db s))
                 (map (mark_row now code) (coupons (db s)))
                 (campaigns_id_seq (db s)),
            Done (Ok (mkCouponMsg code (req k))))
  | Done _ => None
  end.

(** The storage call call [t] is about to make fails: the call answers
    an internal error, and its transaction, if open, rolls back. *)
Definition fault (k : Caller) : option PC :=
  match pc k with
  | AtStart | Started | InTx | Reserved _ | Marked _ _ =>
      Some (Done (Error CodeInternal))
  | Checked _ | Done _ => None
  end.

Inductive Event : Type :=
| Tick (d : Z)                          (* time passes *)
| Run (t : nat) (pick : option string)  (* call [t] runs its next statement *)
| Fail (t : nat).                       (* the next storage call of [t] fails *)

Definition set_pc (s : State) (t : nat) (k : Caller) (db' : DB) (p : PC)
  : State :=
  mkState db' (clock s)
    (firstn t (callers s) ++ mkCaller (req k) p :: skipn (S t) (callers s)).

Definition step (s : State) (e : Event) : option State :=
  match e with
  | Tick d =>
      if d <? 0 then None else Some (mkState (db s) (clock s + d) (callers s))
  | Run t pick =>
      match nth_error (callers s) t with
      | Some k =>
          match next s t k pick with
          | Some (db', p) => Some (set_pc s t k db' p)
          | None => None
          end
      | None => None
      end
  | Fail t =>
      match nth_error (callers s) t with
      | Some k =>
          match fault k with
          | Some p => Some (set_pc s t k (db s) p)
          | None => None
          end
      | None => None
      end
  end.

Fixpoint run (s : State) (evs : list Event) : option State :=
  match evs with
  | [] => Some s
  | e :: rest =>
      match step s e with
      | Some s' => run s' rest
      | None => None
      end
  end.

(** The statements a call at [p] has before it, at most. *)
Definition rank (p : PC) : nat :=
  match p with
  | AtStart => 6
  | Checked _ => 5
  | Started => 4
  | InTx => 3
  | Reserved _ => 2
  | Marked _ _ => 1
  | Done _ => 0
  end.

(** The statements the calls have before them, at most. *)
Definition work (ks : list Caller) : nat :=
  list_sum (map (fun k => rank (pc k)) ks).

(** The events of [evs] in which a call moves. *)
Definition moves (evs : list Event) : nat :=
  List.length (filter (fun e => match e with Tick _ => false | _ => true end)
                      evs).

(** No storage call fails in [evs]. *)
Definition faultless (evs : list Event) : bool :=
  forallb (fun e => match e with Fail _ => false | _ => true end) evs.

(** No storage call of a call on campaign [c] fails in [evs]; [reqs] are
    the campaigns the calls are on. *)
Definition spared (c : Z) (reqs : list Z) (evs : list Event) : bool :=
  forallb (fun e => match e with
                    | Fail t => match nth_error reqs t with
                                | Some r => negb (r =? c)
                                | None => true
                                end
                    | _ => true
                    end) evs.

(** The burst starts: one call for each requested campaign. *)
Definition start (db0 : DB) (now0 : Z) (reqs : list Z) : State :=
  mkState db0 now0 (map (fun c => mkCaller c AtStart) reqs).

(** The calls on campaign [c]. *)
Definition calls (s : State) (c : Z) : list Caller :=
  filter (fun k => req k =? c) (callers s).

(** The code a call has returned. *)
Definition returned (k : Caller) : list string :=
  match pc k with
  | Done (Ok m) => [Code_ m]
  | _ => []
  end.

(** The codes returned to the calls on [c], in the order of the calls. *)
Definition got (s : State) (c : Z) : list string :=
  flat_map returned (calls s c).

Definition is_done (k : Caller) : bool :=
  match pc k with Done _ => true | _ => false end.

Definition ended_with (e : Code) (k : Caller) : bool :=
  match pc k with
  | Done (Error CodeInternal) =>
      match e with CodeInternal => true | _ => false end
  | Done (Error CodeNotFound) =>
      match e with CodeNotFound => true | _ => false end
  | Done (Error CodeFailedPrecondition) =>
      match e with CodeFailedPrecondition => true | _ => false end
  | Done (Error CodeResourceExhausted) =>
      match e with CodeResourceExhausted => true | _ => false end
  | _ => false
  end.

(** The codes of the coupons of [c] that are Available in the committed
    store. *)
Definition available (d : DB) (c : Z) : list string :=
  map Coupon.Code (candidates (fun _ => false) d c).

(** The code call [k] has returned, when it is a call on [c]. *)
Definition ret (c : Z) (k : Caller) : list string :=
  if req k =? c then returned k else [].

(** A call on a campaign that exists and has started at [now0] stands
    where such a call can stand. *)
Definition pc_ok (now0 : Z) (p : PC) : Prop :=
  match p with
  | Checked campaign => Campaign.StartDate campaign <= now0
  | Done (Error CodeNotFound) | Done (Error CodeFailedPrecondition)
  | Done Panic => False
  | _ => True
  end.

(** Some call on [c] has ended with the error [e]. *)
Definition some_ended (e : Code) (c : Z) (ks : list Caller) : Prop :=
  exists k, In k ks /\ req k = c /\ ended_with e k = true.

(** What every interleaving keeps, for a burst that started at [now0] on
    the store [db0] with the requests [reqs], seen from campaign [c]. *)
Record Inv (db0 : DB) (now0 : Z) (reqs : list Z) (c : Z)
    (d : DB) (clk : Z) (ks : list Caller) : Prop := mkInv {
  inv_reqs : map req ks = reqs;
  inv_camps : campaigns d = campaigns db0;
  inv_clock : now0 <= clk;
  inv_pk : NoDup (map Coupon.Code (coupons d));
  inv_held : NoDup (held ks);
  inv_rows : forall k x, In k ks -> In x (holds k) ->
      exists row, In row (coupons d) /\ Coupon.Code row = x /\
                  Coupon.CampaignID row = req k /\
                  Coupon.Status row = Available;
  inv_perm : Permutation (available d c ++ flat_map (ret c) ks)
                         (available db0 c);
  inv_pcs : forall k, In k ks -> req k = c -> pc_ok now0 (pc k);
  inv_exh : some_ended CodeResourceExhausted c ks ->
            some_ended CodeInternal c ks \/
            (forall x, In x (available d c) -> In x (held ks))
}.
Arguments inv_camps {db0 now0 reqs c d clk ks} _.
Arguments inv_clock {db0 now0 reqs c d clk ks} _.
Arguments inv_pcs {db0 now0 reqs c d clk ks} _ k _ _.

(** A store with one started campaign of two coupons, and a burst of
    three calls on it: the first two reserve a coupon each, the third
    finds both locked. *)
Definition burst_db : DB :=
  mkDB [Campaign.mk 1 2 5 0 0]
       [Coupon.mk "A" 1 Available (Some 3) 3;
        Coupon.mk "B" 1 Available (Some 3) 3] 2.

Definition burst_schedule : list Event :=
  [ Run 0 None; Run 1 None; Run 2 None;
    Run 0 None; Run 1 None; Run 2 None;
    Run 0 None; Run 1 None; Run 2 None;
    Run 0 (Some "B"%string); Run 1 (Some "A"%string); Run 2 None;
    Run 1 None; Tick 4; Run 0 None; Run 0 None; Run 1 None ].

End Burst.

(* ===================================================================== *)
(** ** Counting the coupons of a campaign *)
(* ===================================================================== *)

Module Census.
Import Repo Service StoreView.

(** The coupons of campaign [c]. *)
Definition pool_of (db : DB) (c : Z) : list Coupon.t :=
  filter (fun r => Coupon.CampaignID r =? c) (coupons db).

(** The coupons of campaign [c] in status [st]. *)
Definition in_status (st : Status) (db : DB) (c : Z) : list Coupon.t :=
  filter (fun r => status_eqb (Coupon.Status r) st) (pool_of db c).

(** The constraints of the schema and the size of the pools. *)
Definition well_formed (db : DB) : Prop :=
  1 <= campaigns_id_seq db /\
  NoDup (map Coupon.Code (coupons db)) /\
  NoDup (map Campaign.ID (campaigns db)) /\
  (forall r, In r (coupons db) ->
             exists cmp, In cmp (campaigns db) /\
                         Campaign.ID cmp = Coupon.CampaignID r) /\
  (forall cmp, In cmp (campaigns db) ->
               1 <= Campaign.ID cmp < campaigns_id_seq db /\
               0 <= Campaign.AvailableCoupons cmp /\
               List.length (pool_of db (Campaign.ID cmp))
               = Z.to_nat (Campaign.AvailableCoupons cmp)).

End Census.

Module Outcome.
Import Repo.

(** The result of a statement that the storage accepts or refuses. *)
Definition lift (o : option DB) : Res RepoError DB :=
  match o with
  | Some t => Ok t
  | None => Error ErrStorage
  end.

(** What the constraints of [coupons] ask of rows inserted together into
    [tx]: codes that differ from each other and from the stored ones, at
    most ten characters each, and an existing campaign. *)
Definition accepted (tx : DB) (rows : list Coupon.t) : Prop :=
  NoDup (map Coupon.Code rows) /\
  forall r, In r rows ->
    ~ In (Coupon.Code r) (map Coupon.Code (coupons tx)) /\
    (Utf8.rune_count (Coupon.Code r) <= 10)%nat /\
    exists cmp, In cmp (campaigns tx) /\ Campaign.ID cmp = Coupon.CampaignID r.

(** Codes that differ from each other and from every code stored in
    [db]. *)
Definition fresh (db : DB) (codes : list string) : Prop :=
  NoDup codes /\
  forall code, In code codes -> ~ In code (map Coupon.Code (coupons db)).

End Outcome.

Module Drain.
Import Repo Service.

(** No storage call of the request fails. *)
Definition issue_faultless (env : IssueEnv) : Prop :=
  issue_get_fails env = false /\ issue_begin_fails env = false /\
  issue_reserve_fails env = false /\ issue_exec_fails env = false /\
  issue_rows_affected_fails env = false /\ issue_commit_fails env = false.

(** Calls of [IssueCoupon] on campaign [c], one after the other: the store
    they leave and their answers. *)
Fixpoint issue_all (envs : list IssueEnv) (c : Z) (db : DB)
  : DB * list (Res Code CouponMsg) :=
  match envs with
  | [] => (db, [])
  | env :: rest =>
      let (db1, r) := IssueCoupon env c db in
      let (db2, rs) := issue_all rest c db1 in
      (db2, r :: rs)
  end.

End Drain.

(* ===================================================================== *)
(** * Properties *)
(* ===================================================================== *)

(** ** The block cipher *)

(** FIPS-197, appendix C: the example vectors for the three key sizes. *)
Example aes128_fips197 :
  AES.encrypt_block
    (map Z.of_nat (seq 0 16))
    [0; 17; 34; 51; 68; 85; 102; 119; 136; 153; 170; 187; 204; 221; 238; 255]
  = [105; 196; 224; 216; 106; 123; 4; 48; 216; 205; 183; 128; 112; 180; 197; 90].
Proof. vm_compute. reflexivity. Qed.

Example aes192_fips197 :
  AES.encrypt_block
    (map Z.of_nat (seq 0 24))
    [0; 17; 34; 51; 68; 85; 102; 119; 136; 153; 170; 187; 204; 221; 238; 255]
  = [221; 169; 124; 164; 134; 76; 223; 224; 110; 175; 112; 160; 236; 13; 113; 145].
Proof. vm_compute. reflexivity. Qed.

Example aes256_fips197 :
  AES.encrypt_block
    (map Z.of_nat (seq 0 32))
    [0; 17; 34; 51; 68; 85; 102; 119; 136; 153; 170; 187; 204; 221; 238; 255]
  = [142; 162; 183; 202; 81; 103; 69; 191; 234; 252; 73; 144; 75; 73; 96; 137].
Proof. vm_compute. reflexivity. Qed.
(** ** Go values *)

Section GoLemmas.
Context {E A : Type}.

Lemma index_ok (xs : list A) (i : Z) (d : A) :
  0 <= i < Z.of_nat (List.length xs) ->
  @index E A xs i = Ok (nth (Z.to_nat i) xs d).
Proof.
  intros Hi. unfold index.
  destruct (Z.ltb_spec i 0) as [Hneg | _]; [lia |].
  destruct (nth_error xs (Z.to_nat i)) as [a |] eqn:Hn.
  - f_equal. symmetry. now apply nth_error_nth.
  - apply nth_error_None in Hn. lia.
Qed.

Lemma index_inv (xs : list A) (i : Z) (a : A) :
  @index E A xs i = Ok a -> In a xs.
Proof.
  unfold index. destruct (i <? 0); [discriminate |].
  destruct (nth_error xs (Z.to_nat i)) eqn:Hn; [| discriminate].
  intros H; inversion H; subst. eapply nth_error_In; eauto.
Qed.

End GoLemmas.

(** ** The generator: shape of the key, of the block and of the code *)

Module GenFacts.
Import Wire AES CodeGen Shape Utf8.

Lemma generateCampaignKey_eq {E} (c : Z) :
  @generateCampaignKey E c = Ok (key_of c).
Proof. reflexivity. Qed.

Lemma to_byte_is_byte x : is_byte (Wire.to_byte x).
Proof. unfold is_byte, Wire.to_byte. change (2 ^ 8) with 256. apply Z.mod_pos_bound. lia. Qed.

Lemma is_byte_mod b : is_byte b <-> b mod 2 ^ 8 = b.
Proof.
  unfold is_byte. change (2 ^ 8) with 256. split; intros H.
  - apply Z.mod_small; lia.
  - rewrite <- H. apply Z.mod_pos_bound. lia.
Qed.

Lemma lxor_byte a b : is_byte a -> is_byte b -> is_byte (Z.lxor a b).
Proof.
  rewrite !is_byte_mod. intros Ha Hb.
  apply Z.bits_inj'. intros n Hn.
  rewrite Z.testbit_mod_pow2, Z.lxor_spec by lia.
  rewrite <- Ha, <- Hb at 2.
  rewrite !Z.testbit_mod_pow2 by lia.
  destruct (n <? 8); reflexivity.
Qed.

Lemma sub_byte b : is_byte (sub b).
Proof.
  unfold sub.
  assert (Hall : Forall is_byte sbox).
  { apply Forall_forall. intros x Hx.
    assert (Hb : forallb (fun x => (0 <=? x) && (x <? 256)) sbox = true)
      by (vm_compute; reflexivity).
    rewrite forallb_forall in Hb. specialize (Hb x Hx).
    apply andb_true_iff in Hb. unfold is_byte. lia. }
  destruct (nth_in_or_default (Z.to_nat b) sbox 0) as [Hin | ->].
  - rewrite Forall_forall in Hall. now apply Hall.
  - unfold is_byte. lia.
Qed.

Lemma xtime_byte b : is_byte b -> is_byte (xtime b).
Proof.
  intros Hb. unfold xtime.
  destruct (Z.testbit b 7) eqn:Ht.
  - apply lxor_byte; [apply to_byte_is_byte | unfold is_byte; lia].
  - unfold is_byte in *.
    assert (b < 128); [| lia].
    destruct (Z.ltb_spec b 128) as [|Hge]; [assumption | exfalso].
    assert (Hd : Z.testbit b 7 = true).
    { rewrite Z.testbit_eqb by lia. change (2 ^ 7) with 128.
      assert (H1 : b / 128 = 1)
        by (symmetry; apply Z.div_unique with (r := b - 128); lia).
      rewrite H1. reflexivity. }
    congruence.
Qed.

Lemma rcon_byte j : is_byte (rcon j).
Proof.
  induction j as [| j IH]; [unfold is_byte; simpl; lia |].
  destruct j as [| j']; [unfold is_byte; simpl; lia |].
  change (rcon (S (S j'))) with (xtime (rcon (S j'))).
  now apply xtime_byte.
Qed.

Lemma xor_bytes_length a b :
  List.length (xor_bytes a b) = Nat.min (List.length a) (List.length b).
Proof. unfold xor_bytes. now rewrite length_map, length_combine. Qed.

Lemma xor_bytes_bytes a b : bytes a -> bytes b -> bytes (xor_bytes a b).
Proof.
  unfold bytes, xor_bytes. intros Ha. revert b.
  induction Ha as [| x a Hx Ha IH]; intros b Hb; [constructor |].
  destruct Hb as [| y b Hy Hb]; [constructor |].
  simpl. constructor; [now apply lxor_byte | now apply IH].
Qed.

Lemma xor_word a b : word a -> word b -> word (xor_bytes a b).
Proof.
  intros [La Ba] [Lb Bb]. split.
  - rewrite xor_bytes_length, La, Lb. reflexivity.
  - now apply xor_bytes_bytes.
Qed.

Lemma map_sub_bytes l : bytes (map sub l).
Proof. unfold bytes. apply Forall_forall. intros x Hx.
  apply in_map_iff in Hx. destruct Hx as [y [<- _]]. apply sub_byte. Qed.

Lemma shift_rows_sub_length s : List.length (shift_rows (sub_bytes s)) = 16%nat.
Proof. unfold shift_rows. now rewrite length_map, length_seq. Qed.

Lemma shift_rows_sub_bytes s : bytes (shift_rows (sub_bytes s)).
Proof.
  unfold bytes, shift_rows, sub_bytes, at_. apply Forall_forall. intros x Hx.
  apply in_map_iff in Hx. destruct Hx as [i [<- _]].
  match goal with |- is_byte (nth ?n ?l 0) =>
    destruct (nth_in_or_default n l 0) as [Hin | ->] end.
  - pose proof (map_sub_bytes s) as Hb. unfold bytes in Hb.
    rewrite Forall_forall in Hb. now apply Hb.
  - unfold is_byte; lia.
Qed.

Lemma rot_word_word w : word w -> word (rot_word w).
Proof.
  intros [L B]. destruct w as [| a r]; [discriminate |].
  simpl. split.
  - rewrite length_app. simpl in *. lia.
  - unfold bytes in *. inversion B; subst. apply Forall_app. split; auto.
Qed.

Lemma expand_words Nk n : forall i ws,
  (0 < Nk <= i)%nat -> List.length ws = i -> Forall word ws ->
  Forall word (expand Nk n i ws) /\
  List.length (expand Nk n i ws) = (i + n)%nat.
Proof.
  induction n as [| n IH]; intros i ws Hi Hlen Hws; simpl.
  - split; [assumption | lia].
  - assert (Hnth : forall j, (j < i)%nat -> word (nth j ws [])).
    { intros j Hj. rewrite Forall_forall in Hws. apply Hws.
      apply nth_In. lia. }
    assert (Hprev : word (nth (i - 1) ws [])) by (apply Hnth; lia).
    assert (Hold : word (nth (i - Nk) ws [])) by (apply Hnth; lia).
    match goal with |- context [xor_bytes (nth (i - Nk) ws []) ?t] =>
      set (temp := t) end.
    assert (Htemp : word temp).
    { subst temp. destruct (i mod Nk =? 0)%nat.
      - apply xor_word.
        + destruct (rot_word_word _ Hprev) as [L _]. split.
          * now rewrite length_map.
          * apply map_sub_bytes.
        + split; [reflexivity |].
          assert (Hz : is_byte 0) by (unfold is_byte; lia).
          unfold bytes. repeat apply Forall_cons; auto using rcon_byte.
      - destruct ((6 <? Nk)%nat && (i mod Nk =? 4)%nat).
        + destruct Hprev as [L _]. split.
          * now rewrite length_map.
          * apply map_sub_bytes.
        + assumption. }
    destruct (IH (S i) (ws ++ [xor_bytes (nth (i - Nk) ws []) temp])) as [H1 H2];
      try lia.
    + rewrite length_app. simpl. lia.
    + apply Forall_app. split; [assumption |].
      constructor; [| constructor]. now apply xor_word.
    + split; [exact H1 | lia].
Qed.

Lemma Forall_firstn {A} (P : A -> Prop) n l : Forall P l -> Forall P (firstn n l).
Proof. intros H. rewrite <- (firstn_skipn n l) in H. apply Forall_app in H. tauto. Qed.

Lemma Forall_skipn {A} (P : A -> Prop) n l : Forall P l -> Forall P (skipn n l).
Proof. intros H. rewrite <- (firstn_skipn n l) in H. apply Forall_app in H. tauto. Qed.

Lemma words_words n : forall k,
  List.length k = (4 * n)%nat -> bytes k ->
  Forall word (words k n) /\ List.length (words k n) = n.
Proof.
  induction n as [| n IH]; intros k Hlen Hb; cbn [words].
  - split; [constructor | reflexivity].
  - destruct (IH (skipn 4 k)) as [H1 H2].
    + rewrite length_skipn. lia.
    + now apply Forall_skipn.
    + split; [| cbn [List.length]; now rewrite H2].
      constructor; [| assumption]. split.
      * rewrite length_firstn. lia.
      * now apply Forall_firstn.
Qed.

Lemma round_key_block ks r :
  Forall word ks -> (4 * r + 4 <= List.length ks)%nat ->
  List.length (round_key ks r) = 16%nat /\ bytes (round_key ks r).
Proof.
  intros Hks Hlen. unfold round_key.
  assert (Hw : Forall word (firstn 4 (skipn (4 * r) ks))).
  { now apply Forall_firstn, Forall_skipn. }
  assert (Hl : List.length (firstn 4 (skipn (4 * r) ks)) = 4%nat).
  { rewrite length_firstn, length_skipn. lia. }
  destruct (firstn 4 (skipn (4 * r) ks)) as [| w0 [| w1 [| w2 [| w3 [| ? ?]]]]];
    try discriminate.
  inversion Hw as [| ? ? [L0 B0] Hw1]; subst.
  inversion Hw1 as [| ? ? [L1 B1] Hw2]; subst.
  inversion Hw2 as [| ? ? [L2 B2] Hw3]; subst.
  inversion Hw3 as [| ? ? [L3 B3] _]; subst.
  simpl. rewrite app_nil_r. split.
  - rewrite !length_app. lia.
  - unfold bytes in *. repeat (apply Forall_app; split); assumption.
Qed.

(** With a 16-byte key the block is 16 bytes. *)
Lemma encrypt_block_16 key src :
  List.length key = 16%nat -> bytes key ->
  List.length (encrypt_block key src) = 16%nat /\ bytes (encrypt_block key src).
Proof.
  intros Hlen Hb. unfold encrypt_block, key_schedule. rewrite Hlen.
  change (16 / 4)%nat with 4%nat.
  destruct (words_words 4 key) as [W1 W2]; [now rewrite Hlen | assumption |].
  destruct (expand_words 4 (4 * (4 + 7) - 4) 4 (words key 4)) as [E1 E2];
    [lia | assumption | assumption |].
  set (ks := expand 4 (4 * (4 + 7) - 4) 4 (words key 4)) in *.
  destruct (round_key_block ks (4 + 6)) as [R1 R2]; [assumption | lia |].
  split.
  - rewrite xor_bytes_length, shift_rows_sub_length, R1. reflexivity.
  - apply xor_bytes_bytes; [apply shift_rows_sub_bytes | assumption].
Qed.


Lemma cipher_of_eq c i :
  cipher_of c i =
  AES.encrypt_block (key_of c) (repeat 0 8 ++ PutUint64 (createUniqueSequence c i)).
Proof. reflexivity. Qed.

Lemma key_of_block c : List.length (key_of c) = 16%nat /\ bytes (key_of c).
Proof.
  split; [unfold key_of; rewrite !length_map; reflexivity |].
  unfold bytes, key_of. apply Forall_forall. intros x Hx.
  apply in_map_iff in Hx. destruct Hx as [j [<- _]]. apply to_byte_is_byte.
Qed.

Lemma new_cipher_key c :
  AES.NewCipher (key_of c) = Some (AES.encrypt_block (key_of c)).
Proof.
  unfold AES.NewCipher. cbv zeta. rewrite (proj1 (key_of_block c)). reflexivity.
Qed.

Lemma mod_index (x m : Z) : 0 < m -> 0 <= x mod m < m.
Proof. intros. now apply Z.mod_pos_bound. Qed.

Lemma index_pool (v : Z) :
  @index GenError Z pool (v mod base) = Ok (nth (Z.to_nat (v mod 38)) pool 0).
Proof. apply index_ok. change base with 38. change (Z.of_nat (List.length pool)) with 38.
  apply mod_index. lia. Qed.

Lemma index_digits (b : Z) :
  @index GenError Z digits (b mod 10) = Ok (nth (Z.to_nat (b mod 10)) digits 0).
Proof. apply index_ok. change (Z.of_nat (List.length digits)) with 10.
  apply mod_index. lia. Qed.

Lemma index_hanguls (b : Z) :
  @index GenError Z hanguls (b mod 28) = Ok (nth (Z.to_nat (b mod 28)) hanguls 0).
Proof. apply index_ok. change (Z.of_nat (List.length hanguls)) with 28.
  apply mod_index. lia. Qed.

(** Every call returns a code: the encoding of the ten runes read off the
    output block, which has 16 bytes. *)
Lemma generateSecureCoupon_runes c i :
  exists out,
    out = cipher_of c i /\ List.length out = 16%nat /\ bytes out /\
    generateSecureCoupon c i = Ok (Utf8.of_runes (runes_from out)).
Proof.
  exists (cipher_of c i). rewrite cipher_of_eq.
  unfold generateSecureCoupon. rewrite generateCampaignKey_eq.
  cbn [bind]. fold (key_of c). rewrite new_cipher_key.
  match goal with
  | |- context [AES.encrypt_block (key_of c) ?p] =>
      destruct (encrypt_block_16 (key_of c) p (proj1 (key_of_block c))
                  (proj2 (key_of_block c))) as [Hlen Hb];
      revert Hlen Hb; generalize (AES.encrypt_block (key_of c) p)
  end.
  intros out Hlen Hb.
  split; [reflexivity |]. split; [exact Hlen |]. split; [exact Hb |].
  clear Hb. unfold runes_from.
  destruct out as [| b0 rest]; [discriminate Hlen |].
  destruct rest as [| b1 rest]; [discriminate Hlen |].
  change (@index GenError Z (b0 :: b1 :: rest) 0) with (@Ok GenError Z b0).
  change (@index GenError Z (b0 :: b1 :: rest) 1) with (@Ok GenError Z b1).
  cbn [bind nth].
  rewrite index_digits. cbn [bind].
  change (to_byte (Z.of_nat (List.length hanguls))) with 28.
  rewrite index_hanguls. cbn [bind].
  set (v := Uint64 (skipn 8 (b0 :: b1 :: rest))). clearbody v.
  match goal with |- context [for_down 8 7 ?f _] => set (F := f) end.
  assert (HF : forall k body w, 0 <= k < Z.of_nat (List.length body) ->
            F k (body, w) =
            Ok (firstn (Z.to_nat k) body
                  ++ nth (Z.to_nat (w mod 38)) pool 0
                  :: skipn (S (Z.to_nat k)) body, w / 38)).
  { intros k body w Hk. subst F. cbv beta iota. rewrite index_pool.
    cbn [bind]. unfold store.
    destruct (Z.ltb_spec k 0); [lia |].
    destruct (Z.leb_spec (Z.of_nat (List.length body)) k); [lia |].
    reflexivity. }
  clearbody F.
  cbn [for_down repeat].
  do 8 (rewrite HF by (simpl; lia); cbn [bind];
        match goal with
        | |- context [firstn ?a ?l ++ ?x :: skipn ?b ?l] =>
            let r := fresh "r" in
            set (r := x);
            let l' := eval simpl in (firstn a l ++ r :: skipn b l) in
            change (firstn a l ++ r :: skipn b l) with l'
        end).
  cbn [fst app]. reflexivity.
Qed.


Lemma testbit_to_byte x n :
  0 <= n -> Z.testbit (to_byte x) n = (n <? 8) && Z.testbit x n.
Proof. intros Hn. unfold to_byte. rewrite Z.testbit_mod_pow2 by lia. reflexivity. Qed.

Lemma testbit_wrap64 x n :
  0 <= n -> Z.testbit (wrap64 x) n = (n <? 64) && Z.testbit x n.
Proof. intros Hn. unfold wrap64. rewrite Z.testbit_mod_pow2 by lia. reflexivity. Qed.

(** Bit [n] of a key byte is bit [n + s] of the identifier, flipped by the
    constant. *)
Lemma testbit_key_byte c i n :
  0 <= n < 8 -> 0 <= i ->
  Z.testbit (key_byte c i) n
  = xorb (Z.testbit c (n + i mod 8)) (Z.testbit (i * 7) n).
Proof.
  intros Hn Hi. unfold key_byte, campaignIDToSequence.
  assert (0 <= i mod 8 < 8) by (apply Z.mod_pos_bound; lia).
  rewrite testbit_to_byte, Z.lxor_spec, Z.shiftr_spec, testbit_wrap64 by lia.
  destruct (Z.ltb_spec n 8); [| lia].
  destruct (Z.ltb_spec (n + i mod 8) 64); [| lia].
  reflexivity.
Qed.

Lemma key_byte_high c i n : 8 <= n -> Z.testbit (key_byte c i) n = false.
Proof.
  intros Hn. unfold key_byte. rewrite testbit_to_byte by lia.
  destruct (Z.ltb_spec n 8); [lia | reflexivity].
Qed.

Lemma low15_bits c1 c2 :
  c1 mod 2 ^ 15 = c2 mod 2 ^ 15 <->
  (forall n, 0 <= n < 15 -> Z.testbit c1 n = Z.testbit c2 n).
Proof.
  split.
  - intros H n Hn.
    rewrite <- (Z.mod_pow2_bits_low c1 15 n), <- (Z.mod_pow2_bits_low c2 15 n) by lia.
    now rewrite H.
  - intros H. apply Z.bits_inj'. intros n Hn.
    rewrite !Z.testbit_mod_pow2 by lia.
    destruct (Z.ltb_spec n 15); [| reflexivity].
    simpl. apply H. lia.
Qed.

Lemma key_of_eq_iff c1 c2 :
  key_of c1 = key_of c2 <-> c1 mod 2 ^ 15 = c2 mod 2 ^ 15.
Proof.
  rewrite low15_bits. split.
  - intros H n Hn.
    assert (H0 : key_byte c1 0 = key_byte c2 0)
      by exact (f_equal (fun l => nth 0 l 0) H).
    assert (H7 : key_byte c1 7 = key_byte c2 7)
      by exact (f_equal (fun l => nth 7 l 0) H).
    destruct (Z.ltb_spec n 8) as [Hlt | Hge].
    + pose proof (testbit_key_byte c1 0 n ltac:(lia) ltac:(lia)) as E1.
      pose proof (testbit_key_byte c2 0 n ltac:(lia) ltac:(lia)) as E2.
      rewrite H0, E2 in E1. change (0 mod 8) with 0 in E1.
      rewrite !Z.add_0_r in E1.
      change (0 * 7) with 0 in E1. rewrite Z.testbit_0_l in E1.
      rewrite !xorb_false_r in E1. congruence.
    + pose proof (testbit_key_byte c1 7 (n - 7) ltac:(lia) ltac:(lia)) as E1.
      pose proof (testbit_key_byte c2 7 (n - 7) ltac:(lia) ltac:(lia)) as E2.
      rewrite H7, E2 in E1. change (7 mod 8) with 7 in E1.
      replace (n - 7 + 7) with n in E1 by lia.
      destruct (Z.testbit c1 n), (Z.testbit c2 n), (Z.testbit (7 * 7) (n - 7));
        simpl in E1; congruence.
  - intros H. unfold key_of. apply map_ext_in. intros i Hi.
    apply in_map_iff in Hi. destruct Hi as [j [<- Hj]]. apply in_seq in Hj.
    apply Z.bits_inj'. intros n Hn.
    destruct (Z.ltb_spec n 8) as [Hlt | Hge].
    + rewrite !testbit_key_byte by lia. f_equal. apply H.
      assert (0 <= Z.of_nat j mod 8 < 8) by (apply Z.mod_pos_bound; lia). lia.
    + now rewrite !key_byte_high by lia.
Qed.


Lemma to_bytes_of_bytes bs : bytes bs -> to_bytes (of_bytes bs) = bs.
Proof.
  induction 1 as [| b bs Hb _ IH]; [reflexivity |].
  cbn [of_bytes to_bytes]. rewrite IH. f_equal.
  rewrite N_ascii_embedding.
  - apply Z2N.id. unfold is_byte in Hb. lia.
  - unfold is_byte in Hb. apply (Z2N.inj_lt b 256); lia.
Qed.

Lemma pool_one_symbol : forallb one_symbol CodeGen.pool = true.
Proof. vm_compute. reflexivity. Qed.

Lemma rune_count_pool rs :
  Forall (fun r => In r CodeGen.pool) rs ->
  Utf8.rune_count (Utf8.of_runes rs) = List.length rs.
Proof.
  intros Hrs. unfold rune_count, of_runes. fold leading.
  assert (Hb : bytes (flat_map encode_rune rs) /\
               List.length (filter leading (flat_map encode_rune rs))
               = List.length rs).
  { induction Hrs as [| r rs Hr _ [IH1 IH2]]; [split; [constructor | reflexivity] |].
    pose proof pool_one_symbol as Hp. rewrite forallb_forall in Hp.
    specialize (Hp r Hr). unfold one_symbol in Hp.
    apply andb_true_iff in Hp. destruct Hp as [H1 H2].
    apply Nat.eqb_eq in H1. rewrite forallb_forall in H2.
    cbn [flat_map]. split.
    - unfold bytes. apply Forall_app. split; [| exact IH1].
      apply Forall_forall. intros b Hin. specialize (H2 b Hin).
      apply andb_true_iff in H2. unfold is_byte. lia.
    - rewrite filter_app, length_app, H1, IH2. reflexivity. }
  destruct Hb as [Hb1 Hb2]. now rewrite to_bytes_of_bytes.
Qed.


Lemma nth_mod_in (l : list Z) (x : Z) :
  l <> [] -> In (nth (Z.to_nat (x mod Z.of_nat (List.length l))) l 0) l.
Proof.
  intros Hl. apply nth_In.
  assert (0 < Z.of_nat (List.length l)) by (destruct l; [congruence | simpl; lia]).
  pose proof (Z.mod_pos_bound x (Z.of_nat (List.length l)) H). lia.
Qed.

Lemma runes_from_format out :
  exists d s body,
    runes_from out = d :: s :: body /\
    In d digits /\ In s hanguls /\ List.length body = 8%nat /\
    Forall (fun r => In r pool) body.
Proof.
  unfold runes_from. cbv zeta.
  do 3 eexists. split; [reflexivity |].
  split; [exact (nth_mod_in digits _ ltac:(discriminate)) |].
  split; [exact (nth_mod_in hanguls _ ltac:(discriminate)) |].
  split; [reflexivity |].
  repeat (apply Forall_cons; [exact (nth_mod_in pool _ ltac:(discriminate)) |]).
  constructor.
Qed.


Lemma lor_add_disjoint a B k :
  0 <= k -> 0 <= a < 2 ^ k -> Z.lor a (B * 2 ^ k) = a + B * 2 ^ k.
Proof.
  intros Hk Ha.
  assert (Hl : Z.land a (B * 2 ^ k) = 0).
  { apply Z.bits_inj'. intros n Hn. rewrite Z.land_spec, Z.bits_0.
    destruct (Z.ltb_spec n k).
    - rewrite Z.mul_pow2_bits_low by lia. apply andb_false_r.
    - rewrite <- (Z.mod_small a (2 ^ k)) by lia.
      rewrite Z.mod_pow2_bits_high by lia. reflexivity. }
  rewrite Z.add_nocarry_lxor by exact Hl. symmetry. now apply Z.lxor_lor.
Qed.

(** [binary.BigEndian.Uint64] on eight bytes is their big-endian value. *)
Lemma Uint64_be b0 b1 b2 b3 b4 b5 b6 b7 :
  bytes [b0; b1; b2; b3; b4; b5; b6; b7] ->
  Uint64 [b0; b1; b2; b3; b4; b5; b6; b7]
  = GenerateSpec.be_value [b0; b1; b2; b3; b4; b5; b6; b7].
Proof.
  intros Hb. unfold bytes in Hb.
  repeat match goal with
         | H : Forall _ (_ :: _) |- _ => inversion H; subst; clear H
         end.
  unfold is_byte in *.
  unfold Uint64, GenerateSpec.be_value. cbn [nth fold_left].
  rewrite !Z.shiftl_mul_pow2 by lia.
  rewrite (lor_add_disjoint (b1 * 2 ^ 48) b0 56) by lia.
  replace (b1 * 2 ^ 48 + b0 * 2 ^ 56) with ((b1 + b0 * 2 ^ 8) * 2 ^ 48) by lia.
  rewrite (lor_add_disjoint (b2 * 2 ^ 40) _ 48) by lia.
  replace (b2 * 2 ^ 40 + (b1 + b0 * 2 ^ 8) * 2 ^ 48)
    with ((b2 + (b1 + b0 * 2 ^ 8) * 2 ^ 8) * 2 ^ 40) by lia.
  rewrite (lor_add_disjoint (b3 * 2 ^ 32) _ 40) by lia.
  replace (b3 * 2 ^ 32 + (b2 + (b1 + b0 * 2 ^ 8) * 2 ^ 8) * 2 ^ 40)
    with ((b3 + (b2 + (b1 + b0 * 2 ^ 8) * 2 ^ 8) * 2 ^ 8) * 2 ^ 32) by lia.
  rewrite (lor_add_disjoint (b4 * 2 ^ 24) _ 32) by lia.
  replace (b4 * 2 ^ 24 + (b3 + (b2 + (b1 + b0 * 2 ^ 8) * 2 ^ 8) * 2 ^ 8) * 2 ^ 32)
    with ((b4 + (b3 + (b2 + (b1 + b0 * 2 ^ 8) * 2 ^ 8) * 2 ^ 8) * 2 ^ 8) * 2 ^ 24)
    by lia.
  rewrite (lor_add_disjoint (b5 * 2 ^ 16) _ 24) by lia.
  replace (b5 * 2 ^ 16
           + (b4 + (b3 + (b2 + (b1 + b0 * 2 ^ 8) * 2 ^ 8) * 2 ^ 8) * 2 ^ 8) * 2 ^ 24)
    with ((b5 + (b4 + (b3 + (b2 + (b1 + b0 * 2 ^ 8) * 2 ^ 8) * 2 ^ 8) * 2 ^ 8)
                * 2 ^ 8) * 2 ^ 16) by lia.
  rewrite (lor_add_disjoint (b6 * 2 ^ 8) _ 16) by lia.
  replace (b6 * 2 ^ 8
           + (b5 + (b4 + (b3 + (b2 + (b1 + b0 * 2 ^ 8) * 2 ^ 8) * 2 ^ 8) * 2 ^ 8)
                   * 2 ^ 8) * 2 ^ 16)
    with ((b6 + (b5 + (b4 + (b3 + (b2 + (b1 + b0 * 2 ^ 8) * 2 ^ 8) * 2 ^ 8)
                         * 2 ^ 8) * 2 ^ 8) * 2 ^ 8) * 2 ^ 8) by lia.
  rewrite (lor_add_disjoint b7 _ 8) by lia.
  lia.
Qed.


Lemma block_value c i :
  0 <= i < 2 ^ 64 ->
  GenerateSpec.block c i = createUniqueSequence c i /\
  0 <= createUniqueSequence c i < 2 ^ 64.
Proof.
  intros Hi.
  assert (E : GenerateSpec.block c i = createUniqueSequence c i).
  { unfold GenerateSpec.block, createUniqueSequence, campaignIDToSequence, wrap64.
    rewrite Z.shiftl_mul_pow2 by lia. cbn [Z.mul Z.add].
    apply Z.bits_inj'. intros n Hn.
    rewrite Z.testbit_mod_pow2, !Z.lor_spec, Z.testbit_mod_pow2 by lia.
    destruct (Z.ltb_spec n 64) as [Hlt | Hge]; [reflexivity |].
    rewrite <- (Z.mod_small i (2 ^ 64)) by lia.
    rewrite Z.mod_pow2_bits_high by lia. reflexivity. }
  split; [exact E |]. rewrite <- E. unfold GenerateSpec.block.
  cbn [Z.mul Z.add]. apply Z.mod_pos_bound. lia.
Qed.

Lemma be_bytes_block x :
  0 <= x < 2 ^ 64 -> GenerateSpec.be_bytes 16 x = repeat 0 8 ++ PutUint64 x.
Proof.
  intros Hx. unfold GenerateSpec.be_bytes, PutUint64, to_byte.
  cbn [seq map repeat app].
  rewrite !Z.shiftr_div_pow2 by lia.
  repeat match goal with
         | |- context [Z.of_nat 16 - 1 - Z.of_nat ?m] =>
             let k := eval vm_compute in (Z.of_nat 16 - 1 - Z.of_nat m) in
             change (Z.of_nat 16 - 1 - Z.of_nat m) with k
         end.
  rewrite (Z.div_small x (256 ^ 15)), (Z.div_small x (256 ^ 14)),
    (Z.div_small x (256 ^ 13)), (Z.div_small x (256 ^ 12)),
    (Z.div_small x (256 ^ 11)), (Z.div_small x (256 ^ 10)),
    (Z.div_small x (256 ^ 9)), (Z.div_small x (256 ^ 8)) by lia.
  change (0 mod 256) with 0.
  change (256 ^ 7) with (2 ^ 56). change (256 ^ 6) with (2 ^ 48).
  change (256 ^ 5) with (2 ^ 40). change (256 ^ 4) with (2 ^ 32).
  change (256 ^ 3) with (2 ^ 24). change (256 ^ 2) with (2 ^ 16).
  change (256 ^ 1) with (2 ^ 8). change (256 ^ 0) with 1.
  change (2 ^ 8) with 256 at 8. rewrite Z.div_1_r. reflexivity.
Qed.

(** On a 16-byte block the algorithm of the specification reads the same
    runes as the code. *)
Lemma generate_runes_from (permute : list Z -> list Z) c i out :
  0 <= i < 2 ^ 64 ->
  out = permute (repeat 0 8 ++ PutUint64 (createUniqueSequence c i)) ->
  List.length out = 16%nat -> bytes out ->
  GenerateSpec.generate permute c i = runes_from out.
Proof.
  intros Hi Hout Hlen Hb.
  destruct (block_value c i Hi) as [Eb Hr].
  unfold GenerateSpec.generate. rewrite Eb, (be_bytes_block _ Hr), <- Hout.
  clear Hout Eb Hr.
  do 16 (destruct out as [| ? out]; [discriminate Hlen |]).
  destruct out; [| discriminate Hlen].
  unfold runes_from. cbn [skipn firstn nth app].
  rewrite Uint64_be.
  2:{ unfold bytes in *.
      do 8 (inversion Hb as [| ? ? _ Hb']; subst; clear Hb; rename Hb' into Hb).
      exact Hb. }
  set (v := GenerateSpec.be_value _). clearbody v.
  unfold GenerateSpec.body. cbn [seq map].
  rewrite !Z.div_div by lia.
  repeat match goal with
         | |- context [38 ^ (7 - Z.of_nat ?m)] =>
             let k := eval vm_compute in (38 ^ (7 - Z.of_nat m)) in
             change (38 ^ (7 - Z.of_nat m)) with k
         end.
  rewrite Z.div_1_r. reflexivity.
Qed.


End GenFacts.

(** ** The store: what the statements write *)

Module StoreFacts.
Import Repo Service StoreView.

Lemma for_up_ok_inv {E S} (P : nat -> S -> Prop) (body : Z -> S -> Res E S) :
  forall n k s s',
    (forall j t t', (k <= j < k + n)%nat -> P j t ->
                    body (Z.of_nat j) t = Ok t' -> P (Datatypes.S j) t') ->
    P k s -> for_up n (Z.of_nat k) body s = Ok s' -> P (k + n)%nat s'.
Proof.
  induction n as [| n IH]; intros k s s' Hbody Hs Hrun; cbn [for_up] in Hrun.
  - inversion Hrun; subst. now rewrite Nat.add_0_r.
  - destruct (body (Z.of_nat k) s) as [t | e |] eqn:Hb; cbn [bind] in Hrun;
      try discriminate.
    replace (Z.of_nat k + 1) with (Z.of_nat (Datatypes.S k)) in Hrun by lia.
    replace (k + Datatypes.S n)%nat with (Datatypes.S k + n)%nat by lia.
    apply (IH (Datatypes.S k) t s'); [| | exact Hrun].
    + intros j u u' Hj. apply Hbody. lia.
    + apply (Hbody k s t); [lia | exact Hs | exact Hb].
Qed.

(** The rows with the least [created_at]. *)
Lemma least_in rows r :
  In r (least rows) <->
  In r rows /\ forall r', In r' rows -> Coupon.CreatedAt r <= Coupon.CreatedAt r'.
Proof.
  unfold least. rewrite filter_In, forallb_forall. split.
  - intros [H1 H2]. split; [exact H1 |]. intros r' Hr'.
    apply Z.leb_le. now apply H2.
  - intros [H1 H2]. split; [exact H1 |]. intros r' Hr'.
    apply Z.leb_le. now apply H2.
Qed.

Lemma least_exists (rows : list Coupon.t) :
  rows <> [] ->
  exists m, In m rows /\
            forall r, In r rows -> Coupon.CreatedAt m <= Coupon.CreatedAt r.
Proof.
  induction rows as [| x l IH]; intros Hne; [congruence |].
  destruct l as [| y l].
  - exists x. split; [now left |]. intros r [<- | []]. lia.
  - destruct IH as [m [Hm Hmin]]; [discriminate |].
    destruct (Z.le_gt_cases (Coupon.CreatedAt x) (Coupon.CreatedAt m)).
    + exists x. split; [now left |]. intros r [<- | Hr]; [lia |].
      specialize (Hmin r Hr). lia.
    + exists m. split; [now right |]. intros r [<- | Hr]; [lia |].
      now apply Hmin.
Qed.

Lemma least_nil rows : least rows = [] <-> rows = [].
Proof.
  split; [| now intros ->].
  intros H. destruct rows as [| x l]; [reflexivity |].
  destruct (least_exists (x :: l)) as [m Hm]; [discriminate |].
  apply least_in in Hm. rewrite H in Hm. contradiction.
Qed.

(** The reservation returns a row with the least [created_at], and finds
    none only when there is no row. *)
Lemma oldest_spec tie rows m :
  oldest tie rows = Some m ->
  In m rows /\
  forall r, In r rows -> Coupon.CreatedAt m <= Coupon.CreatedAt r.
Proof.
  unfold oldest. intros H. apply nth_error_In in H. now apply least_in.
Qed.

Lemma oldest_none tie rows : oldest tie rows = None <-> rows = [].
Proof.
  unfold oldest. split.
  - intros H. apply nth_error_None in H.
    destruct (least rows) as [| x l] eqn:E; [now apply least_nil |].
    pose proof (Nat.mod_upper_bound tie (List.length (x :: l))) as B.
    cbn [List.length] in *. lia.
  - intros ->. cbn [least filter List.length]. now destruct (tie mod 0)%nat.
Qed.

(** Every row with the least [created_at] is one the reservation may
    return. *)
Lemma oldest_any rows r :
  In r (least rows) -> exists tie, oldest tie rows = Some r.
Proof.
  intros H. apply In_nth_error in H. destruct H as [n Hn].
  exists n. unfold oldest. rewrite Nat.mod_small; [exact Hn |].
  apply nth_error_Some. congruence.
Qed.

(** A code of at most ten characters is stored as it is. *)
Lemma stored_short r :
  (Utf8.rune_count (Coupon.Code r) <= 10)%nat -> stored r = Some r.
Proof.
  intros H. unfold stored, varchar10. apply Nat.leb_le in H. rewrite H.
  now destruct r.
Qed.

Lemma stored_fields r r' :
  stored r = Some r' ->
  Coupon.CampaignID r' = Coupon.CampaignID r /\
  Coupon.Status r' = Coupon.Status r /\
  Coupon.IssuedAt r' = Coupon.IssuedAt r /\
  Coupon.CreatedAt r' = Coupon.CreatedAt r.
Proof.
  unfold stored. destruct (varchar10 (Coupon.Code r)); [| discriminate].
  intros H. inversion H; subst. cbn. auto.
Qed.

(** An [INSERT] appends the stored rows and touches nothing else. *)
Lemma insert_rows_stored tx rows tx' :
  insert_rows tx rows = Some tx' ->
  campaigns tx' = campaigns tx /\
  campaigns_id_seq tx' = campaigns_id_seq tx /\
  exists rows', Forall2 (fun r r' => stored r = Some r') rows rows' /\
                coupons tx' = coupons tx ++ rows'.
Proof.
  revert tx. induction rows as [| r rows IH]; intros tx H; cbn [insert_rows] in H.
  - inversion H; subst. repeat split. exists []. split; [constructor |].
    now rewrite app_nil_r.
  - destruct (stored r) as [r' |] eqn:Hs; [| discriminate].
    destruct (row_accepted tx r'); [| discriminate].
    apply IH in H. cbn [campaigns coupons campaigns_id_seq] in H.
    destruct H as [H1 [H2 [rows' [H3 H4]]]]. repeat split; try assumption.
    exists (r' :: rows'). split; [now constructor |].
    now rewrite H4, <- app_assoc.
Qed.

Lemma stored_all_short rows rows' :
  Forall2 (fun r r' => stored r = Some r') rows rows' ->
  Forall (fun r => (Utf8.rune_count (Coupon.Code r) <= 10)%nat) rows ->
  rows' = rows.
Proof.
  induction 1 as [| r r' rows rows' Hs _ IH]; intros Hf; [reflexivity |].
  inversion Hf; subst. rewrite stored_short in Hs by assumption.
  inversion Hs; subst. f_equal. now apply IH.
Qed.

Lemma insert_rows_app tx rows tx' :
  Forall (fun r => (Utf8.rune_count (Coupon.Code r) <= 10)%nat) rows ->
  insert_rows tx rows = Some tx' ->
  campaigns tx' = campaigns tx /\ coupons tx' = coupons tx ++ rows /\
  campaigns_id_seq tx' = campaigns_id_seq tx.
Proof.
  intros Hf H. apply insert_rows_stored in H.
  destruct H as [H1 [H2 [rows' [H3 H4]]]].
  rewrite (stored_all_short _ _ H3 Hf) in H4. auto.
Qed.

Lemma new_rows_short cid tx_now createdAt codes :
  Forall (fun code => (Utf8.rune_count code <= 10)%nat) codes ->
  Forall (fun r => (Utf8.rune_count (Coupon.Code r) <= 10)%nat)
         (map (new_row cid tx_now createdAt) codes).
Proof.
  intros H. apply Forall_map. exact H.
Qed.

Lemma insertCouponBatch_inserted fails tx_now tx cid codes createdAt tx' :
  insertCouponBatch fails tx_now tx cid codes createdAt = Ok tx' ->
  insert_rows tx (map (new_row cid tx_now createdAt) codes) = Some tx'.
Proof.
  unfold insertCouponBatch. intros H.
  destruct codes as [| c codes].
  - cbn in H. inversion H; subst. reflexivity.
  - cbn [List.length Nat.eqb] in H. destruct fails; [discriminate |].
    destruct (max_parameters <? Z.of_nat (Datatypes.S (List.length codes)) * 4);
      [discriminate |].
    fold (new_row cid tx_now createdAt) in H.
    destruct (insert_rows tx (map (new_row cid tx_now createdAt) (c :: codes)))
      as [tx1 |]; [| discriminate].
    now inversion H.
Qed.

Lemma insertCouponBatch_frame fails tx_now tx cid codes createdAt tx' :
  insertCouponBatch fails tx_now tx cid codes createdAt = Ok tx' ->
  campaigns tx' = campaigns tx /\
  campaigns_id_seq tx' = campaigns_id_seq tx.
Proof.
  intros H. apply insertCouponBatch_inserted, insert_rows_stored in H. tauto.
Qed.

Lemma insertCouponBatch_app fails tx_now tx cid codes createdAt tx' :
  Forall (fun code => (Utf8.rune_count code <= 10)%nat) codes ->
  insertCouponBatch fails tx_now tx cid codes createdAt = Ok tx' ->
  campaigns tx' = campaigns tx /\
  coupons tx' = coupons tx ++ map (new_row cid tx_now createdAt) codes /\
  campaigns_id_seq tx' = campaigns_id_seq tx.
Proof.
  intros Hf H. apply insertCouponBatch_inserted in H.
  apply insert_rows_app in H; [exact H | now apply new_rows_short].
Qed.

(** The batch of index [k] is the next [batchSize] codes. *)
Lemma batch_slice (codes : list string) (k : nat) :
  let len := List.length codes in
  let i := (k * batchSize)%nat in
  let end_ := if (len <? i + batchSize)%nat then len else (i + batchSize)%nat in
  firstn (end_ - i) (skipn i codes) = firstn batchSize (skipn i codes).
Proof.
  cbv zeta. destruct (Nat.ltb_spec (List.length codes) (k * batchSize + batchSize)).
  - rewrite !firstn_all2; try reflexivity; rewrite length_skipn; lia.
  - f_equal. lia.
Qed.

Lemma firstn_add {A} (l : list A) a b :
  firstn (a + b) l = firstn a l ++ firstn b (skipn a l).
Proof.
  revert l. induction a as [| a IH]; intros l; [reflexivity |].
  destruct l as [| x l]; [now rewrite !firstn_nil |].
  cbn [Nat.add firstn skipn app]. now rewrite IH.
Qed.

Lemma insertCouponBatch_fault tx_now tx cid codes createdAt tx' :
  insertCouponBatch true tx_now tx cid codes createdAt = Ok tx' -> codes = [].
Proof.
  unfold insertCouponBatch. destruct codes; [reflexivity | cbn; discriminate].
Qed.

Lemma ceil_batches len :
  (len <= (len + batchSize - 1) / batchSize * batchSize)%nat.
Proof.
  unfold batchSize.
  pose proof (Nat.div_mod_eq (len + 1000 - 1) 1000).
  pose proof (Nat.mod_upper_bound (len + 1000 - 1) 1000). lia.
Qed.

(** A call that returns nil met no failing batch, and left the campaigns
    and the sequence as they were. *)
Lemma CreatePregeneratedCoupons_frame fails now tx_now tx cid codes tx' :
  CreatePregeneratedCoupons fails now tx_now tx cid codes = Ok tx' ->
  campaigns tx' = campaigns tx /\
  campaigns_id_seq tx' = campaigns_id_seq tx /\
  forall k, (k < (List.length codes + batchSize - 1) / batchSize)%nat ->
            fails k = false.
Proof.
  unfold CreatePregeneratedCoupons. intros H.
  set (n := ((List.length codes + batchSize - 1) / batchSize)%nat) in *.
  pose (P := fun (k : nat) (t : DB) =>
    campaigns t = campaigns tx /\
    campaigns_id_seq t = campaigns_id_seq tx /\
    forall j, (j < k)%nat -> fails j = false).
  assert (HP : P (0 + n)%nat tx').
  { change 0 with (Z.of_nat 0) in H.
    refine (for_up_ok_inv P _ n 0%nat tx tx' _ _ H).
    - intros j t t' Hj [P1 [P3 P4]] Hb.
      replace (Z.to_nat (Z.of_nat j)) with j in Hb by lia.
      rewrite batch_slice in Hb.
      assert (Hf : fails j = false).
      { destruct (fails j) eqn:Fj; [| reflexivity].
        apply insertCouponBatch_fault in Hb.
        apply (f_equal (@List.length string)) in Hb.
        rewrite length_firstn, length_skipn in Hb. cbn [List.length] in Hb.
        subst n. unfold batchSize in *.
        pose proof (Nat.div_mod_eq (List.length codes + 1000 - 1) 1000).
        pose proof (Nat.mod_upper_bound (List.length codes + 1000 - 1) 1000).
        lia. }
      apply insertCouponBatch_frame in Hb. destruct Hb as [B1 B3].
      unfold P. split; [congruence |]. split; [congruence |].
      intros i Hi. destruct (Nat.eq_dec i j) as [-> | Hne];
        [exact Hf | apply P4; lia].
    - unfold P. repeat split; try reflexivity. intros j Hj. lia. }
  destruct HP as [H1 [H3 H4]]. repeat split; assumption.
Qed.

Lemma CreatePregeneratedCoupons_app fails now tx_now tx cid codes tx' :
  Forall (fun code => (Utf8.rune_count code <= 10)%nat) codes ->
  CreatePregeneratedCoupons fails now tx_now tx cid codes = Ok tx' ->
  campaigns tx' = campaigns tx /\
  coupons tx' = coupons tx ++ map (new_row cid tx_now now) codes /\
  campaigns_id_seq tx' = campaigns_id_seq tx /\
  forall k, (k < (List.length codes + batchSize - 1) / batchSize)%nat ->
            fails k = false.
Proof.
  intros Hshort H.
  destruct (CreatePregeneratedCoupons_frame _ _ _ _ _ _ _ H) as [F1 [F2 F3]].
  split; [exact F1 |]. split; [| split; [exact F2 | exact F3]].
  unfold CreatePregeneratedCoupons in H.
  set (n := ((List.length codes + batchSize - 1) / batchSize)%nat) in *.
  pose (P := fun (k : nat) (t : DB) =>
    coupons t = coupons tx
                ++ map (new_row cid tx_now now) (firstn (k * batchSize) codes)).
  assert (HP : P (0 + n)%nat tx').
  { change 0 with (Z.of_nat 0) in H.
    refine (for_up_ok_inv P _ n 0%nat tx tx' _ _ H).
    - intros j t t' Hj P2 Hb.
      replace (Z.to_nat (Z.of_nat j)) with j in Hb by lia.
      rewrite batch_slice in Hb.
      apply insertCouponBatch_app in Hb;
        [| now apply GenFacts.Forall_firstn, GenFacts.Forall_skipn].
      destruct Hb as [_ [B2 _]].
      unfold P. rewrite B2, P2, <- app_assoc, <- map_app. do 2 f_equal.
      replace (Datatypes.S j * batchSize)%nat
        with (j * batchSize + batchSize)%nat by lia.
      now rewrite firstn_add.
    - unfold P. cbn [Nat.mul firstn map]. now rewrite app_nil_r. }
  unfold P in HP. rewrite HP. do 2 f_equal. apply firstn_all2.
  apply ceil_batches.
Qed.

End StoreFacts.

Module ServiceFacts.
Import Repo Service StoreView StoreFacts.

Lemma generate_loop_total cid : forall m k acc,
  exists codes,
    for_up m k
      (fun i couponCodes =>
         match CodeGen.generateSecureCoupon cid (Wire.wrap64 i) with
         | Ok code => Ok (couponCodes ++ [code])
         | Error _ => Error CodeInternal
         | Panic => Panic
         end) acc = Ok codes /\
    List.length codes = (List.length acc + m)%nat.
Proof.
  induction m as [| m IH]; intros k acc; cbn [for_up].
  - exists acc. split; [reflexivity | lia].
  - destruct (GenFacts.generateSecureCoupon_runes cid (Wire.wrap64 k))
      as [out [_ [_ [_ E]]]].
    rewrite E. cbn [bind].
    destruct (IH (k + 1) (acc ++ [Utf8.of_runes (Shape.runes_from out)]))
      as [codes [H1 H2]].
    exists codes. split; [exact H1 |]. rewrite H2, length_app. cbn. lia.
Qed.

Lemma generated_rune_count c i code :
  CodeGen.generateSecureCoupon c i = Ok code ->
  Utf8.rune_count code = 10%nat.
Proof.
  intros H.
  destruct (GenFacts.generateSecureCoupon_runes c i) as [out [_ [_ [_ E]]]].
  rewrite E in H. injection H as <-.
  destruct (GenFacts.runes_from_format out)
    as [d [s [body [R [Hd [Hs [Hl Hb]]]]]]].
  rewrite R, GenFacts.rune_count_pool.
  - cbn [List.length]. now rewrite Hl.
  - constructor; [apply in_or_app; now left |].
    constructor; [apply in_or_app; now right | exact Hb].
Qed.

Lemma generate_loop_spec cid : forall m k acc codes,
  for_up m k
    (fun i couponCodes =>
       match CodeGen.generateSecureCoupon cid (Wire.wrap64 i) with
       | Ok code => Ok (couponCodes ++ [code])
       | Error _ => Error CodeInternal
       | Panic => Panic
       end) acc = Ok codes ->
  exists new,
    codes = acc ++ new /\ List.length new = m /\
    forall i, (i < m)%nat ->
      CodeGen.generateSecureCoupon cid (Wire.wrap64 (k + Z.of_nat i))
      = Ok (nth i new ""%string).
Proof.
  induction m as [| m IH]; intros k acc codes; cbn [for_up].
  - intros H. injection H as <-. exists []. rewrite app_nil_r.
    repeat split. intros i Hi. lia.
  - destruct (GenFacts.generateSecureCoupon_runes cid (Wire.wrap64 k))
      as [out [_ [_ [_ E]]]].
    rewrite E. cbn [bind]. intros H.
    apply IH in H. destruct H as [new [H1 [H2 H3]]].
    exists (Utf8.of_runes (Shape.runes_from out) :: new).
    split; [now rewrite H1, <- app_assoc |].
    split; [cbn [List.length]; now rewrite H2 |].
    intros [| i] Hi.
    + cbn [nth]. rewrite Z.add_0_r. exact E.
    + cbn [nth].
      replace (k + Z.of_nat (Datatypes.S i)) with (k + 1 + Z.of_nat i) by lia.
      apply H3. lia.
Qed.

Lemma generate_codes_spec cid n codes :
  generate_codes cid n = Ok codes ->
  0 <= n /\ List.length codes = Z.to_nat n /\
  forall i, (i < Z.to_nat n)%nat ->
    CodeGen.generateSecureCoupon cid (Wire.wrap64 (Z.of_nat i))
    = Ok (nth i codes ""%string).
Proof.
  unfold generate_codes, make_slice. intros H.
  destruct (Z.ltb_spec n 0); [discriminate |]. cbn [bind] in H.
  apply generate_loop_spec in H. destruct H as [new [H1 [H2 H3]]].
  cbn [app] in H1. subst new. split; [lia |]. split; [exact H2 |].
  intros i Hi. now apply H3.
Qed.

Lemma generate_codes_runes cid n codes :
  generate_codes cid n = Ok codes ->
  forall code, In code codes -> Utf8.rune_count code = 10%nat.
Proof.
  intros H code Hin. apply generate_codes_spec in H.
  destruct H as [_ [Hl Hn]].
  apply (In_nth _ _ ""%string) in Hin. destruct Hin as [i [Hi <-]].
  apply (generated_rune_count cid (Wire.wrap64 (Z.of_nat i))).
  apply Hn. lia.
Qed.

(** Every generated code fits the column. *)
Lemma generate_codes_short cid n codes :
  generate_codes cid n = Ok codes ->
  Forall (fun code => (Utf8.rune_count code <= 10)%nat) codes.
Proof.
  intros H. apply Forall_forall. intros code Hin.
  rewrite (generate_codes_runes _ _ _ H code Hin). lia.
Qed.

(** The generation loop returns one code for each index; a negative count
    panics when the slice is made. *)
Lemma generate_codes_total cid n :
  0 <= n ->
  exists codes, generate_codes cid n = Ok codes /\
                List.length codes = Z.to_nat n.
Proof.
  intros Hn. unfold generate_codes, make_slice.
  destruct (Z.ltb_spec n 0); [lia |]. cbn [bind].
  destruct (generate_loop_total cid (Z.to_nat n) 0 []) as [codes [H1 H2]].
  exists codes. split; [exact H1 | exact H2].
Qed.

Lemma generate_codes_negative cid n : n < 0 -> generate_codes cid n = Panic.
Proof.
  intros Hn. unfold generate_codes, make_slice.
  destruct (Z.ltb_spec n 0); [reflexivity | lia].
Qed.

Lemma CreateCampaign_cases env n d db :
  (exists codes,
      0 <= n /\ List.length codes = Z.to_nat n /\ create_faultless env n /\
      generate_codes (campaigns_id_seq db) n = Ok codes /\
      CreateCampaign env n d db
      = (created env n d db codes,
         Ok (mkCampaignMsg (campaigns_id_seq db) n d [])))
  \/ (campaigns (fst (CreateCampaign env n d db)) = campaigns db /\
      coupons (fst (CreateCampaign env n d db)) = coupons db /\
      campaigns_id_seq db <= campaigns_id_seq (fst (CreateCampaign env n d db)) /\
      forall m, snd (CreateCampaign env n d db) <> Ok m).
Proof.
  unfold CreateCampaign, Repo.CreateCampaign.
  destruct (create_begin_fails env) eqn:Fb.
  { right. cbn. repeat split; try reflexivity; try lia. discriminate. }
  destruct (create_insert_fails env) eqn:Fi.
  { right. cbn. repeat split; try reflexivity; try lia. discriminate. }
  set (camp := Campaign.mk (campaigns_id_seq db) n d (now_campaign env)
                 (now_campaign env)).
  set (tx := mkDB (campaigns db ++ [camp]) (coupons db) (campaigns_id_seq db + 1)).
  unfold create_pool. cbn [Campaign.ID Campaign.AvailableCoupons Campaign.StartDate camp].
  destruct (Z.ltb_spec n 0) as [Hneg | Hpos].
  { rewrite generate_codes_negative by exact Hneg. cbn [bind].
    right. cbn. repeat split; try reflexivity; try lia. discriminate. }
  destruct (generate_codes_total (campaigns_id_seq db) n Hpos) as [codes [G1 G2]].
  pose proof (generate_codes_short _ _ _ G1) as Hshort.
  rewrite G1. cbn [bind].
  destruct (CreatePregeneratedCoupons (create_batch_fails env) (now_coupons env)
              (create_tx_now env) tx (campaigns_id_seq db) codes)
    as [tx' | e |] eqn:Hc.
  - destruct (create_commit_fails env) eqn:Fc.
    + right. apply CreatePregeneratedCoupons_frame in Hc.
      destruct Hc as [_ [C3 _]]. cbn [fst snd rollback campaigns coupons campaigns_id_seq].
      rewrite C3. cbn. repeat split; try reflexivity; try lia. discriminate.
    + left. exists codes.
      apply (CreatePregeneratedCoupons_app _ _ _ _ _ _ _ Hshort) in Hc.
      destruct Hc as [C1 [C2 [C3 C4]]].
      split; [exact Hpos |]. split; [exact G2 |].
      split; [repeat split; try assumption;
              unfold batches; rewrite <- G2; exact C4 |].
      split; [reflexivity |].
      f_equal. unfold created. destruct tx' as [a b c].
      cbn [campaigns coupons campaigns_id_seq] in *. subst a b c. reflexivity.
  - right. cbn. repeat split; try reflexivity; try lia. discriminate.
  - right. cbn. repeat split; try reflexivity; try lia. discriminate.
Qed.

(** What [IssueCoupon] leaves: the state it found, or that state with one
    available coupon marked. *)
Lemma IssueCoupon_cases env c db :
  (exists camp row,
      find (fun x => Campaign.ID x =? c) (campaigns db) = Some camp /\
      Campaign.StartDate camp <= now_check env /\
      In row (coupons db) /\ Coupon.CampaignID row = c /\
      Coupon.Status row = Available /\
      IssueCoupon env c db
      = (mkDB (campaigns db)
              (map (mark_row (now_mark env) (Coupon.Code row)) (coupons db))
              (campaigns_id_seq db),
         Ok (mkCouponMsg (Coupon.Code row) c)))
  \/ (fst (IssueCoupon env c db) = db /\
      forall m, snd (IssueCoupon env c db) <> Ok m).
Proof.
  unfold IssueCoupon, Repo.GetCampaign.
  destruct (issue_get_fails env); [right; split; [reflexivity | discriminate] |].
  destruct (find _ (campaigns db)) as [camp |] eqn:Hf;
    [| right; split; [reflexivity | discriminate]].
  destruct (Z.ltb_spec (now_check env) (Campaign.StartDate camp));
    [right; split; [reflexivity | discriminate] |].
  destruct (issue_begin_fails env); [right; split; [reflexivity | discriminate] |].
  unfold ReserveAvailableCoupon.
  destruct (issue_reserve_fails env); [right; split; [reflexivity | discriminate] |].
  destruct (oldest (issue_tie env) (candidates (fun _ => false) db c))
    as [row |] eqn:Ho;
    [| right; split; [reflexivity | discriminate]].
  unfold MarkCouponAsIssued.
  destruct (issue_exec_fails env); [right; split; [reflexivity | discriminate] |].
  destruct (issue_rows_affected_fails env);
    [right; split; [reflexivity | discriminate] |].
  destruct (rows_affected (Coupon.Code row) (coupons db) =? 0)%nat;
    [right; split; [reflexivity | discriminate] |].
  destruct (issue_commit_fails env); [right; split; [reflexivity | discriminate] |].
  left. exists camp, row.
  destruct (oldest_spec _ _ _ Ho) as [Hin _].
  unfold candidates in Hin. apply filter_In in Hin. destruct Hin as [Hin Hc].
  apply andb_true_iff in Hc. destruct Hc as [Hc _].
  apply andb_true_iff in Hc. destruct Hc as [Hc Hs].
  apply Z.eqb_eq in Hc.
  repeat split; try assumption.
  destruct (Coupon.Status row); [reflexivity | discriminate].
Qed.

End ServiceFacts.

Module InvariantFacts.
Import Repo Service StoreView StoreFacts ServiceFacts.

Lemma mark_row_fields now code r :
  Coupon.Code (mark_row now code r) = Coupon.Code r /\
  Coupon.CampaignID (mark_row now code r) = Coupon.CampaignID r /\
  Coupon.CreatedAt (mark_row now code r) = Coupon.CreatedAt r /\
  (mark_row now code r = r \/
   Coupon.Status r = Available /\ Coupon.Code r = code /\
   Coupon.Status (mark_row now code r) = Issued /\
   Coupon.IssuedAt (mark_row now code r) = Some now).
Proof.
  unfold mark_row.
  destruct (String.eqb_spec (Coupon.Code r) code) as [Hc | Hc]; cbn [andb].
  - destruct (Coupon.Status r) eqn:Hs; cbn [status_eqb];
      repeat split; auto.
  - repeat split; auto.
Qed.

Lemma created_rows env n d db codes r :
  In r (coupons (created env n d db codes)) ->
  In r (coupons db) \/
  (Coupon.CampaignID r = campaigns_id_seq db /\
   Coupon.Status r = Available /\
   Coupon.IssuedAt r = Some (create_tx_now env) /\
   Coupon.CreatedAt r = now_coupons env /\ In (Coupon.Code r) codes).
Proof.
  unfold created. cbn [coupons]. intros H. apply in_app_or in H.
  destruct H as [H | H]; [now left | right].
  apply in_map_iff in H. destruct H as [code [<- Hc]]. cbn. auto.
Qed.

Lemma invariant_create env n d db :
  invariant db -> invariant (fst (CreateCampaign env n d db)).
Proof.
  intros [I1 [I2 I3]].
  destruct (CreateCampaign_cases env n d db)
    as [[codes [_ [_ [_ [_ E]]]]] | [_ [E2 [E3 _]]]].
  - rewrite E. cbn [fst]. split; [| split].
    + intros r Hr. apply created_rows in Hr. cbn [created campaigns_id_seq].
      destruct Hr as [Hr | [Hr _]]; [specialize (I1 r Hr) |]; lia.
    + intros r1 r2 H1 H2 Hc.
      apply created_rows in H1. apply created_rows in H2.
      destruct H1 as [H1 | [C1 [_ [_ [T1 _]]]]], H2 as [H2 | [C2 [_ [_ [T2 _]]]]].
      * now apply I2.
      * specialize (I1 r1 H1). lia.
      * specialize (I1 r2 H2). lia.
      * congruence.
    + intros r Hr. apply created_rows in Hr.
      destruct Hr as [Hr | [_ [_ [Hi _]]]]; [now apply I3 | congruence].
  - split; [| split].
    + intros r Hr. rewrite E2 in Hr. specialize (I1 r Hr). lia.
    + intros r1 r2. rewrite E2. apply I2.
    + intros r. rewrite E2. apply I3.
Qed.

Lemma invariant_issue env c db :
  invariant db -> invariant (fst (IssueCoupon env c db)).
Proof.
  intros [I1 [I2 I3]].
  destruct (IssueCoupon_cases env c db)
    as [[camp [row [_ [_ [_ [_ [_ E]]]]]]] | [E _]]; [| now rewrite E].
  rewrite E. cbn [fst coupons campaigns_id_seq]. split; [| split].
  - intros r Hr. apply in_map_iff in Hr. destruct Hr as [r0 [<- Hr]].
    destruct (mark_row_fields (now_mark env) (Coupon.Code row) r0) as [_ [-> _]].
    now apply I1.
  - intros r1 r2 H1 H2 Hc.
    apply in_map_iff in H1. destruct H1 as [a [<- Ha]].
    apply in_map_iff in H2. destruct H2 as [b [<- Hb]].
    destruct (mark_row_fields (now_mark env) (Coupon.Code row) a) as [_ [Ca [Ta _]]].
    destruct (mark_row_fields (now_mark env) (Coupon.Code row) b) as [_ [Cb [Tb _]]].
    rewrite Ta, Tb. apply I2; congruence.
  - intros r Hr. apply in_map_iff in Hr. destruct Hr as [r0 [<- Hr]].
    destruct (mark_row_fields (now_mark env) (Coupon.Code row) r0)
      as [_ [_ [_ [-> | [_ [_ [_ ->]]]]]]]; [now apply I3 | discriminate].
Qed.

Lemma reachable_invariant db : reachable db -> invariant db.
Proof.
  induction 1 as [| db r _ IH].
  - repeat split; cbn; intros; contradiction.
  - destruct r as [env n d | env c | env c]; cbn [handle].
    + now apply invariant_create.
    + exact IH.
    + now apply invariant_issue.
Qed.

(** The coupons of the campaign a committed [CreateCampaign] made are the
    rows it wrote. *)
Lemma created_pool env n d db codes r :
  invariant db ->
  In r (coupons (created env n d db codes)) ->
  Coupon.CampaignID r = campaigns_id_seq db ->
  Coupon.Status r = Available /\
  Coupon.IssuedAt r = Some (create_tx_now env) /\
  Coupon.CreatedAt r = now_coupons env.
Proof.
  intros [I1 _] Hr Hc. apply created_rows in Hr.
  destruct Hr as [Hr | [_ [Hs [Hi [Ht _]]]]]; [| auto].
  specialize (I1 r Hr). lia.
Qed.

Lemma CreateCampaign_ok env n d db db' m :
  CreateCampaign env n d db = (db', Ok m) ->
  exists codes,
    0 <= n /\ List.length codes = Z.to_nat n /\ create_faultless env n /\
    db' = created env n d db codes /\
    m = mkCampaignMsg (campaigns_id_seq db) n d [].
Proof.
  intros H.
  destruct (CreateCampaign_cases env n d db)
    as [[codes [H1 [H2 [H3 [_ E]]]]] | [_ [_ [_ E]]]].
  - rewrite E in H. inversion H; subst. exists codes. auto.
  - rewrite H in E. cbn [snd] in E. now specialize (E m).
Qed.

Lemma IssueCoupon_ok env c db db' m :
  IssueCoupon env c db = (db', Ok m) ->
  exists camp row,
    lookup db c = Some camp /\ Campaign.StartDate camp <= now_check env /\
    In row (coupons db) /\ Coupon.CampaignID row = c /\
    Coupon.Status row = Available /\
    db' = mkDB (campaigns db)
            (map (mark_row (now_mark env) (Coupon.Code row)) (coupons db))
            (campaigns_id_seq db) /\
    m = mkCouponMsg (Coupon.Code row) c.
Proof.
  intros H.
  destruct (IssueCoupon_cases env c db)
    as [[camp [row [H1 [H2 [H3 [H4 [H5 E]]]]]]] | [_ E]].
  - rewrite E in H. inversion H; subst. exists camp, row. auto 10.
  - rewrite H in E. cbn [snd] in E. now specialize (E m).
Qed.

End InvariantFacts.

(** ** Concurrent calls: what every interleaving keeps *)

Module BurstFacts.
Import Repo Service StoreView Burst.

Lemma got_flat s c : got s c = flat_map (ret c) (callers s).
Proof.
  unfold got, calls. induction (callers s) as [| k l IH]; [reflexivity |].
  cbn [filter flat_map]. unfold ret at 1.
  destruct (req k =? c); cbn [flat_map app]; now rewrite IH.
Qed.

Lemma nth_error_split {A} (l : list A) t k :
  nth_error l t = Some k -> l = firstn t l ++ k :: skipn (S t) l.
Proof.
  revert t. induction l as [| x l IH]; intros [| t] H; try discriminate.
  - inversion H; subst. reflexivity.
  - cbn in H. cbn [firstn skipn app]. f_equal. now apply IH.
Qed.

Lemma mark_row_code now x r : Coupon.Code (mark_row now x r) = Coupon.Code r.
Proof.
  unfold mark_row.
  destruct (String.eqb (Coupon.Code r) x && status_eqb (Coupon.Status r) Available);
    reflexivity.
Qed.

Lemma mark_codes now x rows :
  map Coupon.Code (map (mark_row now x) rows) = map Coupon.Code rows.
Proof. rewrite map_map. apply map_ext. intros r. apply mark_row_code. Qed.

(** After the row [x] is marked, the available codes of a campaign are
    those from before, without [x]. *)
Lemma mark_row_cases now x r :
  (Coupon.Code r = x /\ Coupon.Status r = Available /\
   mark_row now x r
   = Coupon.mk (Coupon.Code r) (Coupon.CampaignID r) Issued (Some now)
       (Coupon.CreatedAt r))
  \/ ((Coupon.Code r <> x \/ Coupon.Status r = Issued) /\ mark_row now x r = r).
Proof.
  unfold mark_row.
  destruct (String.eqb_spec (Coupon.Code r) x) as [Hx | Hx]; cbn [andb].
  - destruct (Coupon.Status r) eqn:Hs; cbn [status_eqb]; auto.
  - auto.
Qed.

Lemma available_marked d now x c :
  available (mkDB (campaigns d) (map (mark_row now x) (coupons d))
                  (campaigns_id_seq d)) c
  = filter (fun y => negb (String.eqb y x)) (available d c).
Proof.
  unfold available, candidates. cbn [coupons].
  induction (coupons d) as [| r rows IH]; [reflexivity |].
  cbn [map filter].
  destruct (mark_row_cases now x r) as [[Hx [Hs ->]] | [Hn ->]].
  - cbn [Coupon.CampaignID Coupon.Status status_eqb].
    rewrite andb_false_r. cbn [andb]. rewrite IH, Hs.
    destruct ((Coupon.CampaignID r =? c) && status_eqb Available Available
              && negb false); cbn [map filter]; [| reflexivity].
    rewrite Hx, String.eqb_refl. reflexivity.
  - destruct ((Coupon.CampaignID r =? c)
              && status_eqb (Coupon.Status r) Available && negb false) eqn:Hp;
      cbn [map filter]; [| exact IH].
    destruct (String.eqb_spec (Coupon.Code r) x) as [Hx | Hx]; cbn [negb].
    + destruct Hn as [Hn | Hn]; [contradiction |].
      rewrite Hn in Hp. cbn in Hp. rewrite andb_false_r in Hp. discriminate.
    + f_equal. exact IH.
Qed.

Lemma available_in d c x :
  In x (available d c) <->
  exists row, In row (coupons d) /\ Coupon.Code row = x /\
              Coupon.CampaignID row = c /\ Coupon.Status row = Available.
Proof.
  unfold available, candidates. rewrite in_map_iff. split.
  - intros [row [Hc Hin]]. apply filter_In in Hin. destruct Hin as [Hin Hp].
    rewrite andb_true_r in Hp. apply andb_true_iff in Hp. destruct Hp as [H1 H2].
    exists row. repeat split; auto; [now apply Z.eqb_eq |].
    destruct (Coupon.Status row); [reflexivity | discriminate].
  - intros [row [Hin [Hc [Hq Hs]]]]. exists row. split; [exact Hc |].
    apply filter_In. split; [exact Hin |].
    rewrite Hs. cbn [status_eqb negb]. rewrite !andb_true_r. now apply Z.eqb_eq.
Qed.

Lemma NoDup_map_filter {A B} (f : A -> B) (p : A -> bool) l :
  NoDup (map f l) -> NoDup (map f (filter p l)).
Proof.
  induction l as [| a l IH]; cbn [map filter]; intros H; [constructor |].
  inversion H as [| ? ? Hn Hd]; subst.
  destruct (p a); [| now apply IH].
  cbn [map]. constructor; [| now apply IH].
  intros Hin. apply Hn. apply in_map_iff in Hin. destruct Hin as [b [E Hb]].
  apply filter_In in Hb. apply in_map_iff. exists b. tauto.
Qed.

Lemma available_NoDup d c :
  NoDup (map Coupon.Code (coupons d)) -> NoDup (available d c).
Proof. apply NoDup_map_filter. Qed.

(** Two rows with one code are one row, under the primary key. *)
Lemma pk_unique (rows : list Coupon.t) r1 r2 :
  NoDup (map Coupon.Code rows) -> In r1 rows -> In r2 rows ->
  Coupon.Code r1 = Coupon.Code r2 -> r1 = r2.
Proof.
  induction rows as [| r rows IH]; intros Hn H1 H2 Hc; [contradiction |].
  cbn [map] in Hn. inversion Hn as [| ? ? Hni Hd]; subst.
  destruct H1 as [-> | H1], H2 as [-> | H2]; auto.
  - exfalso. apply Hni. rewrite Hc. now apply in_map.
  - exfalso. apply Hni. rewrite <- Hc. now apply in_map.
Qed.

Lemma filter_neq_perm (l : list string) x :
  NoDup l -> In x l ->
  Permutation (x :: filter (fun y => negb (String.eqb y x)) l) l.
Proof.
  induction l as [| a l IH]; intros Hn Hin; [contradiction |].
  inversion Hn as [| ? ? Hni Hd]; subst. cbn [filter].
  destruct (String.eqb_spec a x) as [-> | Hne]; cbn [negb].
  - constructor.
    assert (E : filter (fun y => negb (String.eqb y x)) l = l).
    { clear - Hni. induction l as [| b l IH]; [reflexivity |].
      cbn [filter]. destruct (String.eqb_spec b x) as [-> | Hb]; cbn [negb].
      - exfalso. apply Hni. now left.
      - f_equal. apply IH. intros H. apply Hni. now right. }
    now rewrite E.
  - destruct Hin as [-> | Hin]; [contradiction |].
    rewrite perm_swap. constructor. now apply IH.
Qed.

Lemma filter_neq_id (l : list string) x :
  ~ In x l -> filter (fun y => negb (String.eqb y x)) l = l.
Proof.
  induction l as [| b l IH]; intros Hni; [reflexivity |].
  cbn [filter]. destruct (String.eqb_spec b x) as [-> | Hb]; cbn [negb].
  - exfalso. apply Hni. now left.
  - f_equal. apply IH. intros H. apply Hni. now right.
Qed.

End BurstFacts.

Module BurstInv.
Import Repo Service StoreView Burst BurstFacts.

Section Campaign.
Variables (db0 : DB) (now0 : Z) (reqs : list Z) (c : Z) (camp : Campaign.t).
Hypothesis pk0 : NoDup (map Coupon.Code (coupons db0)).
Hypothesis exists0 : lookup db0 c = Some camp.
Hypothesis started0 : Campaign.StartDate camp <= now0.

Local Abbreviation Inv := (Burst.Inv db0 now0 reqs c).

Lemma held_mid l1 k l2 : held (l1 ++ k :: l2) = held l1 ++ holds k ++ held l2.
Proof. unfold held. now rewrite flat_map_app. Qed.

Lemma ret_mid l1 k l2 :
  flat_map (ret c) (l1 ++ k :: l2)
  = flat_map (ret c) l1 ++ ret c k ++ flat_map (ret c) l2.
Proof. now rewrite flat_map_app. Qed.

Lemma in_mid {A} (x k : A) l1 l2 :
  In x (l1 ++ k :: l2) <-> x = k \/ In x (l1 ++ l2).
Proof.
  rewrite !in_app_iff. cbn [In]. intuition congruence.
Qed.

Lemma held_others l1 k l2 x :
  In x (held (l1 ++ l2)) -> In x (held (l1 ++ k :: l2)).
Proof.
  rewrite held_mid. unfold held. rewrite flat_map_app, !in_app_iff. tauto.
Qed.

Lemma not_done_ended k e : is_done k = false -> ended_with e k = false.
Proof. unfold is_done, ended_with. destruct (pc k); [reflexivity .. | discriminate]. Qed.

Lemma not_done_ret k : is_done k = false -> ret c k = [].
Proof.
  unfold is_done, ret, returned. destruct (req k =? c); [| reflexivity].
  destruct (pc k); [reflexivity .. | discriminate].
Qed.

(** A statement that neither takes nor releases a lock, and returns no
    coupon. *)
Lemma inv_quiet d clk l1 k l2 p :
  Inv d clk (l1 ++ k :: l2) ->
  is_done k = false ->
  holds (mkCaller (req k) p) = holds k ->
  returned (mkCaller (req k) p) = [] ->
  (req k = c -> pc_ok now0 p) ->
  (req k = c -> p = Done (Error CodeResourceExhausted) ->
   forall x, In x (available d c) -> In x (held (l1 ++ l2))) ->
  Inv d clk (l1 ++ mkCaller (req k) p :: l2).
Proof.
  intros [I1 I2 I3 I4 I5 I6 I7 I8 I9] Hnd Hh Hr Hok Hex.
  constructor; try assumption.
  - rewrite map_app in *. exact I1.
  - rewrite held_mid in *. now rewrite Hh.
  - intros k' x Hk Hx. apply in_mid in Hk. destruct Hk as [-> | Hk].
    + rewrite Hh in Hx. cbn [req]. apply (I6 k x); [apply in_mid; now left | exact Hx].
    + apply (I6 k' x); [apply in_mid; now right | exact Hx].
  - rewrite ret_mid in *. rewrite (not_done_ret k Hnd) in I7.
    unfold ret. cbn [req]. rewrite Hr. now destruct (req k =? c).
  - intros k' Hk Hc. apply in_mid in Hk. destruct Hk as [-> | Hk].
    + cbn [pc req] in *. now apply Hok.
    + apply I8; [apply in_mid; now right | exact Hc].
  - intros [k' [Hk [Hc He]]]. apply in_mid in Hk.
    assert (Hkeep : some_ended CodeInternal c (l1 ++ k :: l2) \/
                    (forall x, In x (available d c) -> In x (held (l1 ++ k :: l2))) ->
                    some_ended CodeInternal c (l1 ++ mkCaller (req k) p :: l2) \/
                    (forall x, In x (available d c) ->
                               In x (held (l1 ++ mkCaller (req k) p :: l2)))).
    { intros [[k3 [H3 [C3 E3]]] | Hall].
      - left. exists k3. apply in_mid in H3. destruct H3 as [-> | H3].
        + rewrite (not_done_ended k _ Hnd) in E3. discriminate.
        + split; [apply in_mid; now right | auto].
      - right. intros x Hx. rewrite held_mid, Hh, <- held_mid. now apply Hall. }
    destruct Hk as [-> | Hk].
    + cbn [req] in Hc. unfold ended_with in He. cbn [pc] in He.
      destruct p as [| | | | | | [m | e |]]; try discriminate.
      destruct e; try discriminate.
      right. intros x Hx. apply held_others. now apply Hex.
    + apply Hkeep. apply I9. exists k'. split; [apply in_mid; now right | auto].
Qed.

Lemma may_select_row cands x :
  may_select cands x = true ->
  exists row, In row cands /\ Coupon.Code row = x /\
              forall r', In r' cands ->
                         Coupon.CreatedAt row <= Coupon.CreatedAt r'.
Proof.
  unfold may_select. intros H. apply existsb_exists in H.
  destruct H as [row [Hin H]]. apply andb_true_iff in H. destruct H as [Hc Hm].
  exists row. split; [exact Hin |]. split; [now apply String.eqb_eq |].
  intros r' Hr'. rewrite forallb_forall in Hm. specialize (Hm r' Hr'). lia.
Qed.

Lemma candidates_in lockedf d cid row :
  In row (candidates lockedf d cid) <->
  In row (coupons d) /\ Coupon.CampaignID row = cid /\
  Coupon.Status row = Available /\ lockedf (Coupon.Code row) = false.
Proof.
  unfold candidates. rewrite filter_In, !andb_true_iff, Z.eqb_eq, negb_true_iff.
  destruct (Coupon.Status row); cbn [status_eqb]; intuition congruence.
Qed.

Lemma existsb_eqb_in x l : existsb (String.eqb x) l = false -> ~ In x l.
Proof.
  intros H Hin.
  assert (Ht : existsb (String.eqb x) l = true).
  { apply existsb_exists. exists x. split; [exact Hin | apply String.eqb_refl]. }
  congruence.
Qed.

(** The reservation query selects a row and locks it. *)
Lemma inv_reserve d clk l1 k l2 x :
  Inv d clk (l1 ++ k :: l2) ->
  pc k = InTx ->
  may_select (candidates (fun y => existsb (String.eqb y) (held (l1 ++ l2)))
                d (req k)) x = true ->
  Inv d clk (l1 ++ mkCaller (req k) (Reserved x) :: l2).
Proof.
  intros [I1 I2 I3 I4 I5 I6 I7 I8 I9] Hpc Hsel.
  apply may_select_row in Hsel. destruct Hsel as [row [Hin [Hx _]]].
  apply candidates_in in Hin. destruct Hin as [Hrow [Hcid [Hst Hlk]]].
  rewrite Hx in Hlk. apply existsb_eqb_in in Hlk.
  assert (Hnd : is_done k = false) by (unfold is_done; now rewrite Hpc).
  assert (Hh : holds k = []) by (unfold holds; now rewrite Hpc).
  constructor; try assumption.
  - rewrite map_app in *. exact I1.
  - rewrite held_mid in *. rewrite Hh in I5. cbn [holds pc app] in *.
    apply NoDup_Add with (a := x) (l := held l1 ++ held l2);
      [apply Add_app | split; [exact I5 |]].
    unfold held in Hlk. now rewrite flat_map_app in Hlk.
  - intros k' y Hk Hy. apply in_mid in Hk. destruct Hk as [-> | Hk].
    + cbn [holds pc In] in Hy. destruct Hy as [<- | []]. exists row. cbn [req]. auto.
    + apply (I6 k' y); [apply in_mid; now right | exact Hy].
  - rewrite ret_mid in *. rewrite (not_done_ret k Hnd) in I7.
    unfold ret at 2. cbn [req returned pc]. now destruct (req k =? c).
  - intros k' Hk Hc. apply in_mid in Hk. destruct Hk as [-> | Hk]; [exact I |].
    apply I8; [apply in_mid; now right | exact Hc].
  - intros [k' [Hk [Hc He]]]. apply in_mid in Hk.
    destruct Hk as [-> | Hk]; [discriminate He |].
    destruct I9 as [[k3 [H3 [C3 E3]]] | Hall].
    + exists k'. split; [apply in_mid; now right | auto].
    + left. exists k3. apply in_mid in H3. destruct H3 as [-> | H3].
      * rewrite (not_done_ended k _ Hnd) in E3. discriminate.
      * split; [apply in_mid; now right | auto].
    + right. intros y Hy. specialize (Hall y Hy).
      rewrite held_mid in *. rewrite Hh in Hall. cbn [app] in Hall.
      rewrite !in_app_iff in *. tauto.
Qed.

(** The transaction of a call that holds a lock rolls back. *)
Lemma inv_release d clk l1 k l2 x :
  Inv d clk (l1 ++ k :: l2) ->
  holds k = [x] ->
  Inv d clk (l1 ++ mkCaller (req k) (Done (Error CodeInternal)) :: l2).
Proof.
  intros [I1 I2 I3 I4 I5 I6 I7 I8 I9] Hh.
  assert (Hnd : is_done k = false).
  { unfold is_done, holds in *. destruct (pc k); try reflexivity; discriminate. }
  constructor; try assumption.
  - rewrite map_app in *. exact I1.
  - rewrite held_mid in *. rewrite Hh in I5. cbn [holds pc app] in *.
    apply NoDup_remove_1 in I5. exact I5.
  - intros k' y Hk Hy. apply in_mid in Hk. destruct Hk as [-> | Hk]; [contradiction |].
    apply (I6 k' y); [apply in_mid; now right | exact Hy].
  - rewrite ret_mid in *. rewrite (not_done_ret k Hnd) in I7.
    unfold ret at 2. cbn [req returned pc]. now destruct (req k =? c).
  - intros k' Hk Hc. apply in_mid in Hk. destruct Hk as [-> | Hk]; [exact I |].
    apply I8; [apply in_mid; now right | exact Hc].
  - intros [k' [Hk [Hc He]]]. apply in_mid in Hk.
    destruct Hk as [-> | Hk]; [discriminate He |].
    destruct (Z.eq_dec (req k) c) as [Hkc | Hkc].
    { left. exists (mkCaller (req k) (Done (Error CodeInternal))).
      split; [apply in_mid; now left | auto]. }
    destruct I9 as [[k3 [H3 [C3 E3]]] | Hall].
    + exists k'. split; [apply in_mid; now right | auto].
    + left. exists k3. apply in_mid in H3. destruct H3 as [-> | H3].
      * rewrite (not_done_ended k _ Hnd) in E3. discriminate.
      * split; [apply in_mid; now right | auto].
    + right. intros y Hy. specialize (Hall y Hy).
      assert (Hy' : In y (held l1) \/ x = y \/ In y (held l2)).
      { rewrite held_mid, Hh in Hall. rewrite !in_app_iff in Hall.
        cbn [In] in Hall. tauto. }
      rewrite held_mid. cbn [holds pc app]. rewrite in_app_iff.
      destruct Hy' as [H | [<- | H]]; auto.
      exfalso. apply Hkc.
      destruct (I6 k x) as [row [R1 [R2 [R3 R4]]]];
        [apply in_mid; now left | rewrite Hh; now left |].
      apply available_in in Hy. destruct Hy as [row' [Q1 [Q2 [Q3 Q4]]]].
      assert (row = row') by (apply (pk_unique (coupons d)); auto; congruence).
      congruence.
Qed.

(** The transaction of a call commits: its row becomes Issued, its lock is
    released, and the call returns the code. *)
Lemma inv_commit d clk l1 k l2 x ts :
  Inv d clk (l1 ++ k :: l2) ->
  pc k = Marked x ts ->
  Inv (mkDB (campaigns d) (map (mark_row ts x) (coupons d)) (campaigns_id_seq d))
      clk
      (l1 ++ mkCaller (req k) (Done (Ok (mkCouponMsg x (req k)))) :: l2).
Proof.
  intros [I1 I2 I3 I4 I5 I6 I7 I8 I9] Hpc.
  assert (Hnd : is_done k = false) by (unfold is_done; now rewrite Hpc).
  assert (Hh : holds k = [x]) by (unfold holds; now rewrite Hpc).
  destruct (I6 k x) as [row [R1 [R2 [R3 R4]]]];
    [apply in_mid; now left | rewrite Hh; now left |].
  assert (Hheld : NoDup (held l1 ++ x :: held l2)).
  { rewrite held_mid, Hh in I5. exact I5. }
  assert (Hother : forall y, In y (held l1 ++ held l2) -> y <> x).
  { intros y Hy ->. apply NoDup_remove_2 in Hheld. contradiction. }
  constructor; cbn [campaigns coupons campaigns_id_seq]; try assumption.
  - rewrite map_app in *. exact I1.
  - now rewrite mark_codes.
  - rewrite held_mid. cbn [holds pc app]. now apply NoDup_remove_1 in Hheld.
  - intros k' y Hk Hy. apply in_mid in Hk. destruct Hk as [-> | Hk]; [contradiction |].
    destruct (I6 k' y) as [ry [Q1 [Q2 [Q3 Q4]]]];
      [apply in_mid; now right | exact Hy |].
    exists ry. repeat split; auto.
    apply in_map_iff. exists ry. split; [| exact Q1].
    destruct (mark_row_cases ts x ry) as [[Hc _] | [_ E]]; [| exact E].
    exfalso. apply (Hother y); [| congruence].
    unfold held. rewrite <- flat_map_app. apply in_flat_map. exists k'. auto.
  - rewrite available_marked. rewrite ret_mid in *.
    rewrite (not_done_ret k Hnd) in I7. cbn [app] in I7.
    unfold ret at 2. cbn [req returned pc Code_].
    destruct (Z.eqb_spec (req k) c) as [Hc | Hc].
    + assert (Hx : In x (available d c)).
      { apply available_in. exists row. repeat split; auto. congruence. }
      rewrite <- I7. cbn [app].
      rewrite <- Permutation_middle.
      rewrite app_assoc, <- Permutation_middle, <- app_assoc.
      change (Permutation
                ((x :: filter (fun y => negb (y =? x)%string) (available d c))
                   ++ flat_map (ret c) l1 ++ flat_map (ret c) l2)
                (available d c ++ flat_map (ret c) l1 ++ flat_map (ret c) l2)).
      apply Permutation_app_tail. apply filter_neq_perm; [| exact Hx].
      now apply available_NoDup.
    + rewrite filter_neq_id; [exact I7 |].
      intros Hx. apply available_in in Hx. destruct Hx as [row' [Q1 [Q2 [Q3 Q4]]]].
      assert (row = row') by (apply (pk_unique (coupons d)); auto; congruence).
      congruence.
  - intros k' Hk Hc. apply in_mid in Hk. destruct Hk as [-> | Hk]; [exact I |].
    apply I8; [apply in_mid; now right | exact Hc].
  - intros [k' [Hk [Hc He]]]. apply in_mid in Hk.
    destruct Hk as [-> | Hk]; [discriminate He |].
    destruct I9 as [[k3 [H3 [C3 E3]]] | Hall].
    + exists k'. split; [apply in_mid; now right | auto].
    + left. exists k3. apply in_mid in H3. destruct H3 as [-> | H3].
      * rewrite (not_done_ended k _ Hnd) in E3. discriminate.
      * split; [apply in_mid; now right | auto].
    + right. intros y Hy. rewrite available_marked in Hy.
      apply filter_In in Hy. destruct Hy as [Hy Hne].
      apply negb_true_iff in Hne. apply String.eqb_neq in Hne.
      specialize (Hall y Hy). rewrite held_mid, Hh in Hall.
      rewrite held_mid. cbn [holds pc app].
      rewrite !in_app_iff in *. cbn [In] in Hall.
      destruct Hall as [H | [[H | []] | H]]; auto. congruence.
Qed.

Lemma candidates_nil_held d cid (l : list string) :
  candidates (fun y => existsb (String.eqb y) l) d cid = [] ->
  forall x, In x (available d cid) -> In x l.
Proof.
  intros Hnil x Hx. apply available_in in Hx.
  destruct Hx as [row [R1 [R2 [R3 R4]]]].
  destruct (existsb (String.eqb x) l) eqn:He.
  - apply existsb_exists in He. destruct He as [y [Hy E]].
    apply String.eqb_eq in E. now subst y.
  - exfalso.
    assert (Hin : In row (candidates (fun y => existsb (String.eqb y) l) d cid)).
    { apply candidates_in. rewrite R2. auto. }
    rewrite Hnil in Hin. contradiction.
Qed.

Lemma lookup_camps d :
  campaigns d = campaigns db0 -> lookup d c = Some camp.
Proof. unfold lookup. intros ->. exact exists0. Qed.

Lemma step_inv s e s' :
  Inv (db s) (clock s) (callers s) -> step s e = Some s' ->
  Inv (db s') (clock s') (callers s').
Proof.
  intros HI Hstep. destruct e as [dt | t pick | t]; cbn [step] in Hstep.
  - destruct (Z.ltb_spec dt 0); [discriminate |]. inversion Hstep; subst.
    cbn [db clock callers]. destruct HI. constructor; auto. lia.
  - destruct (nth_error (callers s) t) as [k |] eqn:Hk; [| discriminate].
    destruct (next s t k pick) as [[d' p] |] eqn:Hn; [| discriminate].
    inversion Hstep; subst. clear Hstep. cbn [set_pc db clock callers].
    pose proof (nth_error_split _ _ _ Hk) as E.
    unfold next, locked, others in Hn.
    set (l1 := firstn t (callers s)) in *.
    set (l2 := skipn (S t) (callers s)) in *.
    rewrite E in HI. clearbody l1 l2.
    destruct (pc k) as [| campaign | | | code | code now | r] eqn:Hpc.
    + assert (Hnd : is_done k = false) by (unfold is_done; now rewrite Hpc).
      assert (Hh : holds k = []) by (unfold holds; now rewrite Hpc).
      unfold Repo.GetCampaign in Hn.
      destruct (find (fun x => Campaign.ID x =? req k) (campaigns (db s)))
        as [campaign |] eqn:Hf; inversion Hn; subst; clear Hn.
      * apply inv_quiet; auto; [| discriminate]. cbn [pc_ok]. intros Hc.
        pose proof (lookup_camps _ (inv_camps HI)) as Hl.
        unfold lookup in Hl. rewrite <- Hc, Hf in Hl. inversion Hl; subst.
        exact started0.
      * apply inv_quiet; auto; [| discriminate]. cbn [pc_ok]. intros Hc.
        pose proof (lookup_camps _ (inv_camps HI)) as Hl.
        unfold lookup in Hl. rewrite <- Hc, Hf in Hl. discriminate.
    + assert (Hnd : is_done k = false) by (unfold is_done; now rewrite Hpc).
      assert (Hh : holds k = []) by (unfold holds; now rewrite Hpc).
      destruct (Z.ltb_spec (clock s) (Campaign.StartDate campaign));
        inversion Hn; subst; clear Hn.
      * apply inv_quiet; auto; [| discriminate]. cbn [pc_ok]. intros Hc.
        pose proof (inv_pcs HI k ltac:(apply in_mid; now left) Hc) as Hok.
        rewrite Hpc in Hok. cbn [pc_ok] in Hok.
        pose proof (inv_clock HI). lia.
      * apply inv_quiet; auto; [intros; exact I | discriminate].
    + inversion Hn; subst; clear Hn.
      apply inv_quiet; auto; try (unfold is_done, holds; now rewrite Hpc);
        [intros; exact I | discriminate].
    + destruct pick as [x |].
      * destruct (may_select _ x) eqn:Hs; inversion Hn; subst; clear Hn.
        now apply inv_reserve.
      * destruct (candidates _ (db s) (req k)) eqn:Hc; inversion Hn; subst; clear Hn.
        apply inv_quiet; auto; try (unfold is_done, holds; now rewrite Hpc).
        -- intros; exact I.
        -- intros Hkc _. rewrite Hkc in Hc.
           now apply candidates_nil_held.
    + assert (Hh : holds k = [code]) by (unfold holds; now rewrite Hpc).
      destruct (MarkCouponAsIssued false false (clock s) (db s) code);
        inversion Hn; subst; clear Hn.
      * apply inv_quiet; auto; try (unfold is_done; now rewrite Hpc);
          [intros; exact I | discriminate].
      * now apply inv_release with (x := code).
      * now apply inv_release with (x := code).
    + inversion Hn; subst; clear Hn. now apply inv_commit.
    + discriminate Hn.
  - destruct (nth_error (callers s) t) as [k |] eqn:Hk; [| discriminate].
    destruct (fault k) as [p |] eqn:Hf; [| discriminate].
    inversion Hstep; subst. clear Hstep. cbn [set_pc db clock callers].
    pose proof (nth_error_split _ _ _ Hk) as E.
    set (l1 := firstn t (callers s)) in *.
    set (l2 := skipn (S t) (callers s)) in *.
    rewrite E in HI. clearbody l1 l2.
    unfold fault in Hf.
    destruct (pc k) as [| campaign | | | code | code now | r] eqn:Hpc;
      inversion Hf; subst; clear Hf;
      try (apply inv_quiet; auto;
           try (unfold is_done, holds; now rewrite Hpc);
           [intros; exact I | discriminate]);
      apply inv_release with (x := code); auto; unfold holds; now rewrite Hpc.
Qed.

Lemma run_inv evs : forall s s',
  Inv (db s) (clock s) (callers s) -> run s evs = Some s' ->
  Inv (db s') (clock s') (callers s').
Proof.
  induction evs as [| e evs IH]; intros s s' HI Hrun; cbn [run] in Hrun.
  - inversion Hrun; subst. exact HI.
  - destruct (step s e) as [s1 |] eqn:Hs; [| discriminate].
    apply (IH s1 s'); [| exact Hrun]. now apply (step_inv s e).
Qed.

Lemma start_inv : Inv db0 now0 (map (fun r => mkCaller r AtStart) reqs).
Proof.
  assert (Hh : held (map (fun r => mkCaller r AtStart) reqs) = []).
  { induction reqs as [| r l IH]; [reflexivity | exact IH]. }
  assert (Hr : flat_map (ret c) (map (fun r => mkCaller r AtStart) reqs) = []).
  { clear Hh. induction reqs as [| r l IH]; [reflexivity |].
    cbn [map flat_map]. unfold ret at 1. cbn [req returned pc].
    destruct (r =? c); cbn [app]; exact IH. }
  constructor; auto.
  - rewrite map_map. cbn [req]. apply map_id.
  - lia.
  - rewrite Hh. constructor.
  - intros k x Hk Hx. apply in_map_iff in Hk. destruct Hk as [r [<- _]].
    contradiction.
  - rewrite Hr, app_nil_r. reflexivity.
  - intros k Hk _. apply in_map_iff in Hk. destruct Hk as [r [<- _]]. exact I.
  - intros [k [Hk [_ He]]]. apply in_map_iff in Hk. destruct Hk as [r [<- _]].
    discriminate He.
Qed.

End Campaign.
End BurstInv.

(** ** The constraints of the schema in every reachable state *)

Module CensusFacts.
Import Repo Service StoreView Census StoreFacts ServiceFacts InvariantFacts.

Lemma in_existsb_code (rows : list Coupon.t) r :
  existsb (fun x => String.eqb (Coupon.Code x) (Coupon.Code r)) rows = false ->
  ~ In (Coupon.Code r) (map Coupon.Code rows).
Proof.
  intros H Hin. apply in_map_iff in Hin. destruct Hin as [x [E Hx]].
  assert (Ht : existsb (fun x => String.eqb (Coupon.Code x) (Coupon.Code r)) rows
               = true).
  { apply existsb_exists. exists x. split; [exact Hx |]. now apply String.eqb_eq. }
  congruence.
Qed.

(** An accepted insertion keeps the primary key. *)
Lemma insert_rows_accepted tx rows tx' :
  insert_rows tx rows = Some tx' ->
  NoDup (map Coupon.Code (coupons tx)) ->
  NoDup (map Coupon.Code (coupons tx')).
Proof.
  revert tx. induction rows as [| r rows IH]; intros tx H Hn; cbn [insert_rows] in H.
  - inversion H; subst. exact Hn.
  - destruct (stored r) as [r' |]; [| discriminate].
    destruct (row_accepted tx r') eqn:Ha; [| discriminate].
    unfold row_accepted in Ha. apply andb_true_iff in Ha. destruct Ha as [Hpk Hfk].
    apply negb_true_iff in Hpk. apply in_existsb_code in Hpk.
    apply IH in H; [exact H |].
    cbn [coupons]. rewrite map_app. cbn [map].
    apply NoDup_Add with (a := Coupon.Code r') (l := map Coupon.Code (coupons tx)).
    + rewrite <- (app_nil_r (map Coupon.Code (coupons tx))) at 1.
      apply Add_app.
    + split; assumption.
Qed.

Lemma insertCouponBatch_pk fails tx_now tx cid codes createdAt tx' :
  insertCouponBatch fails tx_now tx cid codes createdAt = Ok tx' ->
  NoDup (map Coupon.Code (coupons tx)) ->
  NoDup (map Coupon.Code (coupons tx')).
Proof.
  intros H Hn. apply insertCouponBatch_inserted in H.
  now apply (insert_rows_accepted _ _ _ H).
Qed.

Lemma CreatePregeneratedCoupons_pk fails now tx_now tx cid codes tx' :
  CreatePregeneratedCoupons fails now tx_now tx cid codes = Ok tx' ->
  NoDup (map Coupon.Code (coupons tx)) ->
  NoDup (map Coupon.Code (coupons tx')).
Proof.
  unfold CreatePregeneratedCoupons. intros H Hn.
  change 0 with (Z.of_nat 0) in H.
  refine (for_up_ok_inv (fun _ t => NoDup (map Coupon.Code (coupons t)))
            _ _ 0%nat tx tx' _ Hn H).
  intros j t t' _ Ht Hb. now apply insertCouponBatch_pk in Hb.
Qed.

End CensusFacts.

Module CensusInv.
Import Repo Service StoreView Census StoreFacts ServiceFacts InvariantFacts CensusFacts.

(** A committed [CreateCampaign], statement by statement. *)
Lemma CreateCampaign_commit env n d db db' m :
  CreateCampaign env n d db = (db', Ok m) ->
  exists codes,
    generate_codes (campaigns_id_seq db) n = Ok codes /\
    CreatePregeneratedCoupons (create_batch_fails env) (now_coupons env)
      (create_tx_now env)
      (mkDB (campaigns db
               ++ [Campaign.mk (campaigns_id_seq db) n d (now_campaign env)
                     (now_campaign env)])
            (coupons db) (campaigns_id_seq db + 1))
      (campaigns_id_seq db) codes = Ok db' /\
    db' = created env n d db codes /\
    m = mkCampaignMsg (campaigns_id_seq db) n d [] /\
    0 <= n /\ List.length codes = Z.to_nat n.
Proof.
  unfold CreateCampaign, Repo.CreateCampaign.
  destruct (create_begin_fails env); [discriminate |].
  destruct (create_insert_fails env); [discriminate |].
  unfold create_pool. cbn [Campaign.ID Campaign.AvailableCoupons Campaign.StartDate].
  destruct (Z.ltb_spec n 0) as [Hneg | Hpos].
  { rewrite generate_codes_negative by exact Hneg. cbn [bind]. discriminate. }
  destruct (generate_codes_total (campaigns_id_seq db) n Hpos) as [codes [G1 G2]].
  rewrite G1. cbn [bind].
  match goal with
  | |- context [CreatePregeneratedCoupons ?f ?a ?b ?t ?i ?c] =>
      destruct (CreatePregeneratedCoupons f a b t i c) as [tx' | e |] eqn:Hc
  end; try discriminate.
  destruct (create_commit_fails env); [discriminate |].
  intros H. inversion H; subst. exists codes.
  repeat split; auto.
  apply CreatePregeneratedCoupons_app in Hc;
    [| exact (generate_codes_short _ _ _ G1)].
  destruct Hc as [C1 [C2 [C3 _]]].
  unfold created. destruct db' as [a b c]. cbn [campaigns coupons campaigns_id_seq] in *.
  now subst.
Qed.

Lemma pool_of_app d rows c :
  pool_of (mkDB (campaigns d) (coupons d ++ rows) (campaigns_id_seq d)) c
  = pool_of d c ++ filter (fun r => Coupon.CampaignID r =? c) rows.
Proof. unfold pool_of. cbn [coupons]. apply filter_app. Qed.

Lemma filter_all {A} (p : A -> bool) l :
  (forall x, In x l -> p x = true) -> filter p l = l.
Proof.
  induction l as [| a l IH]; intros H; [reflexivity |].
  cbn [filter]. rewrite (H a (or_introl eq_refl)). f_equal. apply IH.
  intros x Hx. apply H. now right.
Qed.

Lemma filter_none {A} (p : A -> bool) l :
  (forall x, In x l -> p x = false) -> filter p l = [].
Proof.
  induction l as [| a l IH]; intros H; [reflexivity |].
  cbn [filter]. rewrite (H a (or_introl eq_refl)). apply IH.
  intros x Hx. apply H. now right.
Qed.

Lemma NoDup_snoc {A} (l : list A) a : NoDup l -> ~ In a l -> NoDup (l ++ [a]).
Proof.
  intros Hn Hi. apply NoDup_Add with (a := a) (l := l); [| now split].
  rewrite <- (app_nil_r l) at 1. apply Add_app.
Qed.

(** The rows of campaigns older than the sequence value lie below it. *)
Lemma well_formed_below db r :
  well_formed db -> In r (coupons db) ->
  Coupon.CampaignID r < campaigns_id_seq db.
Proof.
  intros [_ [_ [_ [Hfk Hc]]]] Hr.
  destruct (Hfk r Hr) as [cmp [Hin <-]]. now destruct (Hc cmp Hin) as [[_ H] _].
Qed.

Lemma well_formed_create env n d db :
  well_formed db -> well_formed (fst (CreateCampaign env n d db)).
Proof.
  intros W. pose proof W as [W0 [W1 [W2 [W3 W4]]]].
  destruct (CreateCampaign env n d db) as [db' [m | e |]] eqn:E; cbn [fst].
  - pose proof (CreateCampaign_commit env n d db db' m E)
      as [codes [_ [Hc [Hd [_ [Hn Hl]]]]]].
    apply CreatePregeneratedCoupons_pk in Hc; [| exact W1].
    subst db'. unfold well_formed, created in *.
    cbn [campaigns coupons campaigns_id_seq] in *.
    set (id := campaigns_id_seq db) in *.
    assert (Hnew : forall r, In r (map (new_row id (create_tx_now env)
                                          (now_coupons env)) codes) ->
                             Coupon.CampaignID r = id).
    { intros r Hr. apply in_map_iff in Hr. now destruct Hr as [c [<- _]]. }
    split; [lia |]. split; [exact Hc |]. split; [| split].
    + rewrite map_app. cbn [map Campaign.ID]. apply NoDup_snoc; [exact W2 |].
      intros Hin. apply in_map_iff in Hin. destruct Hin as [cmp [Hi Hin]].
      destruct (W4 cmp Hin) as [[_ H] _]. unfold id in *. lia.
    + intros r Hr. apply in_app_or in Hr. destruct Hr as [Hr | Hr].
      * destruct (W3 r Hr) as [cmp [H1 H2]]. exists cmp.
        split; [apply in_or_app; now left | exact H2].
      * eexists. split; [apply in_or_app; right; now left |].
        cbn [Campaign.ID]. symmetry. now apply Hnew.
    + intros cmp Hin. apply in_app_or in Hin.
      unfold pool_of. cbn [coupons]. rewrite filter_app, length_app.
      destruct Hin as [Hin | [<- | []]].
      * destruct (W4 cmp Hin) as [[H1 H2] [H3 H4]]. fold id in H2.
        split; [lia |]. split; [exact H3 |].
        unfold pool_of in H4. rewrite H4.
        rewrite filter_none; [cbn; lia |].
        intros r Hr. rewrite (Hnew r Hr). apply Z.eqb_neq. lia.
      * cbn [Campaign.ID Campaign.AvailableCoupons].
        split; [unfold id; lia |]. split; [exact Hn |].
        rewrite filter_none, filter_all.
        -- cbn [List.length]. now rewrite length_map.
        -- intros r Hr. rewrite (Hnew r Hr). apply Z.eqb_refl.
        -- intros r Hr. apply Z.eqb_neq.
           pose proof (well_formed_below db r W Hr). unfold id. lia.
  - pose proof (CreateCampaign_cases env n d db) as [[codes [_ [_ [_ [_ E']]]]] | H].
    + rewrite E in E'. discriminate E'.
    + rewrite E in H. cbn [fst snd] in H. destruct H as [H1 [H2 [H3 _]]].
      unfold well_formed, pool_of. rewrite H1, H2.
      split; [lia |]. repeat split; auto;
        destruct (W4 cmp H) as [[? ?] [? ?]]; auto; lia.
  - pose proof (CreateCampaign_cases env n d db) as [[codes [_ [_ [_ [_ E']]]]] | H].
    + rewrite E in E'. discriminate E'.
    + rewrite E in H. cbn [fst snd] in H. destruct H as [H1 [H2 [H3 _]]].
      unfold well_formed, pool_of. rewrite H1, H2.
      split; [lia |]. repeat split; auto;
        destruct (W4 cmp H) as [[? ?] [? ?]]; auto; lia.
Qed.

Lemma filter_map_length {A} (p : A -> bool) (f : A -> A) l :
  (forall x, p (f x) = p x) ->
  List.length (filter p (map f l)) = List.length (filter p l).
Proof.
  intros H. induction l as [| a l IH]; [reflexivity |].
  cbn [map filter]. rewrite H. destruct (p a); cbn [List.length]; now rewrite IH.
Qed.

Lemma well_formed_issue env c db :
  well_formed db -> well_formed (fst (IssueCoupon env c db)).
Proof.
  intros W. pose proof W as [W0 [W1 [W2 [W3 W4]]]].
  destruct (IssueCoupon_cases env c db)
    as [[camp [row [_ [_ [_ [_ [_ E]]]]]]] | [E _]]; [| now rewrite E].
  rewrite E. cbn [fst]. unfold well_formed, pool_of.
  cbn [campaigns coupons campaigns_id_seq].
  split; [exact W0 |]. split; [now rewrite BurstFacts.mark_codes |].
  split; [exact W2 |]. split.
  - intros r Hr. apply in_map_iff in Hr. destruct Hr as [r0 [<- Hr]].
    destruct (mark_row_fields (now_mark env) (Coupon.Code row) r0) as [_ [-> _]].
    now apply W3.
  - intros cmp Hin. destruct (W4 cmp Hin) as [H1 [H2 H3]].
    split; [exact H1 |]. split; [exact H2 |].
    rewrite filter_map_length; [exact H3 |].
    intros x. now destruct (mark_row_fields (now_mark env) (Coupon.Code row) x)
      as [_ [-> _]].
Qed.

Lemma reachable_well_formed db : reachable db -> well_formed db.
Proof.
  induction 1 as [| db r _ IH].
  - unfold well_formed. cbn. repeat split; try constructor; try lia;
      intros; contradiction.
  - destruct r as [env n d | env c | env c]; cbn [handle].
    + now apply well_formed_create.
    + exact IH.
    + now apply well_formed_issue.
Qed.

End CensusInv.

(** ** Concurrent calls: every call returns *)

Module BurstProgress.
Import Repo Service StoreView Burst StoreFacts BurstFacts BurstInv.

Lemma may_select_least cands r :
  In r (least cands) -> may_select cands (Coupon.Code r) = true.
Proof.
  intros H. unfold least in H. apply filter_In in H. destruct H as [Hin Hmin].
  unfold may_select. apply existsb_exists. exists r. split; [exact Hin |].
  now rewrite String.eqb_refl, Hmin.
Qed.

(** A call that has not returned has a next statement, whatever the other
    calls hold: the reservation skips the locked rows and does not
    wait. *)
Lemma next_total s t k :
  is_done k = false -> exists pick d p, next s t k pick = Some (d, p).
Proof.
  unfold is_done, next. intros H.
  destruct (pc k) as [| cmp | | | code | code now | r]; try discriminate.
  - exists None.
    destruct (Repo.GetCampaign false (db s) (req k)) as [cm | [] |];
      do 2 eexists; reflexivity.
  - exists None. destruct (clock s <? Campaign.StartDate cmp);
      do 2 eexists; reflexivity.
  - exists None. do 2 eexists. reflexivity.
  - destruct (candidates (locked s t) (db s) (req k)) as [| r0 l0] eqn:Ec.
    + exists None. do 2 eexists. reflexivity.
    + destruct (least (r0 :: l0)) as [| m ms] eqn:El.
      * apply (proj1 (least_nil _)) in El. discriminate El.
      * exists (Some (Coupon.Code m)).
        rewrite may_select_least by (rewrite El; now left).
        do 2 eexists. reflexivity.
  - exists None.
    destruct (MarkCouponAsIssued false false (clock s) (db s) code)
      as [tx | e |]; do 2 eexists; reflexivity.
  - exists None. do 2 eexists. reflexivity.
Qed.

Lemma step_progress s t k :
  nth_error (callers s) t = Some k -> is_done k = false ->
  exists pick s', step s (Run t pick) = Some s'.
Proof.
  intros Hk Hd. destruct (next_total s t k Hd) as [pick [d [p Hn]]].
  exists pick. cbn [step]. rewrite Hk, Hn. eexists. reflexivity.
Qed.

(** Every statement brings the call nearer to its return. *)
Lemma next_rank s t k pick d p :
  next s t k pick = Some (d, p) -> (rank p < rank (pc k))%nat.
Proof.
  unfold next. intros H.
  destruct (pc k) as [| cmp | | | code | code now | r]; cbn [rank].
  - destruct (Repo.GetCampaign false (db s) (req k)) as [cm | [] |];
      inversion H; subst; cbn [rank]; lia.
  - destruct (clock s <? Campaign.StartDate cmp);
      inversion H; subst; cbn [rank]; lia.
  - inversion H; subst; cbn [rank]; lia.
  - destruct pick as [code |].
    + destruct (may_select (candidates (locked s t) (db s) (req k)) code);
        inversion H; subst; cbn [rank]; lia.
    + destruct (candidates (locked s t) (db s) (req k));
        inversion H; subst; cbn [rank]; lia.
  - destruct (MarkCouponAsIssued false false (clock s) (db s) code)
      as [tx | e |]; inversion H; subst; cbn [rank]; lia.
  - inversion H; subst; cbn [rank]; lia.
  - discriminate.
Qed.

Lemma fault_rank k p : fault k = Some p -> (rank p < rank (pc k))%nat.
Proof.
  unfold fault. destruct (pc k); intros H; inversion H; subst; cbn [rank]; lia.
Qed.

Lemma work_app l1 l2 : work (l1 ++ l2) = (work l1 + work l2)%nat.
Proof. unfold work. now rewrite map_app, list_sum_app. Qed.

Lemma work_cons k l : work (k :: l) = (rank (pc k) + work l)%nat.
Proof. reflexivity. Qed.

Lemma work_set ks t k p :
  nth_error ks t = Some k ->
  (work (firstn t ks ++ mkCaller (req k) p :: skipn (Datatypes.S t) ks)
   + rank (pc k) = work ks + rank p)%nat.
Proof.
  intros H. pose proof (f_equal work (nth_error_split ks t k H)) as E.
  rewrite !work_app, !work_cons in *. cbn [pc] in *. lia.
Qed.

Lemma step_work s e s' :
  step s e = Some s' ->
  (work (callers s')
   + match e with Tick _ => 0 | _ => 1 end <= work (callers s))%nat.
Proof.
  intros H. destruct e as [dt | t pick | t]; cbn [step] in H.
  - destruct (dt <? 0); [discriminate |]. inversion H; subst.
    cbn [callers]. lia.
  - destruct (nth_error (callers s) t) as [k |] eqn:Hk; [| discriminate].
    destruct (next s t k pick) as [[d p] |] eqn:Hn; [| discriminate].
    inversion H; subst. cbn [set_pc callers].
    pose proof (work_set _ _ _ p Hk). pose proof (next_rank _ _ _ _ _ _ Hn).
    lia.
  - destruct (nth_error (callers s) t) as [k |] eqn:Hk; [| discriminate].
    destruct (fault k) as [p |] eqn:Hf; [| discriminate].
    inversion H; subst. cbn [set_pc callers].
    pose proof (work_set _ _ _ p Hk). pose proof (fault_rank _ _ Hf).
    lia.
Qed.

(** A run holds no more moves than the calls had statements before
    them. *)
Lemma run_work evs : forall s s',
  run s evs = Some s' ->
  (moves evs + work (callers s') <= work (callers s))%nat.
Proof.
  induction evs as [| e evs IH]; intros s s' H; cbn [run] in H.
  - inversion H; subst. cbn. lia.
  - destruct (step s e) as [s1 |] eqn:Hs; [| discriminate].
    pose proof (step_work _ _ _ Hs). pose proof (IH _ _ H).
    unfold moves in *. cbn [filter].
    destruct e; cbn [List.length] in *; lia.
Qed.

Lemma start_work db0 now0 reqs :
  work (callers (start db0 now0 reqs)) = (6 * List.length reqs)%nat.
Proof.
  unfold start. cbn [callers].
  induction reqs as [| r l IH]; [reflexivity |].
  cbn [map List.length]. rewrite work_cons, IH. cbn [pc rank]. lia.
Qed.

Lemma not_all_done ks :
  forallb is_done ks = false ->
  exists t k, nth_error ks t = Some k /\ is_done k = false.
Proof.
  induction ks as [| k ks IH]; [discriminate |].
  cbn [forallb]. destruct (is_done k) eqn:Hd; cbn [andb].
  - intros H. destruct (IH H) as [t [k' [H1 H2]]].
    exists (Datatypes.S t), k'. split; assumption.
  - intros _. exists 0%nat, k. split; [reflexivity | exact Hd].
Qed.

(** From every state the calls that have not returned can be run to their
    return, with no storage failure. *)
Lemma run_complete : forall n s,
  (work (callers s) <= n)%nat ->
  exists rest s',
    faultless rest = true /\ run s rest = Some s' /\
    forallb is_done (callers s') = true.
Proof.
  induction n as [| n IH]; intros s Hw;
    destruct (forallb is_done (callers s)) eqn:Hd;
    try (exists [], s; repeat split; assumption).
  - destruct (not_all_done _ Hd) as [t [k [Hk Hnd]]].
    destruct (step_progress s t k Hk Hnd) as [pick [s1 Hs]].
    pose proof (step_work _ _ _ Hs). cbn in H. lia.
  - destruct (not_all_done _ Hd) as [t [k [Hk Hnd]]].
    destruct (step_progress s t k Hk Hnd) as [pick [s1 Hs]].
    pose proof (step_work _ _ _ Hs) as Hlt. cbn in Hlt.
    destruct (IH s1) as [rest [s' [H1 [H2 H3]]]]; [lia |].
    exists (Run t pick :: rest), s'.
    split; [exact H1 |]. split; [| exact H3].
    cbn [run]. rewrite Hs. exact H2.
Qed.

(** A statement does not make a call on [c] answer Internal unless a
    storage call of that call fails: the campaign is found, and the row a
    call has reserved is still Available when the call marks it. *)
Lemma step_no_internal db0 now0 reqs c camp s e s' :
  lookup db0 c = Some camp ->
  Inv db0 now0 reqs c (db s) (clock s) (callers s) ->
  (forall k, In k (callers s) -> req k = c ->
             ended_with CodeInternal k = false) ->
  spared c reqs [e] = true ->
  step s e = Some s' ->
  forall k, In k (callers s') -> req k = c ->
            ended_with CodeInternal k = false.
Proof.
  intros Hl HI HJ He H. destruct e as [dt | t pick | t]; cbn [step] in H.
  - destruct (dt <? 0); [discriminate |]. inversion H; subst. exact HJ.
  - destruct (nth_error (callers s) t) as [k |] eqn:Hk; [| discriminate].
    destruct (next s t k pick) as [[d p] |] eqn:Hn; [| discriminate].
    inversion H; subst. cbn [set_pc callers]. clear H.
    pose proof (nth_error_split _ _ _ Hk) as Hsplit.
    pose proof (nth_error_In _ _ Hk) as Hkin.
    intros k' Hin Hc. apply in_app_or in Hin.
    destruct Hin as [Hin | [<- | Hin]].
    + apply HJ; [| exact Hc]. rewrite Hsplit. apply in_or_app. now left.
    + cbn [req] in Hc. unfold ended_with. cbn [pc].
      unfold next in Hn.
      destruct (pc k) as [| cmp | | | code | code now | r] eqn:Epc.
      * unfold Repo.GetCampaign in Hn.
        rewrite (inv_camps HI), Hc in Hn. unfold lookup in Hl.
        rewrite Hl in Hn. now inversion Hn.
      * destruct (clock s <? Campaign.StartDate cmp); now inversion Hn.
      * now inversion Hn.
      * destruct pick as [code |].
        -- destruct (may_select (candidates (locked s t) (db s) (req k)) code);
             now inversion Hn.
        -- destruct (candidates (locked s t) (db s) (req k));
             now inversion Hn.
      * destruct (inv_rows _ _ _ _ _ _ _ HI k code Hkin) as [row [R1 [R2 [_ R4]]]].
        { unfold holds. rewrite Epc. now left. }
        unfold MarkCouponAsIssued in Hn.
        assert (Hra : rows_affected code (coupons (db s)) <> 0%nat).
        { unfold rows_affected. intros Hz. apply length_zero_iff_nil in Hz.
          assert (Hi : In row (filter
                         (fun r => String.eqb (Coupon.Code r) code
                                   && status_eqb (Coupon.Status r) Available)
                         (coupons (db s)))).
          { apply filter_In. split; [exact R1 |].
            rewrite R2, R4, String.eqb_refl. reflexivity. }
          rewrite Hz in Hi. contradiction. }
        apply Nat.eqb_neq in Hra. rewrite Hra in Hn. now inversion Hn.
      * now inversion Hn.
      * discriminate.
    + apply HJ; [| exact Hc]. rewrite Hsplit. apply in_or_app. right. now right.
  - destruct (nth_error (callers s) t) as [k |] eqn:Hk; [| discriminate].
    destruct (fault k) as [p |] eqn:Hf; [| discriminate].
    inversion H; subst. cbn [set_pc callers]. clear H.
    pose proof (nth_error_split _ _ _ Hk) as Hsplit.
    assert (Hr : nth_error reqs t = Some (req k)).
    { rewrite <- (inv_reqs _ _ _ _ _ _ _ HI), nth_error_map, Hk. reflexivity. }
    cbn [spared forallb] in He. rewrite Hr, andb_true_r in He.
    apply negb_true_iff, Z.eqb_neq in He.
    intros k' Hin Hc. apply in_app_or in Hin.
    destruct Hin as [Hin | [<- | Hin]].
    + apply HJ; [| exact Hc]. rewrite Hsplit. apply in_or_app. now left.
    + cbn [req] in Hc. contradiction.
    + apply HJ; [| exact Hc]. rewrite Hsplit. apply in_or_app. right. now right.
Qed.

Lemma run_no_internal db0 now0 reqs c camp evs : forall s s',
  lookup db0 c = Some camp ->
  Campaign.StartDate camp <= now0 ->
  Inv db0 now0 reqs c (db s) (clock s) (callers s) ->
  (forall k, In k (callers s) -> req k = c ->
             ended_with CodeInternal k = false) ->
  spared c reqs evs = true ->
  run s evs = Some s' ->
  forall k, In k (callers s') -> req k = c ->
            ended_with CodeInternal k = false.
Proof.
  induction evs as [| e evs IH]; intros s s' Hl Hst HI HJ Hf H; cbn [run] in H.
  - inversion H; subst. exact HJ.
  - destruct (step s e) as [s1 |] eqn:Hs; [| discriminate].
    cbn [spared forallb] in Hf. apply andb_true_iff in Hf.
    destruct Hf as [He Hf].
    apply (IH s1 s' Hl Hst); [| | exact Hf | exact H].
    + now apply (step_inv db0 now0 reqs c camp Hl Hst s e).
    + apply (step_no_internal db0 now0 reqs c camp s e s1 Hl HI HJ);
        [| exact Hs].
      cbn [spared forallb]. now rewrite He.
Qed.

End BurstProgress.

(** ** The claims on the code generator *)

Module GeneratorClaims.
Import Wire CodeGen Shape GenFacts.

Lemma distinct_NoDup l : distinct l = true -> NoDup l.
Proof.
  induction l as [| x r IH]; intros H; [constructor |].
  cbn [distinct] in H. apply andb_true_iff in H. destruct H as [Hx Hr].
  constructor; [| now apply IH].
  intros Hin. apply negb_true_iff in Hx.
  assert (Ht : existsb (Z.eqb x) r = true).
  { apply existsb_exists. exists x. split; [exact Hin | apply Z.eqb_refl]. }
  congruence.
Qed.

(** C3.  For every campaign identifier and every index the generator
    returns a code, and the code is the encoding of ten symbols: a symbol
    of the 10-symbol digit set, then a symbol of the 28-symbol syllable
    set, then eight symbols of the combined pool of 38 distinct symbols.
    No other symbol occurs, and the string counts ten runes. *)
Theorem code_format : forall campaignID couponIndex : Z,
  exists d s body,
    generateSecureCoupon campaignID couponIndex
      = Ok (Utf8.of_runes (d :: s :: body)) /\
    In d digits /\ In s hanguls /\
    List.length body = 8%nat /\ Forall (fun r => In r pool) body /\
    Utf8.rune_count (Utf8.of_runes (d :: s :: body)) = 10%nat /\
    List.length digits = 10%nat /\ List.length hanguls = 28%nat /\
    List.length pool = 38%nat /\ NoDup pool.
Proof.
  intros c i.
  destruct (generateSecureCoupon_runes c i) as [out [_ [_ [_ E]]]].
  destruct (runes_from_format out) as [d [s [body [R [Hd [Hs [Hl Hb]]]]]]].
  exists d, s, body. rewrite E, R.
  split; [reflexivity |]. split; [exact Hd |]. split; [exact Hs |].
  split; [exact Hl |]. split; [exact Hb |].
  split.
  - rewrite rune_count_pool.
    + cbn [List.length]. now rewrite Hl.
    + constructor; [apply in_or_app; now left |].
      constructor; [apply in_or_app; now right | exact Hb].
  - repeat split; try reflexivity.
    apply distinct_NoDup. vm_compute. reflexivity.
Qed.

(** C4.  For every campaign identifier and every index below 2^64 the
    code is the one the algorithm of the specification gives: the block
    with upper half 0 and lower half (campaignSequence << 32) | index, one
    block of the cipher under the 16-byte campaign key, the leading digit
    and syllable from output bytes 0 and 1 modulo 10 and 28, and the body
    from the base-38 digits of output bytes 8..16 read big-endian. *)
Theorem generator_follows_algorithm : forall campaignID index : Z,
  0 <= index < 2 ^ 64 ->
  exists key,
    @generateCampaignKey GenError campaignID = Ok key /\
    List.length key = 16%nat /\
    generateSecureCoupon campaignID index
      = Ok (Utf8.of_runes
              (GenerateSpec.generate (AES.encrypt_block key) campaignID index)).
Proof.
  intros c i Hi.
  destruct (generateSecureCoupon_runes c i) as [out [Hout [Hlen [Hb E]]]].
  exists (key_of c).
  split; [apply generateCampaignKey_eq |].
  split; [apply (key_of_block c) |].
  rewrite E. do 2 f_equal. symmetry.
  rewrite cipher_of_eq in Hout.
  now apply generate_runes_from.
Qed.

Lemma generator_follows_algorithm_witness :
  exists key,
    @generateCampaignKey GenError 1 = Ok key /\
    List.length key = 16%nat /\
    generateSecureCoupon 1 0
      = Ok (Utf8.of_runes (GenerateSpec.generate (AES.encrypt_block key) 1 0)).
Proof. apply (generator_follows_algorithm 1 0). lia. Defined.

(** C5, as stated, fails: the identifiers 1 and 32769 are distinct and
    derive the same key. *)
Lemma key_derivation_not_injective :
  ~ (forall c1 c2 : Z,
       c1 <> c2 ->
       @generateCampaignKey GenError c1 <> generateCampaignKey c2).
Proof.
  intros H. apply (H 1 32769); [lia |]. vm_compute. reflexivity.
Qed.

(** C5, amended.  The key is a function of the low 15 bits of the
    identifier: two identifiers derive the same 16-byte key exactly when
    they are equal modulo 2^15. *)
Theorem key_determined_by_low_15_bits : forall c1 c2 : Z,
  @generateCampaignKey GenError c1 = generateCampaignKey c2
  <-> c1 mod 2 ^ 15 = c2 mod 2 ^ 15.
Proof.
  intros c1 c2. rewrite !generateCampaignKey_eq, <- key_of_eq_iff.
  split; [intros H | intros ->; reflexivity].
  exact (f_equal (fun r => match r with Ok k => k | _ => [] end) H).
Qed.

End GeneratorClaims.

(** ** The claims on the store and on the service *)

Module StoreClaims.
Import Repo Service StoreView StoreFacts ServiceFacts InvariantFacts.

Lemma sample_db_reachable : reachable sample_db.
Proof. apply reach_step, reach_empty. Qed.

Lemma sample_db_rows :
  exists code rest,
    coupons sample_db = Coupon.mk code 1 Available (Some 12) 11 :: rest.
Proof. do 2 eexists. vm_compute. reflexivity. Qed.

(** C2, as stated, fails: after a campaign is created, its first
    coupon is Available and has [issued_at] set. *)
Lemma issued_at_set_on_available_coupon :
  ~ (forall db, reachable db ->
       forall r, In r (coupons db) ->
         (Coupon.IssuedAt r <> None <-> Coupon.Status r = Issued)).
Proof.
  intros H. destruct sample_db_rows as [code [rest E]].
  specialize (H sample_db sample_db_reachable
                (Coupon.mk code 1 Available (Some 12) 11)).
  rewrite E in H. specialize (H (or_introl eq_refl)).
  cbn in H. destruct H as [H _].
  assert (Hs : Available = Issued) by (apply H; discriminate).
  discriminate Hs.
Qed.

(** C2, amended.  In every reachable state every coupon row has
    [issued_at] set.  Creation writes Available coupons whose [issued_at]
    is the default of the column, the time of the creating transaction;
    the transition to Issued overwrites it with the time of issuance. *)
Theorem issued_at_always_set : forall db, reachable db ->
  (forall r, In r (coupons db) -> exists t, Coupon.IssuedAt r = Some t) /\
  (forall r, In r (coupons db) ->
             Coupon.Status r = Issued -> Coupon.IssuedAt r <> None) /\
  (forall env n d db' m,
      CreateCampaign env n d db = (db', Ok m) ->
      forall r, In r (coupons db') -> Coupon.CampaignID r = Id m ->
                Coupon.Status r = Available /\
                Coupon.IssuedAt r = Some (create_tx_now env)) /\
  (forall env c db' m,
      IssueCoupon env c db = (db', Ok m) ->
      exists r, In r (coupons db') /\ Coupon.Code r = Code_ m /\
                Coupon.Status r = Issued /\
                Coupon.IssuedAt r = Some (now_mark env)).
Proof.
  intros db Hr. pose proof (reachable_invariant db Hr) as Inv.
  destruct Inv as [I1 [I2 I3]].
  split; [| split; [| split]].
  - intros r Hin. specialize (I3 r Hin).
    destruct (Coupon.IssuedAt r) as [t |]; [now exists t | contradiction].
  - intros r Hin _. now apply I3.
  - intros env n d db' m H r Hin Hc.
    apply CreateCampaign_ok in H. destruct H as [codes [_ [_ [_ [-> ->]]]]].
    cbn [Id] in Hc.
    destruct (created_pool env n d db codes r (conj I1 (conj I2 I3)) Hin Hc)
      as [Hs [Hi _]]. auto.
  - intros env c db' m H.
    apply IssueCoupon_ok in H.
    destruct H as [camp [row [_ [_ [Hin [_ [Hs [-> ->]]]]]]]].
    exists (mark_row (now_mark env) (Coupon.Code row) row). cbn [coupons Code_].
    split; [now apply in_map |].
    destruct (mark_row_fields (now_mark env) (Coupon.Code row) row)
      as [Hc _]. split; [exact Hc |].
    unfold mark_row. rewrite String.eqb_refl, Hs. cbn. auto.
Qed.

Lemma issued_at_always_set_witness :
  (forall r, In r (coupons sample_db) ->
             exists t, Coupon.IssuedAt r = Some t) /\
  (forall r, In r (coupons sample_db) ->
             Coupon.Status r = Issued -> Coupon.IssuedAt r <> None) /\
  (forall env n d db' m,
      CreateCampaign env n d sample_db = (db', Ok m) ->
      forall r, In r (coupons db') -> Coupon.CampaignID r = Id m ->
                Coupon.Status r = Available /\
                Coupon.IssuedAt r = Some (create_tx_now env)) /\
  (forall env c db' m,
      IssueCoupon env c sample_db = (db', Ok m) ->
      exists r, In r (coupons db') /\ Coupon.Code r = Code_ m /\
                Coupon.Status r = Issued /\
                Coupon.IssuedAt r = Some (now_mark env)).
Proof.
  apply (issued_at_always_set sample_db).
  apply reach_step, reach_empty.
Defined.

(** C7.  [CreateCampaign] is all or nothing.  When it answers with a
    campaign, no storage call has failed, and the store has gained the
    campaign row and one Available coupon row for each of the
    [availableCoupons] generated codes, whatever the number of batches.
    In every other case (an error at the begin, at the insertion of the
    campaign, in a batch, at the commit, or a panic) the rows of both
    tables are those from before the call. *)
Theorem createCampaign_atomic : forall env availableCoupons startDate db,
  match CreateCampaign env availableCoupons startDate db with
  | (db', Ok m) =>
      exists codes,
        create_faultless env availableCoupons /\
        0 <= availableCoupons /\
        List.length codes = Z.to_nat availableCoupons /\
        db' = created env availableCoupons startDate db codes /\
        m = mkCampaignMsg (campaigns_id_seq db) availableCoupons startDate []
  | (db', _) => campaigns db' = campaigns db /\ coupons db' = coupons db
  end.
Proof.
  intros env n d db.
  destruct (CreateCampaign_cases env n d db)
    as [[codes [H1 [H2 [H3 [_ E]]]]] | [E1 [E2 [_ E]]]].
  - rewrite E. exists codes. auto.
  - destruct (CreateCampaign env n d db) as [db' [m | e |]]; cbn [fst snd] in *;
      auto. now specialize (E m).
Qed.

(** C9, as stated, fails: with [availableCoupons = -1] and no storage
    fault the call does not succeed. *)
Lemma negative_count_does_not_succeed :
  ~ (forall env availableCoupons startDate db,
       availableCoupons <= 0 -> create_faultless env availableCoupons ->
       exists m, snd (CreateCampaign env availableCoupons startDate db) = Ok m).
Proof.
  intros H.
  destruct (H (create_env 10 11 12) (-1) 0 empty_db) as [m Hm]; [lia | |].
  - repeat split; reflexivity.
  - vm_compute in Hm. discriminate Hm.
Qed.

(** C9, amended.  A request for zero coupons with no failing storage call
    is not refused: it succeeds, the campaign row stores 0, and no coupon
    row is written, the generation loop running zero times. *)
Theorem zero_count_creates_empty_campaign : forall env startDate db,
  create_faultless env 0 ->
  generate_codes (campaigns_id_seq db) 0 = Ok [] /\
  CreateCampaign env 0 startDate db
  = (mkDB (campaigns db
             ++ [Campaign.mk (campaigns_id_seq db) 0 startDate
                   (now_campaign env) (now_campaign env)])
          (coupons db) (campaigns_id_seq db + 1),
     Ok (mkCampaignMsg (campaigns_id_seq db) 0 startDate [])).
Proof.
  intros env d db [Fb [Fi [Fc _]]]. split; [reflexivity |].
  unfold CreateCampaign, Repo.CreateCampaign. rewrite Fb, Fi.
  unfold create_pool. cbn [Campaign.ID Campaign.AvailableCoupons].
  change (generate_codes (campaigns_id_seq db) 0) with (@Ok Code (list string) []).
  cbn [bind]. unfold CreatePregeneratedCoupons. cbn [List.length].
  change ((0 + batchSize - 1) / batchSize)%nat with 0%nat.
  cbn [for_up]. rewrite Fc. cbn [Campaign.ID Campaign.AvailableCoupons Campaign.StartDate].
  reflexivity.
Qed.

Lemma zero_count_creates_empty_campaign_witness :
  generate_codes (campaigns_id_seq empty_db) 0 = Ok [] /\
  CreateCampaign (create_env 10 11 12) 0 5 empty_db
  = (mkDB (campaigns empty_db
             ++ [Campaign.mk (campaigns_id_seq empty_db) 0 5
                   (now_campaign (create_env 10 11 12))
                   (now_campaign (create_env 10 11 12))])
          (coupons empty_db) (campaigns_id_seq empty_db + 1),
     Ok (mkCampaignMsg (campaigns_id_seq empty_db) 0 5 [])).
Proof.
  apply (zero_count_creates_empty_campaign (create_env 10 11 12) 5 empty_db).
  repeat split; reflexivity.
Defined.

(** C10.  The coupon rows of a campaign are written with one [created_at]:
    the time read once by the creating call, whatever the number of
    batches.  Hence in every reachable state two coupons of one campaign
    have equal [created_at], and the oldest-first order of the
    reservation query does not tell them apart: every row the query can
    select has the least [created_at], and each of them is a row
    [ReserveAvailableCoupon] may return. *)
Theorem coupons_share_created_at : forall db, reachable db ->
  (forall env n d db' m,
      CreateCampaign env n d db = (db', Ok m) ->
      forall r, In r (coupons db') -> Coupon.CampaignID r = Id m ->
                Coupon.CreatedAt r = now_coupons env) /\
  (forall r1 r2, In r1 (coupons db) -> In r2 (coupons db) ->
                 Coupon.CampaignID r1 = Coupon.CampaignID r2 ->
                 Coupon.CreatedAt r1 = Coupon.CreatedAt r2) /\
  (forall locked c,
      least (candidates locked db c) = candidates locked db c) /\
  (forall locked c r,
      In r (candidates locked db c) ->
      exists tie,
        ReserveAvailableCoupon false tie locked db c = Ok (Coupon.Code r)).
Proof.
  intros db Hr. pose proof (reachable_invariant db Hr) as Inv.
  assert (Hall : forall locked c,
            least (candidates locked db c) = candidates locked db c).
  { intros locked c. unfold least. apply CensusInv.filter_all.
    intros r1 H1. apply forallb_forall. intros r2 H2. apply Z.leb_le.
    unfold candidates in H1, H2.
    apply filter_In in H1. apply filter_In in H2.
    destruct H1 as [H1 C1], H2 as [H2 C2].
    apply andb_true_iff in C1. destruct C1 as [C1 _].
    apply andb_true_iff in C1. destruct C1 as [C1 _].
    apply andb_true_iff in C2. destruct C2 as [C2 _].
    apply andb_true_iff in C2. destruct C2 as [C2 _].
    apply Z.eqb_eq in C1. apply Z.eqb_eq in C2.
    destruct Inv as [_ [I2 _]].
    rewrite (I2 r1 r2 H1 H2) by congruence. lia. }
  split; [| split; [| split]].
  - intros env n d db' m H r Hin Hc.
    apply CreateCampaign_ok in H. destruct H as [codes [_ [_ [_ [-> ->]]]]].
    cbn [Id] in Hc.
    now destruct (created_pool env n d db codes r Inv Hin Hc) as [_ [_ Ht]].
  - apply Inv.
  - exact Hall.
  - intros locked c r Hin. rewrite <- Hall in Hin.
    destruct (oldest_any _ _ Hin) as [tie Ht]. exists tie.
    unfold ReserveAvailableCoupon. now rewrite Ht.
Qed.

Lemma coupons_share_created_at_witness :
  ((forall env n d db' m,
       CreateCampaign env n d sample_db = (db', Ok m) ->
       forall r, In r (coupons db') -> Coupon.CampaignID r = Id m ->
                 Coupon.CreatedAt r = now_coupons env) /\
   (forall r1 r2, In r1 (coupons sample_db) -> In r2 (coupons sample_db) ->
                  Coupon.CampaignID r1 = Coupon.CampaignID r2 ->
                  Coupon.CreatedAt r1 = Coupon.CreatedAt r2) /\
   (forall locked c,
       least (candidates locked sample_db c) = candidates locked sample_db c) /\
   (forall locked c r,
       In r (candidates locked sample_db c) ->
       exists tie,
         ReserveAvailableCoupon false tie locked sample_db c
         = Ok (Coupon.Code r))) /\
  exists r1 r2 r3,
    coupons sample_db = [r1; r2; r3] /\
    Coupon.Code r1 <> Coupon.Code r2 /\ Coupon.Code r2 <> Coupon.Code r3 /\
    Coupon.Code r1 <> Coupon.Code r3 /\
    ReserveAvailableCoupon false 0 (fun _ => false) sample_db 1
    = Ok (Coupon.Code r1) /\
    ReserveAvailableCoupon false 1 (fun _ => false) sample_db 1
    = Ok (Coupon.Code r2) /\
    ReserveAvailableCoupon false 2 (fun _ => false) sample_db 1
    = Ok (Coupon.Code r3).
Proof.
  split.
  - apply (coupons_share_created_at sample_db).
    apply reach_step, reach_empty.
  - do 3 eexists. split; [vm_compute; reflexivity |].
    repeat split; try (vm_compute; reflexivity); vm_compute; discriminate.
Defined.

End StoreClaims.

Module ReadIssueClaims.
Import Repo Service StoreView StoreFacts ServiceFacts InvariantFacts.

(** C6.  [IssueCoupon] checks, in this order and before it marks any
    coupon: that the campaign exists (else NotFound), that it has started
    (else FailedPrecondition), that an Available coupon can be selected
    (else ResourceExhausted).  Each of these answers, and every answer
    that is not a coupon, leaves the store as it was; a coupon is only
    answered for an existing, started campaign with an Available coupon. *)
Theorem issueCoupon_checks_in_order : forall env campaignId db,
  (issue_get_fails env = false -> lookup db campaignId = None ->
   IssueCoupon env campaignId db = (db, Error CodeNotFound)) /\
  (forall campaign,
     issue_get_fails env = false -> lookup db campaignId = Some campaign ->
     now_check env < Campaign.StartDate campaign ->
     IssueCoupon env campaignId db = (db, Error CodeFailedPrecondition)) /\
  (forall campaign,
     issue_get_fails env = false -> lookup db campaignId = Some campaign ->
     Campaign.StartDate campaign <= now_check env ->
     issue_begin_fails env = false -> issue_reserve_fails env = false ->
     candidates (fun _ => false) db campaignId = [] ->
     IssueCoupon env campaignId db = (db, Error CodeResourceExhausted)) /\
  (forall db' r,
     IssueCoupon env campaignId db = (db', r) ->
     (forall m, r <> Ok m) -> db' = db) /\
  (forall db' m,
     IssueCoupon env campaignId db = (db', Ok m) ->
     exists campaign row,
       lookup db campaignId = Some campaign /\
       Campaign.StartDate campaign <= now_check env /\
       In row (coupons db) /\ Coupon.CampaignID row = campaignId /\
       Coupon.Status row = Available /\ Code_ m = Coupon.Code row).
Proof.
  intros env c db. unfold lookup.
  split; [| split; [| split; [| split]]].
  - intros Fg Hf. unfold IssueCoupon, Repo.GetCampaign. now rewrite Fg, Hf.
  - intros camp Fg Hf Hlt. unfold IssueCoupon, Repo.GetCampaign.
    rewrite Fg, Hf. destruct (Z.ltb_spec (now_check env) (Campaign.StartDate camp));
      [reflexivity | lia].
  - intros camp Fg Hf Hge Fb Fr Hc. unfold IssueCoupon, Repo.GetCampaign.
    rewrite Fg, Hf. destruct (Z.ltb_spec (now_check env) (Campaign.StartDate camp));
      [lia |].
    rewrite Fb. unfold ReserveAvailableCoupon.
    rewrite Fr, (proj2 (oldest_none (issue_tie env) _) Hc). reflexivity.
  - intros db' r H Hr.
    destruct (IssueCoupon_cases env c db)
      as [[camp [row [_ [_ [_ [_ [_ E]]]]]]] | [E _]].
    + rewrite E in H. inversion H; subst. now specialize (Hr (mkCouponMsg (Coupon.Code row) c)).
    + rewrite H in E. exact E.
  - intros db' m H. apply IssueCoupon_ok in H.
    destruct H as [camp [row [H1 [H2 [H3 [H4 [H5 [_ ->]]]]]]]].
    exists camp, row. auto 10.
Qed.

Lemma issueCoupon_checks_in_order_witness :
  IssueCoupon (issue_env 20 21) 7 sample_db = (sample_db, Error CodeNotFound) /\
  IssueCoupon (issue_env (-1) 21) 1 sample_db
  = (sample_db, Error CodeFailedPrecondition) /\
  IssueCoupon (issue_env 20 21) 1
    (handle (ReqCreate (create_env 10 11 12) 0 0) empty_db)
  = (handle (ReqCreate (create_env 10 11 12) 0 0) empty_db,
     Error CodeResourceExhausted).
Proof.
  split; [| split].
  - apply (issueCoupon_checks_in_order (issue_env 20 21) 7 sample_db);
      vm_compute; reflexivity.
  - apply (proj1 (proj2 (issueCoupon_checks_in_order (issue_env (-1) 21) 1
                           sample_db)) (Campaign.mk 1 3 0 10 10));
      vm_compute; reflexivity.
  - apply (proj1 (proj2 (proj2 (issueCoupon_checks_in_order (issue_env 20 21) 1
                    (handle (ReqCreate (create_env 10 11 12) 0 0) empty_db))))
             (Campaign.mk 1 0 0 10 10));
      vm_compute; try reflexivity; discriminate.
Defined.

Lemma issued_le_total a b : issued_le a b = false -> issued_le b a = true.
Proof.
  destruct a as [x |], b as [y |]; cbn; try discriminate; try reflexivity.
  intros H. apply Z.leb_gt in H. apply Z.leb_le. lia.
Qed.

Lemma issued_le_trans a b c :
  issued_le a b = true -> issued_le b c = true -> issued_le a c = true.
Proof.
  destruct a as [x |], b as [y |], c as [z |]; cbn; try discriminate;
    try reflexivity.
  intros H1 H2. apply Z.leb_le in H1. apply Z.leb_le in H2. apply Z.leb_le. lia.
Qed.

Lemma insert_perm r l : Permutation (insert_by_issued_at r l) (r :: l).
Proof.
  induction l as [| x l IH]; cbn [insert_by_issued_at]; [reflexivity |].
  destruct (issued_le (Coupon.IssuedAt r) (Coupon.IssuedAt x)); [reflexivity |].
  rewrite IH. apply perm_swap.
Qed.

Lemma order_perm l : Permutation (order_by_issued_at l) l.
Proof.
  induction l as [| x l IH]; cbn; [reflexivity |].
  unfold order_by_issued_at in *. cbn [fold_right].
  rewrite insert_perm. now constructor.
Qed.

Lemma issued_le_order a b :
  issued_le (Coupon.IssuedAt a) (Coupon.IssuedAt b) = true <-> by_issued_at a b.
Proof.
  unfold by_issued_at, issued_le.
  destruct (Coupon.IssuedAt a) as [x |], (Coupon.IssuedAt b) as [y |];
    try tauto.
  - apply Z.leb_le.
  - split; [discriminate | contradiction].
Qed.

Lemma insert_sorted r l :
  StronglySorted by_issued_at l ->
  StronglySorted by_issued_at (insert_by_issued_at r l).
Proof.
  induction 1 as [| x l Hs IH Hx]; cbn [insert_by_issued_at].
  - repeat constructor.
  - destruct (issued_le (Coupon.IssuedAt r) (Coupon.IssuedAt x)) eqn:Hle.
    + constructor; [now constructor |].
      constructor; [now apply issued_le_order |].
      rewrite Forall_forall in *. intros y Hy.
      apply issued_le_order. eapply issued_le_trans; [exact Hle |].
      apply issued_le_order. now apply Hx.
    + constructor; [exact IH |].
      apply issued_le_total in Hle.
      rewrite Forall_forall in *. intros y Hy.
      apply (Permutation_in _ (insert_perm r l)) in Hy.
      destruct Hy as [<- | Hy]; [now apply issued_le_order | now apply Hx].
Qed.

Lemma order_sorted l : StronglySorted by_issued_at (order_by_issued_at l).
Proof.
  induction l as [| x l IH]; [constructor |].
  unfold order_by_issued_at in *. cbn [fold_right]. now apply insert_sorted.
Qed.

Lemma issue_times_in rows t :
  In t (issue_times rows) ->
  exists r, In r rows /\ Coupon.IssuedAt r = Some t.
Proof.
  unfold issue_times. rewrite in_flat_map. intros [r [Hr Ht]].
  exists r. split; [exact Hr |].
  destruct (Coupon.IssuedAt r) as [t' |]; [| contradiction].
  destruct Ht as [-> | []]. reflexivity.
Qed.

Lemma sorted_times rows :
  StronglySorted by_issued_at rows -> StronglySorted Z.le (issue_times rows).
Proof.
  induction 1 as [| r l Hs IH Hr]; [constructor |].
  unfold issue_times in *. cbn [flat_map].
  destruct (Coupon.IssuedAt r) as [t |] eqn:Et; [| exact IH].
  cbn [app]. constructor; [exact IH |].
  apply Forall_forall. intros t' Ht'.
  destruct (issue_times_in l t' Ht') as [r' [Hin Et']].
  rewrite Forall_forall in Hr. specialize (Hr r' Hin).
  unfold by_issued_at in Hr. now rewrite Et, Et' in Hr.
Qed.

(** C8.  [GetCampaign] answers NotFound for a campaign that does not
    exist.  For one that exists it answers the campaign and the codes of
    exactly the coupons of that campaign in status Issued, each once,
    in non-decreasing order of [issued_at]: of two listed coupons the one
    listed first was not issued after the other, and the times of
    issuance, read along the list, never decrease. *)
Theorem getCampaign_issued_codes : forall env campaignId db,
  (get_campaign_fails env = false -> lookup db campaignId = None ->
   GetCampaign env campaignId db = Error CodeNotFound) /\
  (forall campaign,
     get_campaign_fails env = false -> get_select_fails env = false ->
     lookup db campaignId = Some campaign ->
     exists rows,
       GetCampaign env campaignId db
       = Ok (mkCampaignMsg (Campaign.ID campaign)
               (Campaign.AvailableCoupons campaign)
               (Campaign.StartDate campaign) (map Coupon.Code rows)) /\
       Campaign.ID campaign = campaignId /\
       Permutation rows (issued_rows db campaignId) /\
       (forall r, In r rows <->
                  In r (coupons db) /\ Coupon.CampaignID r = campaignId /\
                  Coupon.Status r = Issued) /\
       StronglySorted by_issued_at rows /\
       StronglySorted Z.le (issue_times rows)).
Proof.
  intros env c db. unfold lookup. split.
  - intros Fg Hf. unfold GetCampaign, GetCampaignWithCoupons, Repo.GetCampaign.
    now rewrite Fg, Hf.
  - intros camp Fg Fs Hf.
    exists (order_by_issued_at (issued_rows db c)).
    split; [| split; [| split; [| split; [| split]]]].
    + unfold GetCampaign, GetCampaignWithCoupons, Repo.GetCampaign.
      rewrite Fg, Hf. cbn [bind]. now rewrite Fs.
    + apply find_some in Hf. destruct Hf as [_ Hf]. now apply Z.eqb_eq in Hf.
    + apply order_perm.
    + intros r. split.
      * intros Hr. apply (Permutation_in _ (order_perm _)) in Hr.
        unfold issued_rows in Hr. apply filter_In in Hr. destruct Hr as [Hr Hc].
        apply andb_true_iff in Hc. destruct Hc as [Hc Hs].
        apply Z.eqb_eq in Hc. split; [exact Hr |]. split; [exact Hc |].
        destruct (Coupon.Status r); [discriminate | reflexivity].
      * intros [Hr [Hc Hs]].
        apply (Permutation_in _ (Permutation_sym (order_perm _))).
        unfold issued_rows. apply filter_In. split; [exact Hr |].
        rewrite Hs. apply andb_true_iff. split; [now apply Z.eqb_eq | reflexivity].
    + apply order_sorted.
    + apply sorted_times, order_sorted.
Qed.

Lemma getCampaign_issued_codes_witness :
  GetCampaign (mkGetEnv false false) 7 sample_db = Error CodeNotFound /\
  (exists r1 r2 r3,
     coupons (handle (ReqIssue (issue_env 20 21) 1)
                (handle (ReqIssue (issue_env 20 30) 1) sample_db))
     = [r1; r2; r3] /\
     Coupon.IssuedAt r1 = Some 30 /\ Coupon.Status r1 = Issued /\
     Coupon.IssuedAt r2 = Some 21 /\ Coupon.Status r2 = Issued /\
     Coupon.Status r3 = Available /\
     GetCampaign (mkGetEnv false false) 1
       (handle (ReqIssue (issue_env 20 21) 1)
          (handle (ReqIssue (issue_env 20 30) 1) sample_db))
     = Ok (mkCampaignMsg 1 3 0 [Coupon.Code r2; Coupon.Code r1])) /\
  exists rows,
    GetCampaign (mkGetEnv false false) 1
      (handle (ReqIssue (issue_env 20 21) 1)
         (handle (ReqIssue (issue_env 20 30) 1) sample_db))
    = Ok (mkCampaignMsg 1 3 0 (map Coupon.Code rows)) /\
    List.length rows = 2%nat /\
    StronglySorted by_issued_at rows /\
    StronglySorted Z.le (issue_times rows).
Proof.
  split; [| split].
  - apply (getCampaign_issued_codes (mkGetEnv false false) 7 sample_db);
      vm_compute; reflexivity.
  - do 3 eexists. split; [vm_compute; reflexivity |].
    repeat split; vm_compute; reflexivity.
  - destruct (proj2 (getCampaign_issued_codes (mkGetEnv false false) 1
                       (handle (ReqIssue (issue_env 20 21) 1)
                          (handle (ReqIssue (issue_env 20 30) 1) sample_db)))
                (Campaign.mk 1 3 0 10 10) eq_refl eq_refl)
      as [rows [E [_ [P [_ [S1 S2]]]]]]; [vm_compute; reflexivity |].
    exists rows. split; [exact E |].
    split; [rewrite (Permutation_length P); vm_compute; reflexivity |].
    split; assumption.
Defined.

End ReadIssueClaims.
(** ** The claim on concurrent issuance *)

Module BurstClaim.
Import Repo Service StoreView Burst BurstFacts BurstInv BurstProgress.

Lemma calls_count ks c :
  List.length (filter (fun k => req k =? c) ks)
  = List.length (filter (Z.eqb c) (map req ks)).
Proof.
  induction ks as [| k ks IH]; [reflexivity |].
  cbn [map filter]. rewrite (Z.eqb_sym c (req k)).
  destruct (req k =? c); cbn [List.length]; now rewrite IH.
Qed.

Lemma all_done_held ks : forallb is_done ks = true -> held ks = [].
Proof.
  induction ks as [| k ks IH]; [reflexivity |].
  cbn [forallb]. intros H. apply andb_true_iff in H. destruct H as [Hk Hks].
  unfold held in *. cbn [flat_map]. rewrite (IH Hks).
  unfold holds, is_done in *. destruct (pc k); try discriminate. reflexivity.
Qed.

Lemma outcome_count (l : list Caller) :
  (forall k, In k l ->
     (exists m, pc k = Done (Ok m)) \/ pc k = Done (Error CodeResourceExhausted)) ->
  List.length l
  = (List.length (flat_map returned l)
     + List.length (filter (ended_with CodeResourceExhausted) l))%nat.
Proof.
  induction l as [| k l IH]; intros H; [reflexivity |].
  cbn [flat_map filter List.length]. rewrite length_app.
  rewrite IH by (intros k' Hk'; apply H; now right).
  destruct (H k (or_introl eq_refl)) as [[m Hm] | He];
    unfold returned, ended_with; rewrite ?Hm, ?He; cbn [List.length]; lia.
Qed.

(** C1.  A burst of calls of [IssueCoupon] runs against a store in which
    the codes are unique and the campaign [c] exists and has started;
    [K] coupons of [c] are Available when it starts and [N] of the calls
    are on [c].  At every point of every interleaving, the codes returned
    to the calls on [c] are pairwise distinct and are codes that were
    Available at the start.  No call waits: a call that has not returned
    can run its next statement whatever rows the others hold.  The burst
    ends: a run has at most six moves for each call, and from every point
    the calls can be run to their return.  When no storage call of a call
    on [c] fails, no call on [c] answers Internal, and once all calls
    have returned exactly [min N K] of the calls on [c] returned a code
    and the other [N - min N K] answered ResourceExhausted. *)
Theorem burst_no_oversell : forall db0 now0 reqs c campaign evs s,
  NoDup (map Coupon.Code (coupons db0)) ->
  lookup db0 c = Some campaign ->
  Campaign.StartDate campaign <= now0 ->
  run (start db0 now0 reqs) evs = Some s ->
  let K := List.length (available db0 c) in
  let N := List.length (filter (Z.eqb c) reqs) in
  NoDup (got s c) /\
  incl (got s c) (available db0 c) /\
  List.length (calls s c) = N /\
  (forall t k, nth_error (callers s) t = Some k -> is_done k = false ->
     exists pick s', step s (Run t pick) = Some s') /\
  (moves evs + work (callers s) <= 6 * List.length reqs)%nat /\
  (exists rest s',
     faultless rest = true /\ run s rest = Some s' /\
     forallb is_done (callers s') = true) /\
  (spared c reqs evs = true ->
   existsb (ended_with CodeInternal) (calls s c) = false) /\
  (forallb is_done (callers s) = true ->
   spared c reqs evs = true ->
   List.length (got s c) = Nat.min N K /\
   List.length (filter (ended_with CodeResourceExhausted) (calls s c))
   = (N - Nat.min N K)%nat /\
   forall k, In k (calls s c) ->
     (exists m, pc k = Done (Ok m)) \/
     pc k = Done (Error CodeResourceExhausted)).
Proof.
  intros db0 now0 reqs c camp evs s Hpk Hex Hst Hrun K N.
  assert (HI : Inv db0 now0 reqs c (db s) (clock s) (callers s)).
  { eapply run_inv; [exact Hex | exact Hst | | exact Hrun].
    cbn [start db clock callers]. now apply start_inv. }
  destruct HI as [I1 I2 I3 I4 I5 I6 I7 I8 I9].
  rewrite <- got_flat in I7.
  assert (Hnd : NoDup (available (db s) c ++ got s c)).
  { apply (Permutation_NoDup (Permutation_sym I7)). now apply available_NoDup. }
  assert (HN : List.length (calls s c) = N).
  { unfold calls, N. now rewrite calls_count, I1. }
  split; [now apply NoDup_app_remove_l in Hnd |].
  split.
  { intros x Hx. apply (Permutation_in _ I7). apply in_or_app. now right. }
  split; [exact HN |].
  split; [intros t k; apply step_progress |].
  split.
  { pose proof (run_work _ _ _ Hrun) as Hw.
    rewrite start_work in Hw. exact Hw. }
  split; [exact (run_complete _ s (Nat.le_refl _)) |].
  assert (Hquiet : spared c reqs evs = true ->
                   existsb (ended_with CodeInternal) (calls s c) = false).
  { intros Hsp.
    destruct (existsb (ended_with CodeInternal) (calls s c)) eqn:Ee;
      [| reflexivity].
    apply existsb_exists in Ee. destruct Ee as [k [Hk He]].
    unfold calls in Hk. apply filter_In in Hk. destruct Hk as [Hk Hc].
    apply Z.eqb_eq in Hc.
    assert (HI0 : Inv db0 now0 reqs c (db (start db0 now0 reqs))
                    (clock (start db0 now0 reqs))
                    (callers (start db0 now0 reqs))).
    { cbn [start db clock callers]. now apply start_inv. }
    assert (HJ0 : forall k0, In k0 (callers (start db0 now0 reqs)) ->
                    req k0 = c -> ended_with CodeInternal k0 = false).
    { cbn [start callers]. intros k0 Hk0 _. apply in_map_iff in Hk0.
      destruct Hk0 as [r [<- _]]. reflexivity. }
    rewrite (run_no_internal db0 now0 reqs c camp evs _ s Hex Hst HI0 HJ0
               Hsp Hrun k Hk Hc) in He.
    discriminate He. }
  split; [exact Hquiet |].
  intros Hdone Hsp. pose proof (Hquiet Hsp) as Hint.
  assert (Hcls : forall k, In k (calls s c) ->
            (exists m, pc k = Done (Ok m)) \/
            pc k = Done (Error CodeResourceExhausted)).
  { intros k Hk. unfold calls in Hk. pose proof Hk as Hk0.
    apply filter_In in Hk. destruct Hk as [Hin Hc]. apply Z.eqb_eq in Hc.
    rewrite forallb_forall in Hdone. specialize (Hdone k Hin).
    specialize (I8 k Hin Hc).
    assert (Hni : ended_with CodeInternal k = false).
    { destruct (ended_with CodeInternal k) eqn:E; [| reflexivity].
      assert (existsb (ended_with CodeInternal) (calls s c) = true)
        by (apply existsb_exists; exists k; auto).
      congruence. }
    unfold is_done, ended_with in *.
    destruct (pc k) as [| | | | | | [m | e |]]; try discriminate.
    - left. now exists m.
    - destruct e; try discriminate; try contradiction. now right.
    - contradiction. }
  pose proof (outcome_count (calls s c) Hcls) as Hcount.
  fold (got s c) in Hcount. rewrite HN in Hcount.
  assert (Hlen : (List.length (available (db s) c) + List.length (got s c))%nat = K).
  { unfold K. rewrite <- (Permutation_length I7), length_app. reflexivity. }
  destruct (filter (ended_with CodeResourceExhausted) (calls s c)) as [| k0 l0] eqn:Hf.
  - cbn [List.length] in Hcount.
    split; [lia |]. split; [cbn [List.length]; lia | exact Hcls].
  - assert (Hk0 : In k0 (filter (ended_with CodeResourceExhausted) (calls s c)))
      by (rewrite Hf; now left).
    apply filter_In in Hk0. destruct Hk0 as [Hk0 He0].
    unfold calls in Hk0. apply filter_In in Hk0. destruct Hk0 as [Hin0 Hc0].
    apply Z.eqb_eq in Hc0.
    destruct I9 as [[k3 [H3 [C3 E3]]] | Hall].
    + exists k0. auto.
    + exfalso.
      assert (existsb (ended_with CodeInternal) (calls s c) = true).
      { apply existsb_exists. exists k3. split; [| exact E3].
        unfold calls. apply filter_In. split; [exact H3 | now apply Z.eqb_eq]. }
      congruence.
    + rewrite (all_done_held _ Hdone) in Hall.
      assert (Hav : available (db s) c = []).
      { destruct (available (db s) c) as [| x l]; [reflexivity |].
        destruct (Hall x (or_introl eq_refl)). }
      rewrite Hav in Hlen. cbn [List.length] in Hlen, Hcount |- *.
      split; [lia |]. split; [lia | exact Hcls].
Qed.

Lemma burst_no_oversell_witness :
  exists s,
    run (start burst_db 10 [1; 1; 1]) burst_schedule = Some s /\
    spared 1 [1; 1; 1] burst_schedule = true /\
    forallb is_done (callers s) = true /\
    map pc (callers s)
    = [Done (Ok (mkCouponMsg "B" 1)); Done (Ok (mkCouponMsg "A" 1));
       Done (Error CodeResourceExhausted)] /\
    got s 1 = ["B"; "A"]%string /\
    List.length (got s 1) = Nat.min 3 2 /\
    List.length (filter (ended_with CodeResourceExhausted) (calls s 1))
    = (3 - Nat.min 3 2)%nat /\
    (moves burst_schedule + work (callers s) <= 6 * 3)%nat.
Proof.
  eexists. split; [vm_compute; reflexivity |].
  split; [vm_compute; reflexivity |].
  split; [vm_compute; reflexivity |].
  split; [vm_compute; reflexivity |].
  split; [vm_compute; reflexivity |].
  destruct (burst_no_oversell burst_db 10 [1; 1; 1] 1 (Campaign.mk 1 2 5 0 0)
              burst_schedule _
              ltac:(repeat constructor; cbn; intuition discriminate)
              eq_refl ltac:(cbn; lia) ltac:(vm_compute; reflexivity))
    as [_ [_ [_ [_ [Hw [_ [_ Hout]]]]]]].
  destruct Hout as [H1 [H2 _]];
    [vm_compute; reflexivity | vm_compute; reflexivity |].
  split; [exact H1 |]. split; [exact H2 | exact Hw].
Defined.

End BurstClaim.

(** ** Further properties of the store *)

Module StoreExtras.
Import Repo Service StoreView Census.
Import StoreFacts ServiceFacts InvariantFacts CensusFacts CensusInv.

Lemma sample_reachable : reachable sample_db.
Proof. apply reach_step, reach_empty. Qed.

(** In every reachable state the codes are pairwise distinct, the campaign
    identifiers are pairwise distinct, positive and below the sequence,
    and every coupon refers to a campaign of the store. *)
Theorem reachable_keys : forall db, reachable db ->
  NoDup (map Coupon.Code (coupons db)) /\
  NoDup (map Campaign.ID (campaigns db)) /\
  (forall r, In r (coupons db) ->
             exists cmp, In cmp (campaigns db) /\
                         Campaign.ID cmp = Coupon.CampaignID r) /\
  (forall cmp, In cmp (campaigns db) ->
               1 <= Campaign.ID cmp < campaigns_id_seq db).
Proof.
  intros db Hr. destruct (reachable_well_formed db Hr) as [_ [W1 [W2 [W3 W4]]]].
  repeat split; auto; now destruct (W4 cmp H) as [[? ?] _].
Qed.

Lemma reachable_keys_witness :
  NoDup (map Coupon.Code (coupons sample_db)) /\
  NoDup (map Campaign.ID (campaigns sample_db)) /\
  (forall r, In r (coupons sample_db) ->
             exists cmp, In cmp (campaigns sample_db) /\
                         Campaign.ID cmp = Coupon.CampaignID r) /\
  (forall cmp, In cmp (campaigns sample_db) ->
               1 <= Campaign.ID cmp < campaigns_id_seq sample_db).
Proof. apply (reachable_keys sample_db). apply reach_step, reach_empty. Defined.

Lemma status_partition (l : list Coupon.t) :
  (List.length (filter (fun r => status_eqb (Coupon.Status r) Issued) l)
   + List.length (filter (fun r => status_eqb (Coupon.Status r) Available) l))%nat
  = List.length l.
Proof.
  induction l as [| r l IH]; [reflexivity |].
  cbn [filter]. destruct (Coupon.Status r); cbn [status_eqb List.length]; lia.
Qed.

(** In every reachable state a campaign has exactly [availableCoupons]
    coupons, each Available or Issued, so that no more than
    [availableCoupons] are Issued; and [availableCoupons] is not
    negative. *)
Theorem pool_size_is_available_coupons : forall db, reachable db ->
  forall cmp, In cmp (campaigns db) ->
    0 <= Campaign.AvailableCoupons cmp /\
    Z.of_nat (List.length (pool_of db (Campaign.ID cmp)))
    = Campaign.AvailableCoupons cmp /\
    (List.length (in_status Issued db (Campaign.ID cmp))
     + List.length (in_status Available db (Campaign.ID cmp)))%nat
    = List.length (pool_of db (Campaign.ID cmp)) /\
    Z.of_nat (List.length (in_status Issued db (Campaign.ID cmp)))
    <= Campaign.AvailableCoupons cmp.
Proof.
  intros db Hr cmp Hin.
  destruct (reachable_well_formed db Hr) as [_ [_ [_ [_ W4]]]].
  destruct (W4 cmp Hin) as [_ [H0 Hp]].
  pose proof (status_partition (pool_of db (Campaign.ID cmp))) as Hs.
  unfold in_status. repeat split; try lia; exact Hs.
Qed.

Lemma pool_size_is_available_coupons_witness :
  0 <= Campaign.AvailableCoupons (Campaign.mk 1 3 0 10 10) /\
  Z.of_nat (List.length (pool_of sample_db 1))
  = Campaign.AvailableCoupons (Campaign.mk 1 3 0 10 10) /\
  (List.length (in_status Issued sample_db 1)
   + List.length (in_status Available sample_db 1))%nat
  = List.length (pool_of sample_db 1) /\
  Z.of_nat (List.length (in_status Issued sample_db 1))
  <= Campaign.AvailableCoupons (Campaign.mk 1 3 0 10 10).
Proof.
  apply (pool_size_is_available_coupons sample_db
           (reach_step _ _ reach_empty) (Campaign.mk 1 3 0 10 10)).
  vm_compute. left. reflexivity.
Defined.

(** No request removes a campaign or a coupon, changes the code, the
    campaign or [created_at] of a coupon, or touches an Issued coupon: the
    only change of a row is from Available to Issued.  The sequence never
    goes back. *)
Theorem rows_only_move_forward : forall req db,
  (forall cmp, In cmp (campaigns db) -> In cmp (campaigns (handle req db))) /\
  (forall r, In r (coupons db) -> Coupon.Status r = Issued ->
             In r (coupons (handle req db))) /\
  (forall r, In r (coupons db) ->
     exists r', In r' (coupons (handle req db)) /\
                Coupon.Code r' = Coupon.Code r /\
                Coupon.CampaignID r' = Coupon.CampaignID r /\
                Coupon.CreatedAt r' = Coupon.CreatedAt r /\
                (r' = r \/
                 Coupon.Status r = Available /\ Coupon.Status r' = Issued)) /\
  campaigns_id_seq db <= campaigns_id_seq (handle req db).
Proof.
  intros [env n d | env c | env c] db; cbn [handle].
  - destruct (CreateCampaign_cases env n d db)
      as [[codes [_ [_ [_ [_ E]]]]] | [E1 [E2 [E3 _]]]].
    + rewrite E. cbn [fst created campaigns coupons campaigns_id_seq].
      repeat split; intros; try (apply in_or_app; now left); try lia.
      exists r. repeat split; auto. apply in_or_app. now left.
    + rewrite E1, E2. repeat split; auto.
      intros r Hr. exists r. auto 10.
  - repeat split; auto; try lia. intros r Hr. exists r. auto 10.
  - destruct (IssueCoupon_cases env c db)
      as [[camp [row [_ [_ [_ [_ [_ E]]]]]]] | [E _]].
    + rewrite E. cbn [fst campaigns coupons campaigns_id_seq].
      repeat split; auto; try lia.
      * intros r Hr Hs. apply in_map_iff. exists r. split; [| exact Hr].
        destruct (mark_row_fields (now_mark env) (Coupon.Code row) r)
          as [_ [_ [_ [H | [H _]]]]]; [exact H | congruence].
      * intros r Hr.
        exists (mark_row (now_mark env) (Coupon.Code row) r).
        destruct (mark_row_fields (now_mark env) (Coupon.Code row) r)
          as [H1 [H2 [H3 H4]]].
        split; [now apply in_map |]. repeat split; auto.
        destruct H4 as [H4 | [H4 [_ [H5 _]]]]; auto.
    + rewrite E. repeat split; auto; try lia.
      intros r Hr. exists r. auto 10.
Qed.



End StoreExtras.

(** ** Further properties of issuance *)

Module IssueExtras.
Import Repo Service StoreView Census.
Import StoreFacts ServiceFacts InvariantFacts CensusFacts CensusInv.
Import BurstFacts.

Lemma in_status_available_length db c :
  List.length (in_status Available db c) = List.length (Burst.available db c).
Proof.
  unfold in_status, pool_of, Burst.available, candidates. rewrite length_map.
  induction (coupons db) as [| r l IH]; [reflexivity |].
  cbn [filter]. destruct (Coupon.CampaignID r =? c); cbn [andb filter].
  - rewrite andb_true_r.
    destruct (status_eqb (Coupon.Status r) Available); cbn [List.length];
      now rewrite IH.
  - exact IH.
Qed.

Lemma filter_map_fixed {A} (p : A -> bool) (f : A -> A) l :
  (forall x, In x l -> p (f x) = p x) ->
  (forall x, In x l -> p x = true -> f x = x) ->
  filter p (map f l) = filter p l.
Proof.
  induction l as [| a l IH]; intros H1 H2; [reflexivity |].
  cbn [map filter]. rewrite (H1 a (or_introl eq_refl)).
  rewrite IH by (intros; first [apply H1 | apply H2]; auto; now right).
  destruct (p a) eqn:Hp; [| reflexivity].
  now rewrite (H2 a (or_introl eq_refl) Hp).
Qed.

(** A call of [IssueCoupon] that returns a coupon moves exactly one coupon
    of the campaign from Available to Issued, and changes no other row and
    no campaign. *)
Theorem issue_moves_one_coupon : forall db, reachable db ->
  forall env c db' m,
    IssueCoupon env c db = (db', Ok m) ->
    campaigns db' = campaigns db /\
    (List.length (in_status Available db' c) + 1)%nat
    = List.length (in_status Available db c) /\
    List.length (in_status Issued db' c)
    = (List.length (in_status Issued db c) + 1)%nat /\
    (forall c', c' <> c -> pool_of db' c' = pool_of db c') /\
    (forall r, In r (coupons db) -> Coupon.Code r <> Code_ m ->
               In r (coupons db')).
Proof.
  intros db Hr env c db' m H.
  destruct (reachable_well_formed db Hr) as [_ [Hpk _]].
  apply IssueCoupon_ok in H.
  destruct H as [camp [row [_ [_ [Hin [Hc [Hs [-> ->]]]]]]]].
  cbn [Code_ campaigns].
  set (x := Coupon.Code row). set (now := now_mark env).
  set (db' := mkDB (campaigns db) (map (mark_row now x) (coupons db))
                   (campaigns_id_seq db)).
  assert (Hav : (List.length (in_status Available db' c) + 1)%nat
                = List.length (in_status Available db c)).
  { rewrite !in_status_available_length. unfold db'. rewrite available_marked.
    assert (Hx : In x (Burst.available db c)).
    { apply available_in. exists row. auto. }
    pose proof (filter_neq_perm _ x (available_NoDup db c Hpk) Hx) as P.
    apply Permutation_length in P. cbn [List.length] in P. lia. }
  assert (Hpool : List.length (pool_of db' c) = List.length (pool_of db c)).
  { unfold pool_of, db'. cbn [coupons]. apply filter_map_length.
    intros r. now destruct (mark_row_fields now x r) as [_ [-> _]]. }
  split; [reflexivity |]. split; [exact Hav |]. split; [| split].
  - pose proof (StoreExtras.status_partition (pool_of db' c)) as P1.
    pose proof (StoreExtras.status_partition (pool_of db c)) as P2.
    unfold in_status in *. lia.
  - intros c' Hne. unfold pool_of, db'. cbn [coupons].
    apply filter_map_fixed.
    + intros r _. now destruct (mark_row_fields now x r) as [_ [-> _]].
    + intros r Hr0 Hp. apply Z.eqb_eq in Hp.
      destruct (mark_row_cases now x r) as [[Hx _] | [_ E]]; [| exact E].
      exfalso. apply Hne.
      assert (r = row) by (apply (pk_unique (coupons db)); auto).
      congruence.
  - intros r Hr0 Hne. unfold db'. cbn [coupons]. apply in_map_iff.
    exists r. split; [| exact Hr0].
    destruct (mark_row_cases now x r) as [[Hx _] | [_ E]]; [| exact E].
    contradiction.
Qed.

Lemma issue_moves_one_coupon_witness :
  exists db' m,
    IssueCoupon (issue_env 20 21) 1 sample_db = (db', Ok m) /\
    campaigns db' = campaigns sample_db /\
    (List.length (in_status Available db' 1) + 1)%nat
    = List.length (in_status Available sample_db 1) /\
    List.length (in_status Issued db' 1)
    = (List.length (in_status Issued sample_db 1) + 1)%nat /\
    (forall c', c' <> 1 -> pool_of db' c' = pool_of sample_db c') /\
    (forall r, In r (coupons sample_db) -> Coupon.Code r <> Code_ m ->
               In r (coupons db')).
Proof.
  do 2 eexists. split; [vm_compute; reflexivity |].
  apply (issue_moves_one_coupon sample_db (reach_step _ _ reach_empty)
           (issue_env 20 21) 1).
  vm_compute. reflexivity.
Defined.

Lemma rows_affected_pk (rows : list Coupon.t) code :
  NoDup (map Coupon.Code rows) -> (rows_affected code rows <= 1)%nat.
Proof.
  unfold rows_affected. induction rows as [| r l IH]; intros Hn; [cbn; lia |].
  cbn [map] in Hn. inversion Hn as [| ? ? Hni Hd]; subst.
  cbn [filter]. destruct (String.eqb_spec (Coupon.Code r) code) as [Hc | Hc];
    cbn [andb]; [| now apply IH].
  assert (Hz : filter (fun r0 => String.eqb (Coupon.Code r0) code
                         && status_eqb (Coupon.Status r0) Available) l = []).
  { apply filter_none. intros y Hy.
    destruct (String.eqb_spec (Coupon.Code y) code) as [Hy' | Hy'];
      [| reflexivity].
    exfalso. apply Hni. rewrite Hc, <- Hy'. now apply in_map. }
  rewrite Hz. destruct (status_eqb (Coupon.Status r) Available); cbn; lia.
Qed.

(** Under the primary key, [MarkCouponAsIssued] changes exactly one row
    when it succeeds, and cannot succeed twice for one code: the second
    call finds no Available row and answers "coupon not found or already
    issued". *)
Theorem mark_is_not_repeatable : forall now tx code tx',
  NoDup (map Coupon.Code (coupons tx)) ->
  MarkCouponAsIssued false false now tx code = Ok tx' ->
  rows_affected code (coupons tx) = 1%nat /\
  forall now' exec_fails rows_affected_fails,
    exists e, MarkCouponAsIssued exec_fails rows_affected_fails now' tx' code
              = Error e /\
              (exec_fails = false -> rows_affected_fails = false ->
               e = ErrNotFoundOrIssued).
Proof.
  intros now tx code tx' Hn H. unfold MarkCouponAsIssued in H.
  destruct (Nat.eqb_spec (rows_affected code (coupons tx)) 0) as [Hz | Hz];
    [discriminate |].
  inversion H; subst. clear H.
  pose proof (rows_affected_pk (coupons tx) code Hn).
  split; [lia |].
  intros now' ef rf. unfold MarkCouponAsIssued. cbn [coupons].
  assert (Hr : rows_affected code (map (mark_row now code) (coupons tx)) = 0%nat).
  { unfold rows_affected. rewrite filter_none; [reflexivity |].
    intros y Hy. apply in_map_iff in Hy. destruct Hy as [r [<- _]].
    destruct (mark_row_cases now code r) as [[_ [_ ->]] | [[Hc | Hs] ->]].
    - cbn [Coupon.Status status_eqb]. apply andb_false_r.
    - apply String.eqb_neq in Hc. now rewrite Hc.
    - rewrite Hs. apply andb_false_r. }
  rewrite Hr. destruct ef; [eexists; split; [reflexivity | discriminate] |].
  destruct rf; [eexists; split; [reflexivity | discriminate] |].
  eexists. split; reflexivity.
Qed.

Lemma mark_is_not_repeatable_witness :
  rows_affected "A" (coupons Burst.burst_db) = 1%nat /\
  forall now' exec_fails rows_affected_fails,
    exists e,
      MarkCouponAsIssued exec_fails rows_affected_fails now'
        (mkDB (campaigns Burst.burst_db)
              (map (mark_row 7 "A") (coupons Burst.burst_db))
              (campaigns_id_seq Burst.burst_db)) "A"
      = Error e /\
      (exec_fails = false -> rows_affected_fails = false ->
       e = ErrNotFoundOrIssued).
Proof.
  apply (mark_is_not_repeatable 7 Burst.burst_db "A").
  - repeat constructor; cbn; intuition discriminate.
  - reflexivity.
Defined.

Lemma issued_rows_length db c :
  List.length (issued_rows db c) = List.length (in_status Issued db c).
Proof.
  unfold issued_rows, in_status, pool_of.
  induction (coupons db) as [| r l IH]; [reflexivity |].
  cbn [filter]. destruct (Coupon.CampaignID r =? c); cbn [andb filter];
    [| exact IH].
  destruct (status_eqb (Coupon.Status r) Issued); cbn [List.length];
    now rewrite IH.
Qed.

(** In every reachable state [GetCampaign] answers no code twice and no
    more codes than the campaign has coupons. *)
Theorem getCampaign_never_over_issued : forall db, reachable db ->
  forall env c m,
    GetCampaign env c db = Ok m ->
    NoDup (IssuedCouponCodes m) /\
    Z.of_nat (List.length (IssuedCouponCodes m)) <= AvailableCoupons m /\
    Id m = c.
Proof.
  intros db Hr env c m H.
  destruct (reachable_well_formed db Hr) as [_ [Hpk _]].
  unfold GetCampaign, GetCampaignWithCoupons, Repo.GetCampaign in H.
  destruct (get_campaign_fails env); [discriminate |].
  destruct (find (fun x => Campaign.ID x =? c) (campaigns db)) as [cmp |] eqn:Hf;
    [| discriminate].
  cbn [bind] in H. destruct (get_select_fails env); [discriminate |].
  inversion H; subst. clear H. cbn [IssuedCouponCodes AvailableCoupons Id].
  apply find_some in Hf. destruct Hf as [Hin Hid]. apply Z.eqb_eq in Hid.
  pose proof (ReadIssueClaims.order_perm (issued_rows db c)) as P.
  split; [| split; [| exact Hid]].
  - apply (Permutation_NoDup (Permutation_sym (Permutation_map Coupon.Code P))).
    unfold issued_rows. now apply NoDup_map_filter.
  - rewrite length_map, (Permutation_length P).
    destruct (reachable_well_formed db Hr) as [_ [_ [_ [_ W4]]]].
    destruct (W4 cmp Hin) as [_ [H0 Hp]]. rewrite Hid in Hp.
    pose proof (StoreExtras.status_partition (pool_of db c)) as Hs.
    rewrite (issued_rows_length db c). unfold in_status. lia.
Qed.

Lemma getCampaign_never_over_issued_witness :
  exists m,
    GetCampaign (mkGetEnv false false) 1
      (handle (ReqIssue (issue_env 20 21) 1) sample_db) = Ok m /\
    NoDup (IssuedCouponCodes m) /\
    Z.of_nat (List.length (IssuedCouponCodes m)) <= AvailableCoupons m /\
    Id m = 1.
Proof.
  eexists. split; [vm_compute; reflexivity |].
  apply (getCampaign_never_over_issued
           (handle (ReqIssue (issue_env 20 21) 1) sample_db)
           (reach_step _ _ (reach_step _ _ reach_empty))
           (mkGetEnv false false) 1).
  vm_compute. reflexivity.
Defined.

End IssueExtras.

(** ** Further properties of campaign creation *)

Module CreateFacts.
Import Repo Service StoreView Census Outcome.
Import StoreFacts ServiceFacts InvariantFacts CensusFacts CensusInv.

Lemma existsb_code_in (rows : list Coupon.t) r :
  ~ In (Coupon.Code r) (map Coupon.Code rows) ->
  existsb (fun x => String.eqb (Coupon.Code x) (Coupon.Code r)) rows = false.
Proof.
  intros H.
  destruct (existsb (fun x => String.eqb (Coupon.Code x) (Coupon.Code r)) rows)
    eqn:E; [| reflexivity].
  exfalso. apply H. apply existsb_exists in E. destruct E as [x [Hx He]].
  apply String.eqb_eq in He. rewrite <- He. now apply in_map.
Qed.

Lemma insert_rows_complete : forall rows tx,
  accepted tx rows ->
  insert_rows tx rows
  = Some (mkDB (campaigns tx) (coupons tx ++ rows) (campaigns_id_seq tx)).
Proof.
  induction rows as [| r rest IH]; intros tx [Hn Ha].
  - cbn [insert_rows]. rewrite app_nil_r. now destruct tx.
  - cbn [insert_rows].
    destruct (Ha r (or_introl eq_refl)) as [H1 [H2 [cmp [H3 H4]]]].
    rewrite (stored_short r H2).
    assert (Hacc : row_accepted tx r = true).
    { unfold row_accepted. rewrite (existsb_code_in _ _ H1). cbn [negb andb].
      apply existsb_exists. exists cmp. split; [exact H3 | now apply Z.eqb_eq]. }
    rewrite Hacc, IH.
    + cbn [campaigns coupons campaigns_id_seq]. now rewrite <- app_assoc.
    + cbn [map] in Hn. inversion Hn as [| ? ? Hni Hd]; subst.
      split; [exact Hd |].
      intros x Hx. destruct (Ha x (or_intror Hx)) as [G1 [G2 G3]].
      cbn [campaigns coupons]. split; [| split; assumption].
      rewrite map_app, in_app_iff. cbn [map In].
      intros [G | [G | []]]; [contradiction |].
      apply Hni. rewrite G. now apply in_map.
Qed.

Lemma insert_rows_sound : forall rows tx tx',
  Forall (fun r => (Utf8.rune_count (Coupon.Code r) <= 10)%nat) rows ->
  insert_rows tx rows = Some tx' -> accepted tx rows.
Proof.
  induction rows as [| r rest IH]; intros tx tx' Hf H.
  - split; [constructor | intros r []].
  - inversion Hf as [| ? ? A2 Hf']; subst.
    cbn [insert_rows] in H. rewrite (stored_short r A2) in H.
    destruct (row_accepted tx r) eqn:Hacc; [| discriminate].
    apply (IH _ _ Hf') in H. destruct H as [Hn Ha].
    unfold row_accepted in Hacc.
    apply andb_true_iff in Hacc. destruct Hacc as [A1 A3].
    apply negb_true_iff in A1. apply in_existsb_code in A1.
    apply existsb_exists in A3.
    destruct A3 as [cmp [A3 A4]]. apply Z.eqb_eq in A4.
    split.
    + cbn [map]. constructor; [| exact Hn].
      intros Hin. apply in_map_iff in Hin. destruct Hin as [x [Hx1 Hx2]].
      destruct (Ha x Hx2) as [G _]. apply G. cbn [coupons].
      rewrite map_app, in_app_iff. right. cbn [map In]. left. now symmetry.
    + intros x [<- | Hx].
      * split; [exact A1 |]. split; [exact A2 |]. now exists cmp.
      * destruct (Ha x Hx) as [G1 [G2 G3]]. cbn [campaigns coupons] in *.
        split; [| split; assumption].
        intros Hin. apply G1. rewrite map_app, in_app_iff. now left.
Qed.

Lemma insert_rows_split : forall a b tx,
  insert_rows tx (a ++ b)
  = match insert_rows tx a with
    | Some t => insert_rows t b
    | None => None
    end.
Proof.
  induction a as [| r a IH]; intros b tx; cbn [app insert_rows];
    [reflexivity |].
  destruct (stored r) as [r' |]; [| reflexivity].
  destruct (row_accepted tx r'); [apply IH | reflexivity].
Qed.

Lemma insertCouponBatch_lift tx_now tx cid codes createdAt :
  (List.length codes <= batchSize)%nat ->
  insertCouponBatch false tx_now tx cid codes createdAt
  = lift (insert_rows tx (map (new_row cid tx_now createdAt) codes)).
Proof.
  intros Hl. unfold insertCouponBatch. destruct codes as [| x l]; [reflexivity |].
  cbn [Nat.eqb List.length].
  destruct (Z.ltb_spec max_parameters
              (Z.of_nat (Datatypes.S (List.length l)) * 4)) as [Hc | _];
    [| reflexivity].
  exfalso. cbn [List.length] in Hl. unfold batchSize, max_parameters in *.
  lia.
Qed.

Lemma chunks_lift fails now tx_now cid (codes : list string) : forall n k tx,
  (forall j, (k <= j < k + n)%nat -> fails j = false) ->
  for_up n (Z.of_nat k)
    (fun k tx =>
       let len := List.length codes in
       let i := (Z.to_nat k * batchSize)%nat in
       let end_ := if (len <? i + batchSize)%nat then len
                   else (i + batchSize)%nat in
       let batch := firstn (end_ - i) (skipn i codes) in
       insertCouponBatch (fails (Z.to_nat k)) tx_now tx cid batch now)
    tx
  = lift (insert_rows tx
            (map (new_row cid tx_now now)
               (firstn (n * batchSize) (skipn (k * batchSize) codes)))).
Proof.
  induction n as [| n IH]; intros k tx Hf.
  - reflexivity.
  - cbn [for_up]. cbv zeta. rewrite Nat2Z.id.
    rewrite (batch_slice codes k).
    rewrite (Hf k) by lia.
    rewrite insertCouponBatch_lift by (rewrite length_firstn; lia).
    replace (Datatypes.S n * batchSize)%nat
      with (batchSize + n * batchSize)%nat by lia.
    rewrite firstn_add, map_app, insert_rows_split, skipn_skipn.
    destruct (insert_rows tx
                (map (new_row cid tx_now now)
                   (firstn batchSize (skipn (k * batchSize) codes))))
      as [t |]; cbn [lift bind]; [| reflexivity].
    replace (Z.of_nat k + 1) with (Z.of_nat (Datatypes.S k)) by lia.
    rewrite IH by (intros j Hj; apply Hf; lia).
    do 4 f_equal; lia.
Qed.

Lemma CreatePregeneratedCoupons_lift fails now tx_now tx cid codes :
  (forall k, (k < (List.length codes + batchSize - 1) / batchSize)%nat ->
             fails k = false) ->
  CreatePregeneratedCoupons fails now tx_now tx cid codes
  = lift (insert_rows tx (map (new_row cid tx_now now) codes)).
Proof.
  intros Hf. unfold CreatePregeneratedCoupons. cbv zeta.
  change 0 with (Z.of_nat 0).
  rewrite (chunks_lift fails now tx_now cid codes) by (intros j Hj; apply Hf; lia).
  cbn [Nat.mul skipn]. rewrite firstn_all2 by apply ceil_batches. reflexivity.
Qed.

End CreateFacts.

Module CreateExtras.
Import Repo Service StoreView Census Outcome.
Import StoreFacts ServiceFacts InvariantFacts CensusFacts CensusInv CreateFacts.

Lemma CreateCampaign_insert env n d db codes :
  create_begin_fails env = false -> create_insert_fails env = false ->
  generate_codes (campaigns_id_seq db) n = Ok codes ->
  (forall k, (k < (List.length codes + batchSize - 1) / batchSize)%nat ->
             create_batch_fails env k = false) ->
  CreateCampaign env n d db
  = let camp := Campaign.mk (campaigns_id_seq db) n d (now_campaign env)
                  (now_campaign env) in
    let tx := mkDB (campaigns db ++ [camp]) (coupons db)
                (campaigns_id_seq db + 1) in
    match insert_rows tx
            (map (new_row (campaigns_id_seq db) (create_tx_now env)
                    (now_coupons env)) codes) with
    | Some tx' =>
        if create_commit_fails env
        then (rollback db tx', Error CodeInternal)
        else (tx', Ok (mkCampaignMsg (campaigns_id_seq db) n d []))
    | None => (rollback db tx, Error CodeInternal)
    end.
Proof.
  intros Fb Fi G Fk. unfold CreateCampaign, Repo.CreateCampaign.
  rewrite Fb, Fi. unfold create_pool.
  cbn [Campaign.ID Campaign.AvailableCoupons Campaign.StartDate].
  rewrite G. cbn [bind]. rewrite (CreatePregeneratedCoupons_lift _ _ _ _ _ _ Fk).
  cbv zeta.
  match goal with
  | |- context [insert_rows ?t ?r] => destruct (insert_rows t r); reflexivity
  end.
Qed.

(** With no failing storage call, [CreateCampaign] succeeds exactly when
    the generated codes differ from each other and from every stored
    code.  Otherwise the primary key refuses the insertion, the call
    answers Internal, nothing of the campaign is stored and the identifier
    is used up. *)
Theorem createCampaign_succeeds_iff_codes_fresh : forall env n d db codes,
  create_faultless env n ->
  generate_codes (campaigns_id_seq db) n = Ok codes ->
  (fresh db codes ->
   CreateCampaign env n d db
   = (created env n d db codes,
      Ok (mkCampaignMsg (campaigns_id_seq db) n d []))) /\
  (~ fresh db codes ->
   CreateCampaign env n d db
   = (mkDB (campaigns db) (coupons db) (campaigns_id_seq db + 1),
      Error CodeInternal)).
Proof.
  intros env n d db codes [Fb [Fi [Fc Fk]]] G.
  pose proof (generate_codes_spec _ _ _ G) as [Hn [Hl _]].
  pose proof (generate_codes_runes _ _ _ G) as Hr.
  assert (Fk' : forall k,
             (k < (List.length codes + batchSize - 1) / batchSize)%nat ->
             create_batch_fails env k = false).
  { intros k Hk. apply Fk. unfold batches. now rewrite <- Hl. }
  rewrite (CreateCampaign_insert env n d db codes Fb Fi G Fk'). cbv zeta.
  set (camp := Campaign.mk (campaigns_id_seq db) n d (now_campaign env)
                 (now_campaign env)).
  set (tx := mkDB (campaigns db ++ [camp]) (coupons db)
               (campaigns_id_seq db + 1)).
  set (rows := map (new_row (campaigns_id_seq db) (create_tx_now env)
                      (now_coupons env)) codes).
  split.
  - intros [Hnd Hfr].
    assert (Ha : accepted tx rows).
    { unfold accepted, rows. rewrite map_map. cbn [new_row Coupon.Code].
      rewrite map_id. split; [exact Hnd |].
      intros r Hin. apply in_map_iff in Hin. destruct Hin as [code [<- Hin]].
      cbn [new_row Coupon.Code Coupon.CampaignID tx coupons campaigns].
      split; [now apply Hfr |]. split; [rewrite (Hr code Hin); lia |].
      exists camp. split; [apply in_or_app; right; now left | reflexivity]. }
    rewrite (insert_rows_complete _ _ Ha), Fc. reflexivity.
  - intros Hnf. destruct (insert_rows tx rows) as [tx' |] eqn:E;
      [| reflexivity].
    exfalso. apply Hnf. apply insert_rows_sound in E.
    2:{ unfold rows. apply new_rows_short.
        exact (generate_codes_short _ _ _ G). }
    destruct E as [Hnd Ha].
    unfold rows in Hnd. rewrite map_map in Hnd. cbn [new_row Coupon.Code] in Hnd.
    rewrite map_id in Hnd. split; [exact Hnd |].
    intros code Hin.
    destruct (Ha (new_row (campaigns_id_seq db) (create_tx_now env)
                    (now_coupons env) code)) as [H1 _].
    { unfold rows. now apply in_map. }
    exact H1.
Qed.

Lemma createCampaign_succeeds_iff_codes_fresh_witness :
  exists codes,
    generate_codes (campaigns_id_seq empty_db) 3 = Ok codes /\
    (fresh empty_db codes ->
     CreateCampaign (create_env 10 11 12) 3 0 empty_db
     = (created (create_env 10 11 12) 3 0 empty_db codes,
        Ok (mkCampaignMsg (campaigns_id_seq empty_db) 3 0 []))) /\
    (~ fresh empty_db codes ->
     CreateCampaign (create_env 10 11 12) 3 0 empty_db
     = (mkDB (campaigns empty_db) (coupons empty_db)
             (campaigns_id_seq empty_db + 1),
        Error CodeInternal)).
Proof.
  eexists. split; [vm_compute; reflexivity |].
  apply (createCampaign_succeeds_iff_codes_fresh (create_env 10 11 12) 3 0
           empty_db).
  - repeat split; reflexivity.
  - vm_compute. reflexivity.
Defined.

(** The identifier of a campaign is taken from the sequence when the
    campaign row is inserted, and a rollback does not give it back: every
    call that got as far as the insertion advances the sequence by one,
    whether it succeeds or fails later, and a call that fails before
    leaves it.  A successful call answers the identifier it took. *)
Theorem identifier_is_consumed_by_the_insertion : forall env n d db,
  campaigns_id_seq (fst (CreateCampaign env n d db))
  = (if create_begin_fails env || create_insert_fails env
     then campaigns_id_seq db else campaigns_id_seq db + 1) /\
  (forall m, snd (CreateCampaign env n d db) = Ok m ->
             Id m = campaigns_id_seq db).
Proof.
  intros env n d db. split.
  - unfold CreateCampaign, Repo.CreateCampaign.
    destruct (create_begin_fails env); [reflexivity |].
    destruct (create_insert_fails env); [reflexivity |].
    cbn [orb]. unfold create_pool.
    cbn [Campaign.ID Campaign.AvailableCoupons Campaign.StartDate].
    destruct (generate_codes (campaigns_id_seq db) n) as [codes | e |];
      cbn [bind]; try reflexivity.
    match goal with
    | |- context [CreatePregeneratedCoupons ?f ?a ?b ?t ?i ?c] =>
        destruct (CreatePregeneratedCoupons f a b t i c) as [tx' | e |] eqn:Hc
    end; try reflexivity.
    apply CreatePregeneratedCoupons_frame in Hc. destruct Hc as [_ [C3 _]].
    destruct (create_commit_fails env);
      cbn [fst rollback campaigns_id_seq] in *; exact C3.
  - intros m H.
    destruct (CreateCampaign env n d db) as [db' r] eqn:E. cbn [snd] in H.
    subst r. apply CreateCampaign_ok in E.
    destruct E as [codes [_ [_ [_ [_ ->]]]]]. reflexivity.
Qed.

(** A negative count that reaches the generation loop panics at
    [make([]string, 0, n)]: the deferred rollback removes the campaign row,
    and the identifier is used up. *)
Theorem negative_count_panics : forall env n d db,
  n < 0 ->
  create_begin_fails env = false -> create_insert_fails env = false ->
  CreateCampaign env n d db
  = (mkDB (campaigns db) (coupons db) (campaigns_id_seq db + 1), Panic).
Proof.
  intros env n d db Hn Fb Fi. unfold CreateCampaign, Repo.CreateCampaign.
  rewrite Fb, Fi. unfold create_pool.
  cbn [Campaign.ID Campaign.AvailableCoupons Campaign.StartDate].
  rewrite generate_codes_negative by exact Hn. reflexivity.
Qed.

Lemma negative_count_panics_witness :
  CreateCampaign (create_env 10 11 12) (-5) 0 sample_db
  = (mkDB (campaigns sample_db) (coupons sample_db)
          (campaigns_id_seq sample_db + 1), Panic).
Proof.
  apply (negative_count_panics (create_env 10 11 12) (-5) 0 sample_db);
    [lia | reflexivity | reflexivity].
Defined.

(** The coupons of a created campaign are, in the order of their
    insertion, the codes the generator gives for the new identifier and
    the indexes 0, 1, ..., n-1. *)
Theorem created_coupons_follow_the_indexes : forall env n d db db' m,
  CreateCampaign env n d db = (db', Ok m) ->
  n <= 2 ^ 64 ->
  exists codes,
    coupons db'
    = coupons db
      ++ map (new_row (Id m) (create_tx_now env) (now_coupons env)) codes /\
    List.length codes = Z.to_nat n /\
    forall i, (i < Z.to_nat n)%nat ->
      CodeGen.generateSecureCoupon (Id m) (Z.of_nat i)
      = Ok (nth i codes ""%string).
Proof.
  intros env n d db db' m H Hn.
  apply CreateCampaign_commit in H.
  destruct H as [codes [G [_ [-> [-> [H0 Hl]]]]]].
  exists codes. cbn [created coupons Id]. split; [reflexivity |].
  split; [exact Hl |].
  intros i Hi. apply generate_codes_spec in G. destruct G as [_ [_ G]].
  rewrite <- (G i Hi). unfold Wire.wrap64.
  rewrite Z.mod_small by lia. reflexivity.
Qed.

Lemma created_coupons_follow_the_indexes_witness :
  exists db' m,
    CreateCampaign (create_env 10 11 12) 3 0 empty_db = (db', Ok m) /\
    exists codes,
      coupons db'
      = coupons empty_db ++ map (new_row (Id m) 12 11) codes /\
      List.length codes = Z.to_nat 3 /\
      forall i, (i < Z.to_nat 3)%nat ->
        CodeGen.generateSecureCoupon (Id m) (Z.of_nat i)
        = Ok (nth i codes ""%string).
Proof.
  do 2 eexists. split; [vm_compute; reflexivity |].
  apply (created_coupons_follow_the_indexes (create_env 10 11 12) 3 0
           empty_db); [vm_compute; reflexivity | lia].
Defined.

End CreateExtras.

(** ** Further properties of the code generator *)

Module GenExtras.
Import Wire AES CodeGen Shape Utf8 GenFacts.

Lemma shifted_sequence c :
  wrap64 (Z.shiftl (campaignIDToSequence c) 32) = (c mod 2 ^ 32) * 2 ^ 32.
Proof.
  unfold campaignIDToSequence. apply Z.bits_inj'. intros n Hn.
  rewrite testbit_wrap64 by exact Hn.
  rewrite Z.shiftl_spec by exact Hn.
  rewrite Z.mul_pow2_bits by lia.
  destruct (Z.ltb_spec n 32) as [Hlo | Hhi].
  - rewrite !Z.testbit_neg_r by lia. apply andb_false_r.
  - rewrite testbit_wrap64 by lia. rewrite Z.testbit_mod_pow2 by lia.
    destruct (Z.ltb_spec n 64), (Z.ltb_spec (n - 32) 64),
      (Z.ltb_spec (n - 32) 32); cbn [andb]; try reflexivity; lia.
Qed.

Lemma createUniqueSequence_low c c' i :
  c mod 2 ^ 32 = c' mod 2 ^ 32 ->
  createUniqueSequence c i = createUniqueSequence c' i.
Proof.
  intros H. unfold createUniqueSequence. cbv zeta.
  now rewrite !shifted_sequence, H.
Qed.

Lemma cipher_of_congr c i c' i' :
  key_of c = key_of c' ->
  createUniqueSequence c i = createUniqueSequence c' i' ->
  cipher_of c i = cipher_of c' i'.
Proof.
  intros Hk Hs. rewrite !cipher_of_eq, Hk, Hs. reflexivity.
Qed.

Lemma mod_32_15 c c' :
  c mod 2 ^ 32 = c' mod 2 ^ 32 -> c mod 2 ^ 15 = c' mod 2 ^ 15.
Proof.
  intros H. apply low15_bits. intros n Hn.
  rewrite <- (Z.mod_pow2_bits_low c 32 n), <- (Z.mod_pow2_bits_low c' 32 n)
    by lia.
  now rewrite H.
Qed.

(** The generator reads the low 32 bits of the campaign identifier only:
    two campaigns whose identifiers differ by a multiple of 2^32 get the
    same code at every index. *)
Theorem codes_repeat_modulo_2_32 : forall c c' i,
  c mod 2 ^ 32 = c' mod 2 ^ 32 ->
  generateSecureCoupon c i = generateSecureCoupon c' i.
Proof.
  intros c c' i H.
  destruct (generateSecureCoupon_runes c i) as [out [Ho [_ [_ E]]]].
  destruct (generateSecureCoupon_runes c' i) as [out' [Ho' [_ [_ E']]]].
  rewrite E, E'. do 3 f_equal. rewrite Ho, Ho'.
  apply cipher_of_congr.
  - apply key_of_eq_iff. now apply mod_32_15.
  - now apply createUniqueSequence_low.
Qed.

Lemma codes_repeat_modulo_2_32_witness :
  generateSecureCoupon 1 0 = generateSecureCoupon (2 ^ 32 + 1) 0.
Proof.
  apply (codes_repeat_modulo_2_32 1 (2 ^ 32 + 1) 0). reflexivity.
Defined.

(** For a campaign identifier and an index below 2^32 the sequence number
    holds the identifier in its upper and the index in its lower 32 bits,
    and both can be read back: different pairs give different plaintext
    blocks. *)
Theorem sequence_round_trip : forall c i,
  0 <= c < 2 ^ 32 -> 0 <= i < 2 ^ 32 ->
  createUniqueSequence c i = c * 2 ^ 32 + i /\
  createUniqueSequence c i / 2 ^ 32 = c /\
  createUniqueSequence c i mod 2 ^ 32 = i /\
  0 <= createUniqueSequence c i < 2 ^ 64.
Proof.
  intros c i Hc Hi.
  assert (E : createUniqueSequence c i = c * 2 ^ 32 + i).
  { unfold createUniqueSequence. cbv zeta. rewrite shifted_sequence.
    rewrite Z.mod_small by exact Hc. rewrite Z.lor_comm.
    rewrite lor_add_disjoint by lia. lia. }
  rewrite E. split; [reflexivity |]. split; [| split].
  - rewrite Z.div_add_l by lia. rewrite Z.div_small by lia. lia.
  - rewrite Z.add_comm, Z.mod_add by lia. now apply Z.mod_small.
  - lia.
Qed.

Lemma sequence_round_trip_witness :
  createUniqueSequence 7 5 = 7 * 2 ^ 32 + 5 /\
  createUniqueSequence 7 5 / 2 ^ 32 = 7 /\
  createUniqueSequence 7 5 mod 2 ^ 32 = 5 /\
  0 <= createUniqueSequence 7 5 < 2 ^ 64.
Proof.
  apply (sequence_round_trip 7 5); lia.
Defined.

End GenExtras.

(** ** When two codes are equal *)

Module CollisionFacts.
Import Wire AES CodeGen Shape Utf8 GenFacts Residues.

Lemma app_prefix : forall a b x y : list Z,
  a ++ x = b ++ y -> prefixb a b = true \/ prefixb b a = true.
Proof.
  induction a as [| u a IH]; intros b x y H; [now left |].
  destruct b as [| w b]; [now right |].
  cbn [app] in H. injection H as Hu Hr. subst w.
  cbn [prefixb]. rewrite Z.eqb_refl. cbn [andb]. exact (IH b x y Hr).
Qed.

Lemma pool_prefix_free : prefix_free pool = true.
Proof. vm_compute. reflexivity. Qed.

Lemma encode_step r r' x y :
  In r pool -> In r' pool ->
  encode_rune r ++ x = encode_rune r' ++ y -> r = r' /\ x = y.
Proof.
  intros Hr Hr' H.
  assert (E : r = r').
  { pose proof pool_prefix_free as P. unfold prefix_free in P.
    rewrite forallb_forall in P.
    pose proof (P r Hr) as P1. rewrite forallb_forall in P1.
    specialize (P1 r' Hr').
    pose proof (P r' Hr') as P2. rewrite forallb_forall in P2.
    specialize (P2 r Hr).
    destruct (Z.eqb_spec r r') as [-> | Hne]; [reflexivity |].
    destruct (Z.eqb_spec r' r) as [-> | _]; [reflexivity |].
    cbn [orb] in P1, P2. apply negb_true_iff in P1, P2.
    destruct (app_prefix _ _ _ _ H); congruence. }
  subst r'. split; [reflexivity |]. exact (app_inv_head _ _ _ H).
Qed.

Lemma encode_nonempty r : In r pool -> encode_rune r <> [].
Proof.
  intros Hr E. pose proof pool_one_symbol as Hp.
  rewrite forallb_forall in Hp. specialize (Hp r Hr).
  unfold one_symbol in Hp. rewrite E in Hp. discriminate Hp.
Qed.

Lemma encode_bytes rs :
  Forall (fun r => In r pool) rs -> bytes (flat_map encode_rune rs).
Proof.
  induction 1 as [| r rs Hr _ IH]; [constructor |].
  pose proof pool_one_symbol as Hp. rewrite forallb_forall in Hp.
  specialize (Hp r Hr). unfold one_symbol in Hp.
  apply andb_true_iff in Hp. destruct Hp as [_ H2].
  rewrite forallb_forall in H2.
  cbn [flat_map]. unfold bytes. apply Forall_app. split; [| exact IH].
  apply Forall_forall. intros b Hin. specialize (H2 b Hin).
  apply andb_true_iff in H2. unfold is_byte. lia.
Qed.

Lemma flat_map_encode_inj : forall rs rs',
  Forall (fun r => In r pool) rs -> Forall (fun r => In r pool) rs' ->
  flat_map encode_rune rs = flat_map encode_rune rs' -> rs = rs'.
Proof.
  induction rs as [| r rs IH]; intros rs' H1 H2 H.
  - destruct rs' as [| r' rs']; [reflexivity |].
    inversion H2; subst. cbn [flat_map] in H. symmetry in H.
    apply app_eq_nil in H. destruct H as [H _].
    now apply encode_nonempty in H.
  - inversion H1; subst. destruct rs' as [| r' rs'].
    + cbn [flat_map] in H. apply app_eq_nil in H. destruct H as [H _].
      now apply encode_nonempty in H.
    + inversion H2; subst. cbn [flat_map] in H.
      apply encode_step in H; [| assumption | assumption].
      destruct H as [-> H]. f_equal. now apply IH.
Qed.

Lemma of_runes_inj rs rs' :
  Forall (fun r => In r pool) rs -> Forall (fun r => In r pool) rs' ->
  of_runes rs = of_runes rs' -> rs = rs'.
Proof.
  intros H1 H2 H. apply flat_map_encode_inj; [assumption | assumption |].
  unfold of_runes in H. apply (f_equal to_bytes) in H.
  now rewrite !to_bytes_of_bytes in H by now apply encode_bytes.
Qed.

Lemma low_digits_range : forall n v,
  Forall (fun d => 0 <= d < 38) (low_digits n v).
Proof.
  induction n as [| n IH]; intros v; cbn [low_digits]; constructor.
  - apply Z.mod_pos_bound. lia.
  - apply IH.
Qed.

Lemma low_digits_iff : forall n v v',
  low_digits n v = low_digits n v' <-> v mod 38 ^ Z.of_nat n = v' mod 38 ^ Z.of_nat n.
Proof.
  induction n as [| n IH]; intros v v'.
  - cbn [low_digits]. change (38 ^ Z.of_nat 0) with 1. rewrite !Z.mod_1_r.
    split; reflexivity.
  - assert (Hp : 0 < 38 ^ Z.of_nat n) by (apply Z.pow_pos_nonneg; lia).
    replace (38 ^ Z.of_nat (Datatypes.S n)) with (38 * 38 ^ Z.of_nat n)
      by (rewrite Nat2Z.inj_succ, Z.pow_succ_r by lia; reflexivity).
    rewrite !Z.rem_mul_r by lia. cbn [low_digits].
    pose proof (Z.mod_pos_bound v 38 ltac:(lia)) as B1.
    pose proof (Z.mod_pos_bound v' 38 ltac:(lia)) as B2.
    pose proof (Z.mod_pos_bound (v / 38) (38 ^ Z.of_nat n) Hp) as B3.
    pose proof (Z.mod_pos_bound (v' / 38) (38 ^ Z.of_nat n) Hp) as B4.
    split.
    + intros E. injection E as E0 Er. apply IH in Er. now rewrite E0, Er.
    + intros E.
      assert (E0 : v mod 38 = v' mod 38) by lia.
      assert (Er : (v / 38) mod 38 ^ Z.of_nat n
                   = (v' / 38) mod 38 ^ Z.of_nat n) by lia.
      apply IH in Er. now rewrite E0, Er.
Qed.

Lemma nth_index_inj (l : list Z) m a b :
  NoDup l -> Z.of_nat (List.length l) = m -> 0 < m ->
  nth (Z.to_nat (a mod m)) l 0 = nth (Z.to_nat (b mod m)) l 0 ->
  a mod m = b mod m.
Proof.
  intros Hn Hl Hm H.
  pose proof (Z.mod_pos_bound a m Hm). pose proof (Z.mod_pos_bound b m Hm).
  apply Z2Nat.inj; [lia | lia |].
  apply (proj1 (NoDup_nth l 0) Hn); [lia | lia | exact H].
Qed.

Lemma nth_digit_inj (l : list Z) : forall ds ds',
  NoDup l ->
  Forall (fun d => 0 <= d < Z.of_nat (List.length l)) ds ->
  Forall (fun d => 0 <= d < Z.of_nat (List.length l)) ds' ->
  map (fun d => nth (Z.to_nat d) l 0) ds
  = map (fun d => nth (Z.to_nat d) l 0) ds' ->
  ds = ds'.
Proof.
  induction ds as [| d ds IH]; intros ds' Hn H1 H2 H.
  - destruct ds'; [reflexivity | discriminate].
  - destruct ds' as [| d' ds']; [discriminate |].
    inversion H1; subst. inversion H2; subst.
    cbn [map] in H. injection H as Hd Hr. f_equal; [| now apply IH].
    apply Z2Nat.inj; [lia | lia |].
    apply (proj1 (NoDup_nth l 0) Hn); [lia | lia | exact Hd].
Qed.

Lemma runes_from_digits out :
  runes_from out
  = nth (Z.to_nat (nth 0 out 0 mod 10)) digits 0
    :: nth (Z.to_nat (nth 1 out 0 mod 28)) hanguls 0
    :: map (fun d => nth (Z.to_nat d) pool 0)
         (rev (low_digits 8 (Uint64 (skipn 8 out)))).
Proof. reflexivity. Qed.

Lemma NoDup_digits : NoDup digits.
Proof. apply GeneratorClaims.distinct_NoDup. vm_compute. reflexivity. Qed.

Lemma NoDup_hanguls : NoDup hanguls.
Proof. apply GeneratorClaims.distinct_NoDup. vm_compute. reflexivity. Qed.

Lemma NoDup_pool : NoDup pool.
Proof. apply GeneratorClaims.distinct_NoDup. vm_compute. reflexivity. Qed.

Lemma cons2_inj {A} (x y x' y' : A) l l' :
  x :: y :: l = x' :: y' :: l' -> x = x' /\ y = y' /\ l = l'.
Proof. intros H. injection H as E1 E2 E3. auto. Qed.

Lemma triple_inj {A B C} (a a' : A) (b b' : B) (c c' : C) :
  (a, b, c) = (a', b', c') -> a = a' /\ b = b' /\ c = c'.
Proof. intros H. injection H as E1 E2 E3. auto. Qed.

Lemma runes_from_eq_iff out out' :
  runes_from out = runes_from out' <-> residues out = residues out'.
Proof.
  rewrite !runes_from_digits. unfold residues.
  generalize (Uint64 (skipn 8 out)) (Uint64 (skipn 8 out')).
  generalize (nth 0 out 0) (nth 0 out' 0) (nth 1 out 0) (nth 1 out' 0).
  intros a a' b b' v v'.
  change (38 ^ 8) with (38 ^ Z.of_nat 8).
  split.
  - intros H. apply cons2_inj in H. destruct H as [Ha [Hb Hv]].
    apply (nth_index_inj digits 10 a a' NoDup_digits eq_refl) in Ha; [| lia].
    apply (nth_index_inj hanguls 28 b b' NoDup_hanguls eq_refl) in Hb; [| lia].
    apply (nth_digit_inj pool) in Hv.
    + apply (f_equal (@rev Z)) in Hv. rewrite !rev_involutive in Hv.
      apply low_digits_iff in Hv. now rewrite Ha, Hb, Hv.
    + exact NoDup_pool.
    + apply Forall_rev. exact (low_digits_range 8 v).
    + apply Forall_rev. exact (low_digits_range 8 v').
  - intros H. apply triple_inj in H. destruct H as [Ha [Hb Hv]].
    apply low_digits_iff in Hv. now rewrite Ha, Hb, Hv.
Qed.

Lemma runes_from_pool out : Forall (fun r => In r pool) (runes_from out).
Proof.
  destruct (runes_from_format out) as [d [s [body [R [Hd [Hs [_ Hb]]]]]]].
  rewrite R. constructor; [apply in_or_app; now left |].
  constructor; [apply in_or_app; now right | exact Hb].
Qed.

End CollisionFacts.

Module CollisionExtras.
Import Wire AES CodeGen Shape Utf8 GenFacts Residues CollisionFacts.

(** Two calls of the generator return the same code exactly when their
    output blocks agree in byte 0 modulo 10, in byte 1 modulo 28 and in
    bytes 8..16 modulo 38^8: the rest of the block is not used, and
    different strings of symbols are different codes. *)
Theorem codes_equal_iff_residues_equal : forall c i c' i',
  generateSecureCoupon c i = generateSecureCoupon c' i'
  <-> residues (cipher_of c i) = residues (cipher_of c' i').
Proof.
  intros c i c' i'.
  destruct (generateSecureCoupon_runes c i) as [out [Ho [_ [_ E]]]].
  destruct (generateSecureCoupon_runes c' i') as [out' [Ho' [_ [_ E']]]].
  rewrite E, E', <- Ho, <- Ho'. clear E E' Ho Ho'.
  rewrite <- runes_from_eq_iff. split.
  - intros H. injection H as H.
    apply of_runes_inj; [apply runes_from_pool | apply runes_from_pool | exact H].
  - intros H. now rewrite H.
Qed.

End CollisionExtras.

(** ** Further properties of concurrent issuance *)

Module BurstExtras.
Import Repo Service StoreView Burst BurstFacts BurstInv.

Lemma mark_campaigns now x rows :
  map Coupon.CampaignID (map (mark_row now x) rows)
  = map Coupon.CampaignID rows.
Proof.
  rewrite map_map. apply map_ext. intros r.
  now destruct (InvariantFacts.mark_row_fields now x r) as [_ [-> _]].
Qed.

Lemma next_rows s t k pick d p :
  next s t k pick = Some (d, p) ->
  d = db s \/
  exists now x,
    d = mkDB (campaigns (db s)) (map (mark_row now x) (coupons (db s)))
          (campaigns_id_seq (db s)).
Proof.
  unfold next. intros H.
  destruct (pc k) as [| cmp | | | code | code now | r].
  - destruct (Repo.GetCampaign false (db s) (req k)) as [cm | [] |];
      inversion H; now left.
  - destruct (clock s <? Campaign.StartDate cmp); inversion H; now left.
  - inversion H; now left.
  - destruct pick as [code |].
    + destruct (may_select (candidates (locked s t) (db s) (req k)) code);
        inversion H; now left.
    + destruct (candidates (locked s t) (db s) (req k));
        inversion H; now left.
  - destruct (MarkCouponAsIssued false false (clock s) (db s) code)
      as [tx | e |]; inversion H; now left.
  - inversion H. right. now exists now, code.
  - discriminate.
Qed.

Lemma step_rows s e s' :
  step s e = Some s' ->
  map Coupon.Code (coupons (db s')) = map Coupon.Code (coupons (db s)) /\
  map Coupon.CampaignID (coupons (db s'))
  = map Coupon.CampaignID (coupons (db s)).
Proof.
  intros H. destruct e as [dt | t pick | t]; cbn [step] in H.
  - destruct (dt <? 0); [discriminate |]. inversion H; subst. now split.
  - destruct (nth_error (callers s) t) as [k |]; [| discriminate].
    destruct (next s t k pick) as [[d p] |] eqn:Hn; [| discriminate].
    inversion H; subst. cbn [set_pc db].
    destruct (next_rows _ _ _ _ _ _ Hn) as [-> | [now [x ->]]];
      [now split |].
    cbn [coupons]. split; [apply mark_codes | apply mark_campaigns].
  - destruct (nth_error (callers s) t) as [k |]; [| discriminate].
    destruct (fault k) as [p |]; [| discriminate].
    inversion H; subst. now split.
Qed.

Lemma run_rows evs : forall s s',
  run s evs = Some s' ->
  map Coupon.Code (coupons (db s')) = map Coupon.Code (coupons (db s)) /\
  map Coupon.CampaignID (coupons (db s'))
  = map Coupon.CampaignID (coupons (db s)).
Proof.
  induction evs as [| e evs IH]; intros s s' H; cbn [run] in H.
  - inversion H; subst. now split.
  - destruct (step s e) as [s1 |] eqn:Hs; [| discriminate].
    destruct (step_rows _ _ _ Hs) as [A1 A2].
    destruct (IH _ _ H) as [B1 B2]. split; congruence.
Qed.

(** Rows whose codes and campaigns agree position by position: a row of
    one list with code [x] has a partner in the other. *)
Lemma same_keys_in : forall (l l' : list Coupon.t) r,
  map Coupon.Code l' = map Coupon.Code l ->
  map Coupon.CampaignID l' = map Coupon.CampaignID l ->
  In r l ->
  exists r', In r' l' /\ Coupon.Code r' = Coupon.Code r /\
             Coupon.CampaignID r' = Coupon.CampaignID r.
Proof.
  induction l as [| a l IH]; intros l' r H1 H2 Hin; [contradiction |].
  destruct l' as [| a' l']; [discriminate |].
  cbn [map] in H1, H2. injection H1 as E1 H1. injection H2 as E2 H2.
  destruct Hin as [<- | Hin].
  - exists a'. split; [now left | now split].
  - destruct (IH l' r H1 H2 Hin) as [r' [G1 G2]].
    exists r'. split; [now right | exact G2].
Qed.

(** In every interleaving of a burst, with storage failures or without, no
    coupon of campaign [c] is lost or made up: the codes Available in the
    committed store together with the codes returned to the calls are the
    codes that were Available at the start.  Every returned code is an
    Issued coupon of [c] in the committed store; no row is added or
    removed; no two calls hold the lock of one row, and a locked row is
    Available in the committed store. *)
Theorem burst_conserves_coupons : forall db0 now0 reqs c campaign evs s,
  NoDup (map Coupon.Code (coupons db0)) ->
  lookup db0 c = Some campaign ->
  Campaign.StartDate campaign <= now0 ->
  run (start db0 now0 reqs) evs = Some s ->
  Permutation (available (db s) c ++ got s c) (available db0 c) /\
  (forall x, In x (got s c) ->
     exists row, In row (coupons (db s)) /\ Coupon.Code row = x /\
                 Coupon.CampaignID row = c /\ Coupon.Status row = Issued) /\
  map Coupon.Code (coupons (db s)) = map Coupon.Code (coupons db0) /\
  campaigns (db s) = campaigns db0 /\
  NoDup (held (callers s)) /\
  (forall k x, In k (callers s) -> In x (holds k) ->
     exists row, In row (coupons (db s)) /\ Coupon.Code row = x /\
                 Coupon.CampaignID row = req k /\
                 Coupon.Status row = Available).
Proof.
  intros db0 now0 reqs c camp evs s Hpk Hex Hst Hrun.
  assert (HI : Inv db0 now0 reqs c (db s) (clock s) (callers s)).
  { eapply run_inv; [exact Hex | exact Hst | | exact Hrun].
    cbn [start db clock callers]. now apply start_inv. }
  destruct HI as [I1 I2 I3 I4 I5 I6 I7 I8 I9].
  rewrite <- got_flat in I7.
  destruct (run_rows _ _ _ Hrun) as [R1 R2]. cbn [start db] in R1, R2.
  split; [exact I7 |]. split; [| auto].
  intros x Hx.
  assert (Hnd : NoDup (available (db s) c ++ got s c)).
  { apply (Permutation_NoDup (Permutation_sym I7)). now apply available_NoDup. }
  assert (H0 : In x (available db0 c)).
  { apply (Permutation_in _ I7). apply in_or_app. now right. }
  apply available_in in H0. destruct H0 as [row0 [Hin0 [Hc0 [Hk0 _]]]].
  destruct (same_keys_in _ _ row0 R1 R2 Hin0) as [row [Hin [Hc Hk]]].
  exists row. split; [exact Hin |]. split; [congruence |].
  split; [congruence |].
  destruct (Coupon.Status row) eqn:Es; [| reflexivity].
  exfalso.
  assert (Ha : In x (available (db s) c)).
  { apply available_in. exists row. repeat split; congruence. }
  apply in_split in Ha. destruct Ha as [l1 [l2 Ha]]. rewrite Ha in Hnd.
  rewrite <- app_assoc in Hnd. cbn [app] in Hnd.
  apply NoDup_remove_2 in Hnd. apply Hnd.
  apply in_or_app. right. apply in_or_app. now right.
Qed.

Lemma burst_conserves_coupons_witness :
  exists s,
    run (start burst_db 10 [1; 1; 1]) burst_schedule = Some s /\
    Permutation (available (db s) 1 ++ got s 1) (available burst_db 1) /\
    (forall x, In x (got s 1) ->
       exists row, In row (coupons (db s)) /\ Coupon.Code row = x /\
                   Coupon.CampaignID row = 1 /\ Coupon.Status row = Issued) /\
    map Coupon.Code (coupons (db s)) = map Coupon.Code (coupons burst_db) /\
    campaigns (db s) = campaigns burst_db /\
    NoDup (held (callers s)) /\
    (forall k x, In k (callers s) -> In x (holds k) ->
       exists row, In row (coupons (db s)) /\ Coupon.Code row = x /\
                   Coupon.CampaignID row = req k /\
                   Coupon.Status row = Available).
Proof.
  eexists. split; [vm_compute; reflexivity |].
  apply (burst_conserves_coupons burst_db 10 [1; 1; 1] 1
           (Campaign.mk 1 2 5 0 0) burst_schedule).
  - repeat constructor; cbn; intuition discriminate.
  - reflexivity.
  - cbn. lia.
  - vm_compute. reflexivity.
Defined.

End BurstExtras.

(** ** Requests one after the other *)

Module ComposeFacts.
Import Repo Service StoreView Census Drain.
Import StoreFacts ServiceFacts InvariantFacts CensusFacts CensusInv BurstFacts.

Lemma find_last {A} (p : A -> bool) l a :
  (forall x, In x l -> p x = false) ->
  find p (l ++ [a]) = if p a then Some a else None.
Proof.
  induction l as [| x l IH]; intros H; [reflexivity |].
  cbn [app find]. rewrite (H x (or_introl eq_refl)).
  apply IH. intros y Hy. apply H. now right.
Qed.

Lemma IssueCoupon_faultless env c db camp :
  issue_faultless env -> lookup db c = Some camp ->
  Campaign.StartDate camp <= now_check env ->
  IssueCoupon env c db
  = match oldest (issue_tie env) (candidates (fun _ => false) db c) with
    | Some row =>
        (mkDB (campaigns db)
              (map (mark_row (now_mark env) (Coupon.Code row)) (coupons db))
              (campaigns_id_seq db),
         Ok (mkCouponMsg (Coupon.Code row) c))
    | None => (db, Error CodeResourceExhausted)
    end.
Proof.
  intros [F1 [F2 [F3 [F4 [F5 F6]]]]] Hl Hs.
  unfold IssueCoupon, Repo.GetCampaign. rewrite F1, F2, F3, F4, F5, F6.
  unfold lookup in Hl. rewrite Hl.
  destruct (Z.ltb_spec (now_check env) (Campaign.StartDate camp)); [lia |].
  unfold ReserveAvailableCoupon.
  destruct (oldest (issue_tie env) (candidates (fun _ => false) db c))
    as [row |] eqn:Ho; [| reflexivity].
  destruct (oldest_spec _ _ _ Ho) as [Hin _].
  unfold MarkCouponAsIssued.
  assert (Hra : rows_affected (Coupon.Code row) (coupons db) <> 0%nat).
  { unfold rows_affected. unfold candidates in Hin. apply filter_In in Hin.
    destruct Hin as [Hin Hp]. apply andb_true_iff in Hp. destruct Hp as [Hp _].
    apply andb_true_iff in Hp. destruct Hp as [_ Hp].
    intros Hz. apply length_zero_iff_nil in Hz.
    assert (Hi : In row (filter
                   (fun r => String.eqb (Coupon.Code r) (Coupon.Code row)
                             && status_eqb (Coupon.Status r) Available)
                   (coupons db))).
    { apply filter_In. split; [exact Hin |]. now rewrite String.eqb_refl. }
    rewrite Hz in Hi. contradiction. }
  apply Nat.eqb_neq in Hra. rewrite Hra. reflexivity.
Qed.

(** The Issued codes of [c] after the row [x] of [c] is marked. *)
Lemma issued_after_mark now x c : forall rows row,
  NoDup (map Coupon.Code rows) -> In row rows ->
  Coupon.Code row = x -> Coupon.CampaignID row = c ->
  Coupon.Status row = Available ->
  Permutation
    (map Coupon.Code
       (filter (fun r => (Coupon.CampaignID r =? c)
                         && status_eqb (Coupon.Status r) Issued)
          (map (mark_row now x) rows)))
    (x :: map Coupon.Code
            (filter (fun r => (Coupon.CampaignID r =? c)
                              && status_eqb (Coupon.Status r) Issued) rows)).
Proof.
  induction rows as [| r rows IH]; intros row Hn Hin Hx Hc Hs; [contradiction |].
  cbn [map] in Hn. inversion Hn as [| ? ? Hni Hd]; subst.
  cbn [map filter].
  destruct Hin as [-> | Hin].
  - destruct (mark_row_cases now (Coupon.Code row) row)
      as [[_ [_ ->]] | [[Hne | Hi] _]];
      [| now contradiction Hne | rewrite Hs in Hi; discriminate Hi].
    cbn [Coupon.CampaignID Coupon.Status status_eqb].
    rewrite Z.eqb_refl, Hs. cbn [andb status_eqb map].
    apply perm_skip.
    assert (Hfix : forall y, In y rows ->
                     mark_row now (Coupon.Code row) y = y).
    { intros y Hy.
      destruct (mark_row_cases now (Coupon.Code row) y)
        as [[Hc _] | [_ E]]; [| exact E].
      exfalso. apply Hni. rewrite <- Hc. now apply in_map. }
    rewrite IssueExtras.filter_map_fixed; [reflexivity | |].
    + intros y Hy. now rewrite (Hfix y Hy).
    + intros y Hy _. exact (Hfix y Hy).
  - assert (Hne : Coupon.Code r <> Coupon.Code row).
    { intros E. apply Hni. rewrite E. now apply in_map. }
    destruct (mark_row_cases now (Coupon.Code row) r)
      as [[E _] | [_ ->]]; [contradiction |].
    destruct ((Coupon.CampaignID r =? Coupon.CampaignID row)
              && status_eqb (Coupon.Status r) Issued).
    + cbn [map]. rewrite (IH row Hd Hin eq_refl eq_refl Hs). apply perm_swap.
    + exact (IH row Hd Hin eq_refl eq_refl Hs).
Qed.

End ComposeFacts.

Module ComposeExtras.
Import Repo Service StoreView Census Drain.
Import StoreFacts ServiceFacts InvariantFacts CensusFacts CensusInv BurstFacts.
Import ComposeFacts.

(** A campaign that was created can be read back: in a reachable state,
    after a successful [CreateCampaign] a [GetCampaign] for the answered
    identifier finds the campaign, with the requested count and start date
    and with no issued code. *)
Theorem created_campaign_is_readable : forall db, reachable db ->
  forall env n d db' m genv,
    CreateCampaign env n d db = (db', Ok m) ->
    get_campaign_fails genv = false -> get_select_fails genv = false ->
    GetCampaign genv (Id m) db' = Ok (mkCampaignMsg (Id m) n d []) /\
    m = mkCampaignMsg (Id m) n d [].
Proof.
  intros db Hr env n d db' m genv H G1 G2.
  pose proof (reachable_well_formed db Hr) as W.
  apply CreateCampaign_ok in H.
  destruct H as [codes [_ [_ [_ [-> ->]]]]]. cbn [Id].
  split; [| reflexivity].
  unfold GetCampaign, GetCampaignWithCoupons, Repo.GetCampaign.
  rewrite G1, G2. unfold created. cbn [campaigns coupons].
  rewrite find_last.
  2:{ intros x Hx. destruct W as [_ [_ [_ [_ Hc]]]].
      destruct (Hc x Hx) as [[_ Hlt] _]. apply Z.eqb_neq. lia. }
  cbn [Campaign.ID]. rewrite Z.eqb_refl. cbn [bind].
  assert (E : issued_rows
                (mkDB (campaigns db
                         ++ [Campaign.mk (campaigns_id_seq db) n d
                               (now_campaign env) (now_campaign env)])
                      (coupons db
                         ++ map (new_row (campaigns_id_seq db)
                                   (create_tx_now env) (now_coupons env))
                              codes)
                      (campaigns_id_seq db + 1))
                (campaigns_id_seq db) = []).
  { unfold issued_rows. cbn [coupons]. apply filter_none.
    intros r Hin. apply in_app_or in Hin. destruct Hin as [Hin | Hin].
    - pose proof (well_formed_below db r W Hin).
      destruct (Z.eqb_spec (Coupon.CampaignID r) (campaigns_id_seq db));
        [lia | reflexivity].
    - apply in_map_iff in Hin. destruct Hin as [code [<- _]].
      cbn [new_row Coupon.Status status_eqb]. apply andb_false_r. }
  rewrite E. reflexivity.
Qed.

Lemma created_campaign_is_readable_witness :
  exists db' m,
    CreateCampaign (create_env 10 11 12) 3 0 empty_db = (db', Ok m) /\
    GetCampaign (mkGetEnv false false) (Id m) db'
    = Ok (mkCampaignMsg (Id m) 3 0 []) /\
    m = mkCampaignMsg (Id m) 3 0 [].
Proof.
  do 2 eexists. split; [vm_compute; reflexivity |].
  apply (created_campaign_is_readable empty_db reach_empty
           (create_env 10 11 12) 3 0);
    [vm_compute; reflexivity | reflexivity | reflexivity].
Defined.

(** A coupon that was issued is listed: under the primary key, after a
    successful [IssueCoupon] on [c] the codes [GetCampaign] lists for [c]
    are the codes it listed before and the issued code. *)
Theorem issued_code_is_listed : forall env c db db' m genv,
  NoDup (map Coupon.Code (coupons db)) ->
  IssueCoupon env c db = (db', Ok m) ->
  get_campaign_fails genv = false -> get_select_fails genv = false ->
  exists before after,
    GetCampaign genv c db = Ok before /\
    GetCampaign genv c db' = Ok after /\
    Id after = Id before /\
    AvailableCoupons after = AvailableCoupons before /\
    Permutation (IssuedCouponCodes after)
                (Code_ m :: IssuedCouponCodes before) /\
    ~ In (Code_ m) (IssuedCouponCodes before).
Proof.
  intros env c db db' m genv Hpk H G1 G2.
  apply IssueCoupon_ok in H.
  destruct H as [camp [row [Hl [_ [Hin [Hc [Hs [-> ->]]]]]]]].
  unfold GetCampaign, GetCampaignWithCoupons, Repo.GetCampaign.
  rewrite G1, G2. cbn [campaigns Code_]. unfold lookup in Hl. rewrite Hl.
  cbn [bind]. do 2 eexists. split; [reflexivity |]. split; [reflexivity |].
  cbn [Id AvailableCoupons IssuedCouponCodes].
  split; [reflexivity |]. split; [reflexivity |]. split.
  - rewrite (Permutation_map Coupon.Code
               (ReadIssueClaims.order_perm (issued_rows _ c))).
    rewrite (Permutation_map Coupon.Code
               (ReadIssueClaims.order_perm (issued_rows db c))).
    unfold issued_rows. cbn [coupons].
    now apply (issued_after_mark _ _ c (coupons db) row).
  - intros Hi.
    apply (Permutation_in _ (Permutation_map Coupon.Code
             (ReadIssueClaims.order_perm (issued_rows db c)))) in Hi.
    apply in_map_iff in Hi. destruct Hi as [r [Hr1 Hr2]].
    unfold issued_rows in Hr2. apply filter_In in Hr2.
    destruct Hr2 as [Hr2 Hp]. apply andb_true_iff in Hp. destruct Hp as [_ Hp].
    assert (r = row) by (apply (pk_unique (coupons db)); auto).
    subst r. rewrite Hs in Hp. discriminate Hp.
Qed.

Lemma issued_code_is_listed_witness :
  exists db' m before after,
    IssueCoupon (issue_env 20 21) 1 sample_db = (db', Ok m) /\
    GetCampaign (mkGetEnv false false) 1 sample_db = Ok before /\
    GetCampaign (mkGetEnv false false) 1 db' = Ok after /\
    Id after = Id before /\
    AvailableCoupons after = AvailableCoupons before /\
    Permutation (IssuedCouponCodes after)
                (Code_ m :: IssuedCouponCodes before) /\
    ~ In (Code_ m) (IssuedCouponCodes before).
Proof.
  assert (Hpk : NoDup (map Coupon.Code (coupons sample_db))).
  { exact (proj1 (proj2 (reachable_well_formed sample_db
                   (reach_step _ _ reach_empty)))). }
  destruct (issued_code_is_listed (issue_env 20 21) 1 sample_db
              (fst (IssueCoupon (issue_env 20 21) 1 sample_db))
              (mkCouponMsg
                 (match snd (IssueCoupon (issue_env 20 21) 1 sample_db) with
                  | Ok m => Code_ m
                  | _ => ""%string
                  end) 1)
              (mkGetEnv false false) Hpk)
    as [before [after H]];
    [vm_compute; reflexivity | reflexivity | reflexivity |].
  do 4 eexists. split; [vm_compute; reflexivity |]. exact H.
Defined.

(** A campaign gives out exactly the coupons it has.  Under the primary
    key, when calls of [IssueCoupon] on a started campaign run one after
    the other and no storage call fails, the first [K] of them return
    pairwise different codes of the [K] Available coupons and every later
    one answers ResourceExhausted; the coupons left Available are those
    not returned. *)
Theorem sequential_calls_drain_the_pool : forall envs c db campaign,
  NoDup (map Coupon.Code (coupons db)) ->
  lookup db c = Some campaign ->
  Forall (fun env => issue_faultless env /\
                     Campaign.StartDate campaign <= now_check env) envs ->
  exists codes,
    List.length codes
    = Nat.min (List.length (Burst.available db c)) (List.length envs) /\
    NoDup codes /\ incl codes (Burst.available db c) /\
    snd (issue_all envs c db)
    = map (fun x => Ok (mkCouponMsg x c)) codes
      ++ repeat (Error CodeResourceExhausted)
           (List.length envs - List.length (Burst.available db c)) /\
    Permutation (Burst.available (fst (issue_all envs c db)) c ++ codes)
                (Burst.available db c).
Proof.
  induction envs as [| env envs IH]; intros c db camp Hpk Hl Hf.
  - exists []. cbn [issue_all fst snd List.length map repeat app Nat.sub].
    rewrite Nat.min_0_r, app_nil_r.
    repeat split; [constructor | intros x [] | reflexivity].
  - inversion Hf as [| ? ? [Hfl Hst] Hf']; subst.
    cbn [issue_all]. rewrite (IssueCoupon_faultless env c db camp Hfl Hl Hst).
    destruct (oldest (issue_tie env) (candidates (fun _ => false) db c))
      as [row |] eqn:Ho.
    + destruct (oldest_spec _ _ _ Ho) as [Hin _].
      set (x := Coupon.Code row).
      set (db1 := mkDB (campaigns db)
                    (map (mark_row (now_mark env) x) (coupons db))
                    (campaigns_id_seq db)).
      assert (Hx : In x (Burst.available db c)).
      { unfold Burst.available. now apply in_map. }
      assert (Hav : Burst.available db1 c
                    = filter (fun y => negb (String.eqb y x))
                        (Burst.available db c))
        by apply available_marked.
      pose proof (filter_neq_perm _ x (available_NoDup db c Hpk) Hx) as P.
      rewrite <- Hav in P.
      assert (Hpk1 : NoDup (map Coupon.Code (coupons db1))).
      { unfold db1. cbn [coupons]. now rewrite mark_codes. }
      destruct (IH c db1 camp Hpk1 Hl Hf')
        as [codes [H1 [H2 [H3 [H4 H5]]]]].
      destruct (issue_all envs c db1) as [db2 rs] eqn:Ea.
      cbn [fst snd] in *.
      assert (Hnx : ~ In x (Burst.available db1 c)).
      { rewrite Hav. intros Hi. apply filter_In in Hi. destruct Hi as [_ Hi].
        now rewrite String.eqb_refl in Hi. }
      pose proof (Permutation_length P) as PL. cbn [List.length] in PL.
      exists (x :: codes). split; [| split; [| split; [| split]]].
      * cbn [List.length]. rewrite H1. lia.
      * constructor; [| exact H2]. intros Hi. apply Hnx. now apply H3.
      * intros y [<- | Hy]; [exact Hx |].
        apply (Permutation_in _ P). right. now apply H3.
      * rewrite H4. cbn [map app List.length]. do 3 f_equal. lia.
      * rewrite <- P. rewrite <- H5.
        rewrite Permutation_middle. reflexivity.
    + assert (Hnil : Burst.available db c = []).
      { unfold Burst.available. apply oldest_none in Ho. now rewrite Ho. }
      destruct (IH c db camp Hpk Hl Hf')
        as [codes [H1 [H2 [H3 [H4 H5]]]]].
      destruct (issue_all envs c db) as [db2 rs] eqn:Ea.
      cbn [fst snd] in *. rewrite Hnil in *.
      cbn [List.length Nat.min] in H1.
      destruct codes; [| discriminate].
      exists []. cbn [List.length Nat.min map app].
      repeat split; [constructor | intros y [] | | exact H5].
      rewrite H4. cbn [map app]. rewrite Nat.sub_0_r. reflexivity.
Qed.

Lemma sequential_calls_drain_the_pool_witness :
  exists codes,
    List.length codes
    = Nat.min (List.length (Burst.available sample_db 1))
        (List.length (repeat (issue_env 20 21) 4)) /\
    NoDup codes /\ incl codes (Burst.available sample_db 1) /\
    snd (issue_all (repeat (issue_env 20 21) 4) 1 sample_db)
    = map (fun x => Ok (mkCouponMsg x 1)) codes
      ++ repeat (Error CodeResourceExhausted)
           (List.length (repeat (issue_env 20 21) 4)
            - List.length (Burst.available sample_db 1)) /\
    Permutation
      (Burst.available
         (fst (issue_all (repeat (issue_env 20 21) 4) 1 sample_db)) 1
       ++ codes)
      (Burst.available sample_db 1).
Proof.
  apply (sequential_calls_drain_the_pool (repeat (issue_env 20 21) 4) 1
           sample_db (Campaign.mk 1 3 0 10 10)).
  - exact (proj1 (proj2 (reachable_well_formed sample_db
                   (reach_step _ _ reach_empty)))).
  - vm_compute. reflexivity.
  - repeat constructor; cbn; lia.
Defined.

End ComposeExtras.

